(** * BrainDriveChat plugin lifecycle manager: a shallow embedding

    The development follows [lifecycle_manager.py].  Python dictionaries
    with a fixed set of keys are records, the [active_users] set is a
    [gset string], the target directory is a finite map from relative
    paths to nodes, database tables are lists of rows in storage order.
    Code that awaits the database or touches the file system runs in a
    small state-and-exception monad over a [World]; what the environment
    decides (whether a statement is refused, whether the operating system
    refuses a write, the clock) is part of the world. *)

From stdpp Require Import gmap strings list.
From Stdlib Require Import Ascii.
From Stdlib Require String.

(** ** Strings, the way the Python code uses them *)

Module Py.

(** [needle in hay] on two [str] values. *)
Fixpoint contains (needle hay : string) : bool :=
  String.prefix needle hay ||
  match hay with
  | EmptyString => false
  | String _ hay' => contains needle hay'
  end.

(** [s.endswith(suffix)]. *)
Definition endswith (s suffix : string) : bool :=
  let n := String.length s in
  let k := String.length suffix in
  (k <=? n)%nat && String.eqb (String.substring (n - k) k s) suffix.

(** [c in s] for a one-character needle. *)
Fixpoint has_char (c : ascii) (s : string) : bool :=
  match s with
  | EmptyString => false
  | String d s' => Ascii.eqb c d || has_char c s'
  end.

(** [s.replace(c, '')]. *)
Fixpoint remove_char (c : ascii) (s : string) : string :=
  match s with
  | EmptyString => EmptyString
  | String d s' =>
      if Ascii.eqb c d then remove_char c s' else String d (remove_char c s')
  end.

(** [sep.join(parts)]. *)
Definition join (sep : string) (parts : list string) : string :=
  String.concat sep parts.

(** The components of a path written as a string, as [Path(s).parts]
    lists them below its root. *)
Fixpoint split_slash (s cur : string) : list string :=
  match s with
  | EmptyString => [cur]
  | String c s' =>
      if Ascii.eqb c "/" then cur :: split_slash s' EmptyString
      else split_slash s' (cur +:+ String c EmptyString)
  end.

Definition parts (s : string) : list string :=
  List.filter (λ part, negb (String.eqb part "")) (split_slash s "").

(** [x in l] for a list or a set of strings. *)
Definition mem (x : string) (l : list string) : bool :=
  existsb (String.eqb x) l.

End Py.

Arguments Py.endswith : simpl never.

(** ** JSON values, as [json.load] returns them *)

#[local] Set Warnings "-register-all".

Inductive json : Type :=
| JNull
| JBool (b : bool)
| JNumber (literal : string)
| JString (s : string)
| JArray (items : list json)
| JObject (members : list (string * json)).

(** The text [json.dumps] produces for a value; the columns that hold it
    are compared as values, so the text is kept as the value it encodes. *)
Inductive json_text : Type := Dumps (v : json).

Definition json_dumps (v : json) : json_text := Dumps v.

(** ** Exceptions *)

Inductive exn_class : Type :=
| JSONDecodeError
| FileNotFoundError
| TypeError
| OSError
| DatabaseError
| AttributeError.

(** An exception with its class and [str(e)]; every class here derives
    from [Exception]. *)
Record exn : Type := Exn { exn_class_of : exn_class; exn_str : string }.

Inductive outcome (A : Type) : Type :=
| Returned (a : A)
| Raised (e : exn).
Arguments Returned {A} a.
Arguments Raised {A} e.

(** ** Descriptors *)

(** The keys of [self.plugin_data]. *)
Record PluginData : Type := {
  pd_name : string;
  pd_description : string;
  pd_version : string;
  pd_type : string;
  pd_icon : string;
  pd_category : string;
  pd_official : bool;
  pd_author : string;
  pd_compatibility : string;
  pd_scope : string;
  pd_bundle_method : string;
  pd_bundle_location : string;
  pd_is_local : bool;
  pd_long_description : string;
  pd_plugin_slug : string;
  pd_source_type : string;
  pd_source_url : string;
  pd_update_check_url : option string;
  pd_last_update_check : option string;
  pd_update_available : bool;
  pd_latest_version : option string;
  pd_installation_type : string;
  pd_permissions : list string
}.

(** The keys of one entry of [self.module_data]. *)
Record ModuleData : Type := {
  md_name : string;
  md_display_name : string;
  md_description : string;
  md_icon : string;
  md_category : string;
  md_priority : Z;
  md_props : json;
  md_config_fields : json;
  md_messages : json;
  md_required_services : json;
  md_dependencies : json;
  md_layout : json;
  md_tags : json
}.

(** ** The two tables *)

Definition Id : Type := nat.
(** Seconds on the clock [datetime.now()] reads. *)
Definition timestamp : Type := Z.

(** The bound parameters of [plugin_insert]: the columns of a [plugin]
    row other than its generated [id].  [pp_data] stands for the columns
    copied one by one from [plugin_data] ([name] to [installation_type]);
    the [permissions] column holds the serialized list. *)
Record PluginParams : Type := {
  pp_user_id : string;
  pp_data : PluginData;
  pp_permissions : json_text;
  pp_enabled : bool;
  pp_created_at : timestamp;
  pp_updated_at : timestamp
}.

Record PluginRow : Type := {
  plugin_id_of : Id;
  plugin_cols : PluginParams
}.

(** The bound parameters of [module_insert]. *)
Record ModuleParams : Type := {
  mp_plugin_id : Id;
  mp_name : string;
  mp_display_name : string;
  mp_description : string;
  mp_icon : string;
  mp_category : string;
  mp_priority : Z;
  mp_props : json_text;
  mp_config_fields : json_text;
  mp_messages : json_text;
  mp_required_services : json_text;
  mp_dependencies : json_text;
  mp_layout : json_text;
  mp_tags : json_text;
  mp_created_at : timestamp;
  mp_updated_at : timestamp
}.

Record ModuleRow : Type := {
  module_id_of : Id;
  module_cols : ModuleParams
}.

(** Rows in storage order; a [SELECT] without [ORDER BY] returns them in
    this order.  The two sequences generate the [id] columns. *)
Record Tables : Type := {
  plugin : list PluginRow;
  module : list ModuleRow
}.

(** The SQL texts of the file, with their bound parameters. *)
Inductive query : Type :=
| CountPlugins
| SelectPlugin (user_id plugin_slug : string)
| InsertPlugin (params : PluginParams)
| InsertModule (params : ModuleParams)
| SelectModules (plugin_id : Id)
| DeleteModules (plugin_id : Id)
| DeletePlugin (plugin_id : Id) (user_id : string).

(** What the session was asked to do, in order. *)
Inductive db_call : Type :=
| Execute (q : query)
| Commit
| Rollback.

Inductive result_set : Type :=
| CountRow (count : nat)
| PluginRows (rows : list PluginRow)
| ModuleRows (rows : list ModuleRow)
| ReturningId (id : Id)
| NoRows.

(** ** Files *)

(** A path is its list of components; [Path / "a/b"] appends the
    components of the string. *)
Definition path : Type := list string.

(** What [json.load(open(p))] does on a file: it returns a value, or the
    text is not JSON, or reading fails before parsing (permissions, bytes
    that do not decode). *)
Inductive load_result : Type :=
| Loads (v : json)
| DecodeFails (msg : string)
| ReadFails (msg : string).

Record file : Type := {
  st_size : N;
  json_load : load_result
}.

Inductive node : Type :=
| File (f : file)
| Dir (size : N).

(** The tree below [Path(__file__).parent] is an input that is only read:
    the entries of [rglob] in the order the traversal yields them, by their
    path relative to the source directory, and the error (if any) the
    traversal ends with.  Everything that is written lives in [fs]; the
    target directory is taken to lie outside the source tree. *)
Record Files : Type := {
  source_files : list (path * node);
  source_scan_error : option string;
  fs : gmap path node;
  os_error : path → option string
}.

(** ** The database session *)

(** [committed] is what a new transaction would see, [session] what this
    one sees.  [script] holds the fate of the coming [execute] and
    [commit] calls, first call first: [Some msg] makes the call raise
    (a violated constraint, a lost connection), [None] and an exhausted
    script let it through.  [calls] records every call made, last call
    last. *)
Record Db : Type := {
  committed : Tables;
  session : Tables;
  plugin_seq : Id;
  module_seq : Id;
  script : list (option string);
  calls : list db_call
}.

(** What the import at the head of the module found.  When the host's
    [BaseLifecycleManager] can be imported (lines 24-40), the name
    [datetime] stays bound to the module of line 11.  Otherwise the
    module defines the minimal base class of lines 50-88, and line 46,
    [from datetime import datetime], rebinds the module's global
    [datetime] to the class. *)
Inductive base_class : Type := HostBase | MinimalBase.

Record World : Type := {
  db : Db;
  clock : timestamp;
  files : Files;
  imported_base : base_class
}.

Definition with_db (d : Db) (w : World) : World :=
  {| db := d; clock := clock w; files := files w;
     imported_base := imported_base w |}.

Definition with_fs (m : gmap path node) (w : World) : World :=
  {| db := db w; clock := clock w;
     files := {| source_files := source_files (files w);
                 source_scan_error := source_scan_error (files w);
                 fs := m;
                 os_error := os_error (files w) |};
     imported_base := imported_base w |}.

Definition with_base (b : base_class) (w : World) : World :=
  {| db := db w; clock := clock w; files := files w; imported_base := b |}.

(** ** The monad of awaited code *)

Definition M (A : Type) : Type := World → outcome A * World.

#[global] Instance M_ret : MRet M := λ A a w, (Returned a, w).

#[global] Instance M_bind : MBind M := λ A B k m w,
  match m w with
  | (Returned a, w') => k a w'
  | (Raised e, w') => (Raised e, w')
  end.

Definition raise {A : Type} (e : exn) : M A := λ w, (Raised e, w).

(** [try: body except Exception as e: handler e]. *)
Definition try_except {A : Type} (body : M A) (handler : exn → M A) : M A :=
  λ w,
  match body w with
  | (Returned a, w') => (Returned a, w')
  | (Raised e, w') => handler e w'
  end.

Definition get_world : M World := λ w, (Returned w, w).

(** [for x in xs: body x], with [continue] and exceptions inside [body]. *)
Fixpoint for_each {A : Type} (xs : list A) (body : A → M unit) : M unit :=
  match xs with
  | [] => mret tt
  | x :: xs' => body x ;; for_each xs' body
  end.

(** ** SQL *)

Definition plugin_matches (user_id plugin_slug : string) (r : PluginRow) : bool :=
  String.eqb (pp_user_id (plugin_cols r)) user_id
  && String.eqb (pd_plugin_slug (pp_data (plugin_cols r))) plugin_slug.

Definition module_of (plugin_id : Id) (r : ModuleRow) : bool :=
  Nat.eqb (mp_plugin_id (module_cols r)) plugin_id.

Definition plugin_is (plugin_id : Id) (user_id : string) (r : PluginRow) : bool :=
  Nat.eqb (plugin_id_of r) plugin_id
  && String.eqb (pp_user_id (plugin_cols r)) user_id.

(** One statement on the session's view of the tables. *)
Definition run_query (q : query) (d : Db) : result_set * Db :=
  let t := session d in
  let put t' ps ms :=
    {| committed := committed d; session := t';
       plugin_seq := ps; module_seq := ms;
       script := script d; calls := calls d |} in
  match q with
  | CountPlugins => (CountRow (length (plugin t)), d)
  | SelectPlugin u s =>
      (PluginRows (List.filter (plugin_matches u s) (plugin t)), d)
  | InsertPlugin params =>
      let id := plugin_seq d in
      (ReturningId id,
       put {| plugin := plugin t ++ [{| plugin_id_of := id; plugin_cols := params |}];
              module := module t |}
           (S id) (module_seq d))
  | InsertModule params =>
      let id := module_seq d in
      (ReturningId id,
       put {| plugin := plugin t;
              module := module t ++ [{| module_id_of := id; module_cols := params |}] |}
           (plugin_seq d) (S id))
  | SelectModules pid =>
      (ModuleRows (List.filter (module_of pid) (module t)), d)
  | DeleteModules pid =>
      (NoRows,
       put {| plugin := plugin t;
              module := List.filter (λ r, negb (module_of pid r)) (module t) |}
           (plugin_seq d) (module_seq d))
  | DeletePlugin pid u =>
      (NoRows,
       put {| plugin := List.filter (λ r, negb (plugin_is pid u r)) (plugin t);
              module := module t |}
           (plugin_seq d) (module_seq d))
  end.

(** The session takes note of the call and consumes its fate. *)
Definition announce (c : db_call) (d : Db) : option string * Db :=
  (match script d with o :: _ => o | [] => None end,
   {| committed := committed d; session := session d;
      plugin_seq := plugin_seq d; module_seq := module_seq d;
      script := tail (script d); calls := calls d ++ [c] |}).

(** [await db.execute(text(...), params)]. *)
Definition execute (q : query) : M result_set := λ w,
  let '(fate, d) := announce (Execute q) (db w) in
  match fate with
  | Some msg => (Raised (Exn DatabaseError msg), with_db d w)
  | None => let '(rs, d') := run_query q d in (Returned rs, with_db d' w)
  end.

(** [await db.commit()]. *)
Definition commit : M unit := λ w,
  let '(fate, d) := announce Commit (db w) in
  match fate with
  | Some msg => (Raised (Exn DatabaseError msg), with_db d w)
  | None =>
      (Returned tt,
       with_db {| committed := session d; session := session d;
                  plugin_seq := plugin_seq d; module_seq := module_seq d;
                  script := script d; calls := calls d |} w)
  end.

(** [await db.rollback()]: the session drops what it has not committed.
    It does not consult the script: the session discards its transaction
    whatever the state of the connection. *)
Definition rollback : M unit := λ w,
  let d := db w in
  (Returned tt,
   with_db {| committed := committed d; session := committed d;
              plugin_seq := plugin_seq d; module_seq := module_seq d;
              script := script d; calls := calls d ++ [Rollback] |} w).

(** [result.fetchone()[0]] of an [INSERT ... RETURNING id]. *)
Definition fetchone_0 (rs : result_set) : M Id :=
  match rs with
  | ReturningId id => mret id
  | _ => raise (Exn TypeError "'NoneType' object is not subscriptable")
  end.

(** [result.fetchone()] of a [SELECT] on [plugin]. *)
Definition fetchone (rs : result_set) : option PluginRow :=
  match rs with
  | PluginRows (r :: _) => Some r
  | _ => None
  end.

(** [result.fetchall()] of a [SELECT] on [module]. *)
Definition fetchall (rs : result_set) : list ModuleRow :=
  match rs with
  | ModuleRows rows => rows
  | _ => []
  end.

(** [datetime.now()] in the minimal base class, where [datetime] is the
    class (lines 58, 59, 67 and 76). *)
Definition datetime_now : M timestamp := λ w, (Returned (clock w), w).

(** [datetime.datetime.now()] of line 552.  It looks up the attribute
    [datetime] of whatever the global [datetime] is bound to: the module
    has it, the class has not. *)
Definition datetime_datetime_now : M timestamp := λ w,
  match imported_base w with
  | HostBase => (Returned (clock w), w)
  | MinimalBase =>
      (Raised (Exn AttributeError
                 "type object 'datetime.datetime' has no attribute 'datetime'"),
       w)
  end.

(** ** Result dictionaries *)

(** [{'success': False, 'error': ...}] or [{'success': True, ...fields}]. *)
Inductive Result (A : Type) : Type :=
| Failure (error : string)
| Success (fields : A).
Arguments Failure {A} error.
Arguments Success {A} fields.

Definition success {A : Type} (r : Result A) : bool :=
  match r with Success _ => true | Failure _ => false end.

Record ModuleCreated : Type := {
  mc_id : Id;
  mc_name : string;
  mc_display_name : string
}.

Record ModuleDeleted : Type := {
  del_id : Id;
  del_name : string
}.

(** The success fields of [_create_database_records]. *)
Record Created : Type := {
  created_plugin_id : Id;
  created_modules : list ModuleCreated
}.

(** The success fields of [_perform_user_installation]. *)
Record Installed : Type := {
  inst_plugin_id : Id;
  inst_plugin_slug : string;
  inst_plugin_name : string;
  inst_modules_created : list ModuleCreated
}.

(** The success fields of [_perform_user_uninstallation]. *)
Record Uninstalled : Type := {
  uninst_plugin_id : Id;
  uninst_deleted_modules : list ModuleDeleted
}.

Record PluginInfo : Type := {
  info_id : Id;
  info_name : string;
  info_version : string;
  info_enabled : bool;
  info_created_at : timestamp;
  info_updated_at : timestamp;
  info_plugin_slug : string
}.

(** The dictionary of [_check_existing_plugin]: [{'exists': True,
    'plugin_id', 'plugin_info'}], [{'exists': False}] or
    [{'exists': False, 'error': ...}]. *)
Inductive Existing : Type :=
| Found (plugin_id : Id) (plugin_info : PluginInfo)
| NotFound (error : option string).

Definition exists_ (c : Existing) : bool :=
  match c with Found _ _ => true | NotFound _ => false end.

(** ** The manager object *)

Record Manager : Type := {
  plugin_slug : string;
  version : string;
  shared_path : path;
  active_users : gset string;
  instance_id : string;
  created_at : timestamp;
  last_used : timestamp;
  plugin_data : PluginData;
  module_data : list ModuleData
}.

Definition set_active (users : gset string) (now : timestamp) (self : Manager) : Manager :=
  {| plugin_slug := plugin_slug self; version := version self;
     shared_path := shared_path self; active_users := users;
     instance_id := instance_id self; created_at := created_at self;
     last_used := now;
     plugin_data := plugin_data self; module_data := module_data self |}.

(** ** Record store *)

(** The dictionary under ['plugin_info']. *)
Definition plugin_info_of (plugin_row : PluginRow) : PluginInfo :=
  let c := plugin_cols plugin_row in
  {| info_id := plugin_id_of plugin_row;
     info_name := pd_name (pp_data c);
     info_version := pd_version (pp_data c);
     info_enabled := pp_enabled c;
     info_created_at := pp_created_at c;
     info_updated_at := pp_updated_at c;
     info_plugin_slug := pd_plugin_slug (pp_data c) |}.

Definition _check_existing_plugin (self : Manager) (user_id : string) : M Existing :=
  try_except
    (let plugin_slug := pd_plugin_slug (plugin_data self) in
     test_result ← execute CountPlugins;
     result ← execute (SelectPlugin user_id plugin_slug);
     match fetchone result with
     | Some plugin_row =>
         mret (Found (plugin_id_of plugin_row) (plugin_info_of plugin_row))
     | None => mret (NotFound None)
     end)
    (λ e, mret (NotFound (Some (exn_str e)))).

Definition module_params (plugin_id : Id) (now : timestamp) (module : ModuleData)
  : ModuleParams :=
  {| mp_plugin_id := plugin_id;
     mp_name := md_name module;
     mp_display_name := md_display_name module;
     mp_description := md_description module;
     mp_icon := md_icon module;
     mp_category := md_category module;
     mp_priority := md_priority module;
     mp_props := json_dumps (md_props module);
     mp_config_fields := json_dumps (md_config_fields module);
     mp_messages := json_dumps (md_messages module);
     mp_required_services := json_dumps (md_required_services module);
     mp_dependencies := json_dumps (md_dependencies module);
     mp_layout := json_dumps (md_layout module);
     mp_tags := json_dumps (md_tags module);
     mp_created_at := now;
     mp_updated_at := now |}.

(** The loop [for module in module_data] of [_create_database_records]. *)
Fixpoint insert_modules (plugin_id : Id) (now : timestamp)
    (module_data : list ModuleData) (modules_created : list ModuleCreated)
  : M (list ModuleCreated) :=
  match module_data with
  | [] => mret modules_created
  | module :: rest =>
      module_result ← execute (InsertModule (module_params plugin_id now module));
      module_id ← fetchone_0 module_result;
      insert_modules plugin_id now rest
        (modules_created ++
           [{| mc_id := module_id;
               mc_name := md_name module;
               mc_display_name := md_display_name module |}])
  end.

Definition plugin_params (user_id : string) (now : timestamp) (plugin_data : PluginData)
  : PluginParams :=
  {| pp_user_id := user_id;
     pp_data := plugin_data;
     pp_permissions :=
       json_dumps (JArray (List.map JString (pd_permissions plugin_data)));
     pp_enabled := true;
     pp_created_at := now;
     pp_updated_at := now |}.

Definition _create_database_records (self : Manager) (user_id : string)
  : M (Result Created) :=
  try_except
    (let plugin_data := plugin_data self in
     let module_data := module_data self in
     now ← datetime_datetime_now;
     result ← execute (InsertPlugin (plugin_params user_id now plugin_data));
     plugin_id ← fetchone_0 result;
     modules_created ← insert_modules plugin_id now module_data [];
     commit;;
     mret (Success {| created_plugin_id := plugin_id;
                      created_modules := modules_created |}))
    (λ e, rollback;; mret (Failure (exn_str e))).

Definition _delete_database_records (self : Manager) (user_id : string) (plugin_id : Id)
  : M (Result (list ModuleDeleted)) :=
  try_except
    (modules_result ← execute (SelectModules plugin_id);
     let modules_to_delete :=
       List.map (λ row, {| del_id := module_id_of row;
                           del_name := mp_name (module_cols row) |})
                (fetchall modules_result) in
     execute (DeleteModules plugin_id);;
     execute (DeletePlugin plugin_id user_id);;
     commit;;
     mret (Success modules_to_delete))
    (λ e, rollback;; mret (Failure (exn_str e))).

(** ** Installation and removal for one user *)

Definition _perform_user_installation (self : Manager) (user_id : string)
    (shared_plugin_path : path) : M (Result Installed) :=
  try_except
    (db_result ← _create_database_records self user_id;
     match db_result with
     | Failure error => mret (Failure error)
     | Success created =>
         mret (Success
                 {| inst_plugin_id := created_plugin_id created;
                    inst_plugin_slug := pd_plugin_slug (plugin_data self);
                    inst_plugin_name := pd_name (plugin_data self);
                    inst_modules_created := created_modules created |})
     end)
    (λ e, mret (Failure (exn_str e))).

Definition _perform_user_uninstallation (self : Manager) (user_id : string)
  : M (Result Uninstalled) :=
  try_except
    (existing_check ← _check_existing_plugin self user_id;
     match existing_check with
     | NotFound _ => mret (Failure "Plugin not found for user")
     | Found plugin_id _ =>
         delete_result ← _delete_database_records self user_id plugin_id;
         match delete_result with
         | Failure error => mret (Failure error)
         | Success deleted_modules =>
             mret (Success {| uninst_plugin_id := plugin_id;
                              uninst_deleted_modules := deleted_modules |})
         end
     end)
    (λ e, mret (Failure (exn_str e))).

(** The two methods of the minimal [BaseLifecycleManager]: the code
    that runs where [imported_base] is [MinimalBase].  The manager is
    mutated in place; here the updated manager is returned with the
    result. *)
Definition install_for_user (self : Manager) (user_id : string)
    (shared_plugin_path : path) : M (Result Installed * Manager) :=
  if bool_decide (user_id ∈ active_users self) then
    mret (Failure "Plugin already installed for user", self)
  else
    result ← _perform_user_installation self user_id shared_plugin_path;
    if success result then
      now ← datetime_now;
      mret (result, set_active ({[user_id]} ∪ active_users self) now self)
    else mret (result, self).

Definition uninstall_for_user (self : Manager) (user_id : string)
  : M (Result Uninstalled * Manager) :=
  if bool_decide (user_id ∉ active_users self) then
    mret (Failure "Plugin not installed for user", self)
  else
    result ← _perform_user_uninstallation self user_id;
    if success result then
      now ← datetime_now;
      mret (result, set_active (active_users self ∖ {[user_id]}) now self)
    else mret (result, self).

(** ** The BrainDriveChat manager *)

Definition PLUGIN_DATA : PluginData :=
  {| pd_name := "BrainDriveChat";
     pd_description :=
       "Comprehensive AI chat interface with model selection and conversation history";
     pd_version := "1.0.0";
     pd_type := "frontend";
     pd_icon := "MessageSquare";
     pd_category := "ai";
     pd_official := true;
     pd_author := "BrainDrive";
     pd_compatibility := "1.0.0";
     pd_scope := "BrainDriveChat";
     pd_bundle_method := "webpack";
     pd_bundle_location := "dist/remoteEntry.js";
     pd_is_local := false;
     pd_long_description :=
       "A unified AI chat interface that combines AI prompt chat, model selection, and conversation history management in a single, responsive plugin with light/dark theme support.";
     pd_plugin_slug := "BrainDriveChat";
     pd_source_type := "local";
     pd_source_url := "local://BrainDriveChat";
     pd_update_check_url := None;
     pd_last_update_check := None;
     pd_update_available := false;
     pd_latest_version := None;
     pd_installation_type := "local";
     pd_permissions := ["storage.read"; "storage.write"; "api.access"] |}.

Definition config_field (type description : string) (default : json) : json :=
  JObject [("type", JString type); ("description", JString description);
           ("default", default)].

Definition service (methods : list string) : json :=
  JObject [("methods", JArray (List.map JString methods));
           ("version", JString "1.0.0")].

Definition MODULE_DATA : list ModuleData :=
  [{| md_name := "BrainDriveChat";
      md_display_name := "AI Chat Interface";
      md_description :=
        "Complete AI chat interface with model selection and conversation history";
      md_icon := "MessageSquare";
      md_category := "ai";
      md_priority := 1;
      md_props :=
        JObject
          [("initialGreeting",
            JString "Hello! I'm your AI assistant. How can I help you today?");
           ("defaultStreamingMode", JBool true);
           ("promptQuestion", JString "What would you like to know?")];
      md_config_fields :=
        JObject
          [("initial_greeting",
            config_field "text" "Initial greeting message from AI"
              (JString "Hello! I'm your AI assistant. How can I help you today?"));
           ("enable_streaming",
            config_field "boolean" "Enable streaming responses by default"
              (JBool true));
           ("max_conversation_history",
            config_field "number"
              "Maximum number of conversations to show in history" (JNumber "50"));
           ("auto_save_conversations",
            config_field "boolean" "Automatically save conversations" (JBool true));
           ("show_model_selection",
            config_field "boolean" "Show model selection dropdown" (JBool true));
           ("show_conversation_history",
            config_field "boolean" "Show conversation history panel" (JBool true))];
      md_messages := JObject [];
      md_required_services :=
        JObject
          [("api", service ["get"; "post"; "put"; "delete"]);
           ("event", service ["sendMessage"; "subscribeToMessages"]);
           ("theme", service ["getCurrentTheme"; "addThemeChangeListener"]);
           ("settings", service ["get"; "set"])];
      md_dependencies := JArray [];
      md_layout :=
        JObject [("minWidth", JNumber "6"); ("minHeight", JNumber "6");
                 ("defaultWidth", JNumber "8"); ("defaultHeight", JNumber "8")];
      md_tags :=
        JArray (List.map JString
                  ["ai"; "chat"; "conversation"; "assistant"; "model-selection";
                   "history"]) |}].

(** [BrainDriveChatLifecycleManager(plugins_base_dir)], with the
    [__init__] of the minimal base class.  Without a base directory the
    shared path is given relative to the source directory. *)
Definition BrainDriveChatLifecycleManager (plugins_base_dir : option string)
  : M Manager :=
  let plugin_data := PLUGIN_DATA in
  let module_data := MODULE_DATA in
  let tail_ :=
    ["shared"; pd_plugin_slug plugin_data; "v" +:+ pd_version plugin_data] in
  let shared_path :=
    match plugins_base_dir with
    | Some (String c d) => (Py.parts (String c d) ++ tail_)%list
    | _ => ([".."; ".."; "backend"; "plugins"] ++ tail_)%list
    end in
  now ← datetime_now;
  mret {| plugin_slug := pd_plugin_slug plugin_data;
          version := pd_version plugin_data;
          shared_path := shared_path;
          active_users := ∅;
          instance_id :=
            pd_plugin_slug plugin_data +:+ "_" +:+ pd_version plugin_data;
          created_at := now;
          last_used := now;
          plugin_data := plugin_data;
          module_data := module_data |}.

(** ** Compatibility functions for the remote installer *)

Definition install_plugin (user_id : string) (plugins_base_dir : option string)
  : M (Result Installed) :=
  manager ← BrainDriveChatLifecycleManager plugins_base_dir;
  r ← install_for_user manager user_id (shared_path manager);
  mret (fst r).

Definition delete_plugin (user_id : string) (plugins_base_dir : option string)
  : M (Result Uninstalled) :=
  manager ← BrainDriveChatLifecycleManager plugins_base_dir;
  r ← uninstall_for_user manager user_id;
  mret (fst r).

Definition get_plugin_status (user_id : string) (plugins_base_dir : option string)
  : M Existing :=
  manager ← BrainDriveChatLifecycleManager plugins_base_dir;
  _check_existing_plugin manager user_id.

(** ** Paths and file-system calls *)

(** [Path.name]: the last component. *)
Definition name (p : path) : string := List.last p "".

(** [Path.parent]. *)
Definition parent (p : path) : path := removelast p.

(** [str(path)] for a relative path. *)
Definition path_str (p : path) : string := Py.join "/" p.

(** [base / s]. *)
Definition joinpath (base : path) (s : string) : path := (base ++ Py.parts s)%list.

Fixpoint strict_prefixb (dir p : path) : bool :=
  match dir, p with
  | [], _ :: _ => true
  | d :: dir', c :: p' => String.eqb d c && strict_prefixb dir' p'
  | _, _ => false
  end.

Definition lookup_node (p : path) : M (option node) :=
  λ w, (Returned (fs (files w) !! p), w).

(** [p.exists()]. *)
Definition path_exists (p : path) : M bool :=
  n ← lookup_node p; mret (bool_decide (is_Some n)).

(** [p.is_dir()]. *)
Definition is_dir (p : path) : M bool :=
  n ← lookup_node p;
  mret (match n with Some (Dir _) => true | _ => false end).

(** [p.exists() and p.is_dir()]. *)
Definition exists_and_is_dir (p : path) : M bool :=
  present ← path_exists p;
  if present : bool then is_dir p else mret false.

(** [p.stat().st_size]. *)
Definition stat_size (p : path) : M N :=
  n ← lookup_node p;
  match n with
  | Some (File f) => mret (st_size f)
  | Some (Dir size) => mret size
  | None => raise (Exn FileNotFoundError "No such file or directory")
  end.

(** [with open(p, 'r') as f: json.load(f)]. *)
Definition load_json (p : path) : M json :=
  n ← lookup_node p;
  match n with
  | Some (File f) =>
      match json_load f with
      | Loads v => mret v
      | DecodeFails msg => raise (Exn JSONDecodeError msg)
      | ReadFails msg => raise (Exn OSError msg)
      end
  | Some (Dir _) => raise (Exn OSError "Is a directory")
  | None => raise (Exn FileNotFoundError "No such file or directory")
  end.

(** [dir.rglob('*infix*')]: the paths below [dir] whose name contains
    [infix]. *)
Definition rglob (dir : path) (infix : string) : M (list path) :=
  λ w,
  (Returned
     (List.filter (λ p, strict_prefixb dir p && Py.contains infix (name p))
        (List.map fst (map_to_list (fs (files w))))),
   w).

(** The operating system may refuse to create, replace or remove [p]. *)
Definition os_check (p : path) : M unit :=
  λ w,
  match os_error (files w) p with
  | Some msg => (Raised (Exn OSError msg), w)
  | None => (Returned tt, w)
  end.

Definition write_node (p : path) (n : node) : M unit :=
  λ w, (Returned tt, with_fs (<[p := n]> (fs (files w))) w).

Definition remove_node (p : path) : M unit :=
  λ w, (Returned tt, with_fs (delete p (fs (files w))) w).

(** [p.mkdir(parents=True, exist_ok=True)], walking down from [base]:
    every component that is missing is created, one that is a file makes
    the call raise. *)
Fixpoint mkdir_from (base : path) (rest : list string) : M unit :=
  n ← lookup_node base;
  match n with
  | Some (Dir _) => mret tt
  | Some (File _) => raise (Exn OSError "File exists")
  | None => os_check base;; write_node base (Dir 0)
  end;;
  match rest with
  | [] => mret tt
  | c :: rest' => mkdir_from (base ++ [c])%list rest'
  end.

Definition mkdir_parents (p : path) : M unit := mkdir_from [] p.

(** [p.unlink()]. *)
Definition unlink (p : path) : M unit :=
  n ← lookup_node p;
  match n with
  | Some (File _) => os_check p;; remove_node p
  | Some (Dir _) => raise (Exn OSError "Is a directory")
  | None => raise (Exn FileNotFoundError "No such file or directory")
  end.

(** [shutil.copy2(src, dst)] for a source file called [src_name] with
    contents [f]: into [dst] when [dst] is a directory, onto [dst]
    otherwise.  It is called once the parent of [dst] has been made. *)
Definition copy2 (src_name : string) (f : file) (dst : path) : M unit :=
  n ← lookup_node dst;
  let dst' := match n with Some (Dir _) => (dst ++ [src_name])%list | _ => dst end in
  n' ← lookup_node dst';
  match n' with
  | Some (Dir _) => raise (Exn OSError "Is a directory")
  | _ => os_check dst';; write_node dst' (File f)
  end.

(** ** File synchronizer *)

Definition exclude_patterns : list string :=
  ["node_modules"; "package-lock.json"; ".git"; ".gitignore"; "__pycache__";
   "*.pyc"; ".DS_Store"; "Thumbs.db"].

(** The two loops return [False] at the first match, so the order in
    which the set is walked does not matter. *)
Definition should_copy (p : path) : bool :=
  if existsb (λ part, Py.mem part exclude_patterns) p then false
  else if existsb
            (λ pattern,
               Py.has_char "*" pattern
               && Py.endswith (name p) (Py.remove_char "*" pattern))
            exclude_patterns
  then false
  else true.

Definition path_eqb (p q : path) : bool := bool_decide (p = q).

(** [if update and target_path.exists(): target_path.unlink()]. *)
Definition unlink_on_update (update : bool) (target_path : path) : M unit :=
  if update then
    present ← path_exists target_path;
    if present : bool then unlink target_path else mret tt
  else mret tt.

(** The [try] block of the loop for one item, with its [except] clause:
    a failure is logged and the loop goes on to the next item. *)
Definition copy_item (target_dir : path) (update : bool)
    (relative_path : path) (item : node) (copied_files : list string)
  : M (list string) :=
  let target_path := (target_dir ++ relative_path)%list in
  try_except
    (match item with
     | File f =>
         mkdir_parents (parent target_path);;
         unlink_on_update update target_path;;
         copy2 (name relative_path) f target_path;;
         mret (copied_files ++ [path_str relative_path])%list
     | Dir _ =>
         mkdir_parents target_path;;
         mret copied_files
     end)
    (λ e, mret copied_files).

(** The loop [for item in source_dir.rglob('*')].  An item is given by
    its path relative to the source directory; the running file
    [Path(__file__)] is [lifecycle_manager.py] of that directory. *)
Fixpoint copy_items (target_dir : path) (update : bool)
    (items : list (path * node)) (copied_files : list string)
  : M (list string) :=
  match items with
  | [] => mret copied_files
  | (relative_path, item) :: rest =>
      if String.eqb (name relative_path) "lifecycle_manager.py"
         && path_eqb relative_path ["lifecycle_manager.py"]
      then copy_items target_dir update rest copied_files
      else if negb (should_copy relative_path)
      then copy_items target_dir update rest copied_files
      else
        copied_files' ← copy_item target_dir update relative_path item copied_files;
        copy_items target_dir update rest copied_files'
  end.

(** [source_dir / 'lifecycle_manager.py'] in the source tree. *)
Definition lifecycle_manager_source (w : World) : option node :=
  snd <$> List.find (λ entry, path_eqb (fst entry) ["lifecycle_manager.py"])
            (source_files (files w)).

(** The block after the loop: [lifecycle_manager.py] itself is copied. *)
Definition copy_lifecycle_manager (target_dir : path) (update : bool)
    (copied_files : list string) : M (list string) :=
  w ← get_world;
  let lifecycle_manager_target := (target_dir ++ ["lifecycle_manager.py"])%list in
  match lifecycle_manager_source w with
  | Some source =>
      mkdir_parents (parent lifecycle_manager_target);;
      unlink_on_update update lifecycle_manager_target;;
      match source with
      | File f => copy2 "lifecycle_manager.py" f lifecycle_manager_target
      | Dir _ => raise (Exn OSError "Is a directory")
      end;;
      mret (copied_files ++ ["lifecycle_manager.py"])%list
  | None => mret copied_files
  end.

(** The traversal ends with the error it met, if any. *)
Definition end_of_scan : M unit :=
  w ← get_world;
  match source_scan_error (files w) with
  | Some msg => raise (Exn OSError msg)
  | None => mret tt
  end.

Definition _copy_plugin_files_impl (self : Manager) (user_id : string)
    (target_dir : path) (update : bool) : M (Result (list string)) :=
  try_except
    (w ← get_world;
     copied_files ← copy_items target_dir update (source_files (files w)) [];
     end_of_scan;;
     copied_files ← copy_lifecycle_manager target_dir update copied_files;
     mret (Success copied_files))
    (λ e, mret (Failure (exn_str e))).

(** ** Installation validator *)

(** [{'valid': ..., 'error': ...}]; the key [error] is absent when
    [valid] is true. *)
Record Validation : Type := {
  valid : bool;
  error : option string
}.

Definition invalid (msg : string) : Validation :=
  {| valid := false; error := Some msg |}.

(** [field in package_data] for what [json.load] may return: a key of a
    dict, an element of a list, a substring of a str; any other value is
    not iterable. *)
Definition py_in (field : string) (package_data : json) : M bool :=
  match package_data with
  | JObject members => mret (Py.mem field (List.map fst members))
  | JArray items =>
      mret (existsb (λ item, match item with
                             | JString s => String.eqb s field
                             | _ => false
                             end) items)
  | JString s => mret (Py.contains field s)
  | JNull => raise (Exn TypeError "argument of type 'NoneType' is not iterable")
  | JBool _ => raise (Exn TypeError "argument of type 'bool' is not iterable")
  | JNumber _ => raise (Exn TypeError "argument of type 'int' is not iterable")
  end.

(** The loop over [required_files]. *)
Fixpoint find_missing (plugin_dir : path) (required_files missing_files : list string)
  : M (list string) :=
  match required_files with
  | [] => mret missing_files
  | file_path :: rest =>
      present ← path_exists (joinpath plugin_dir file_path);
      find_missing plugin_dir rest
        (if present : bool then missing_files
         else (missing_files ++ [file_path])%list)
  end.

(** The loop over [required_fields]; [Some v] is an early [return v]. *)
Fixpoint check_fields (required_fields : list string) (package_data : json)
  : M (option Validation) :=
  match required_fields with
  | [] => mret None
  | field :: rest =>
      present ← py_in field package_data;
      if present : bool then check_fields rest package_data
      else mret (Some (invalid
             ("BrainDriveChat: package.json missing required field: " +:+ field)))
  end.

(** [# Validate package.json structure]: the inner [try] block, which
    catches a [JSONDecodeError] and a [FileNotFoundError] only; [Some v]
    is a [return v] from inside the block. *)
Definition validate_package_json (package_json_path : path)
  : M (option Validation) :=
  try_except
    (package_data ← load_json package_json_path;
     let required_fields := ["name"; "version"] in
     check_fields required_fields package_data)
    (λ e,
       match exn_class_of e with
       | JSONDecodeError | FileNotFoundError =>
           mret (Some (invalid
             ("BrainDriveChat: Invalid or missing package.json: " +:+ exn_str e)))
       | _ => raise e
       end).

Definition _validate_installation_impl (self : Manager) (user_id : string)
    (plugin_dir : path) : M Validation :=
  try_except
    (let required_files := ["package.json"; "dist/remoteEntry.js"] in
     missing_files ← find_missing plugin_dir required_files [];
     match missing_files with
     | _ :: _ =>
         mret (invalid ("BrainDriveChat: Missing required files: "
                        +:+ Py.join ", " missing_files))
     | [] =>
         let package_json_path := joinpath plugin_dir "package.json" in
         returned ← validate_package_json package_json_path;
         match returned with
         | Some v => mret v
         | None =>
             let bundle_path := joinpath (joinpath plugin_dir "dist") "remoteEntry.js" in
             size ← stat_size bundle_path;
             if (size =? 0)%N then
               mret (invalid "BrainDriveChat: Bundle file (remoteEntry.js) is empty")
             else mret {| valid := true; error := None |}
         end
     end)
    (λ e, mret (invalid (exn_str e))).

(** ** Health inspector *)

Record HealthInfo : Type := {
  bundle_exists : bool;
  bundle_size : N;
  package_json_valid : bool;
  assets_present : bool;
  chat_components_present : bool
}.

(** The value under ['details']: the five fields, or [{'error': ...}]. *)
Inductive HealthDetails : Type :=
| Info (health_info : HealthInfo)
| HealthError (msg : string).

Record Health : Type := {
  healthy : bool;
  details : HealthDetails
}.

(** [# Check bundle file]: the fields [bundle_exists] and [bundle_size]. *)
Definition check_bundle (bundle_path : path) : M (bool * N) :=
  present ← path_exists bundle_path;
  if present : bool then
    size ← stat_size bundle_path;
    mret (true, size)
  else mret (false, 0%N).

(** [# Check package.json]: the field [package_json_valid]. *)
Definition check_package_json (package_json_path : path) : M bool :=
  present ← path_exists package_json_path;
  if present : bool then
    try_except
      (load_json package_json_path;; mret true)
      (λ e, match exn_class_of e with
            | JSONDecodeError => mret false
            | _ => raise e
            end)
  else mret false.

(** [# Check for chat-specific components]: the field
    [chat_components_present]. *)
Definition check_components (src_path : path) : M bool :=
  src_dir ← exists_and_is_dir src_path;
  if src_dir : bool then
    chat ← rglob src_path "Chat";
    model ← rglob src_path "Model";
    history ← rglob src_path "History";
    mret (match (chat ++ model ++ history)%list with
          | [] => false
          | _ :: _ => true
          end)
  else mret false.

Definition _get_plugin_health_impl (self : Manager) (user_id : string)
    (plugin_dir : path) : M Health :=
  try_except
    (let bundle_path := joinpath (joinpath plugin_dir "dist") "remoteEntry.js" in
     bundle ← check_bundle bundle_path;
     let package_json_path := joinpath plugin_dir "package.json" in
     package_json_valid ← check_package_json package_json_path;
     let assets_path := joinpath plugin_dir "assets" in
     assets_present ← exists_and_is_dir assets_path;
     let src_path := joinpath plugin_dir "src" in
     chat_components_present ← check_components src_path;
     let health_info :=
       {| bundle_exists := fst bundle;
          bundle_size := snd bundle;
          package_json_valid := package_json_valid;
          assets_present := assets_present;
          chat_components_present := chat_components_present |} in
     let is_healthy :=
       bundle_exists health_info
       && (0 <? bundle_size health_info)%N
       && package_json_valid in
     mret {| healthy := is_healthy; details := Info health_info |})
    (λ e, mret {| healthy := false; details := HealthError (exn_str e) |}).
(** * Specification vocabulary *)

(** ** Scripts and calls *)

(** The first failure a script holds in store. *)
Fixpoint first_fault (fates : list (option string)) : option string :=
  match fates with
  | [] => None
  | Some msg :: _ => Some msg
  | None :: rest => first_fault rest
  end.

(** The number of calls that go through before the first failure. *)
Fixpoint fault_index (fates : list (option string)) : nat :=
  match fates with
  | None :: rest => S (fault_index rest)
  | _ => 0
  end.

(** The fate of the call after [n] others. *)
Definition fate_at (n : nat) (fates : list (option string)) : option string :=
  match drop n fates with o :: _ => o | [] => None end.

(** The calls a run adds to the session's record. *)
Definition new_calls {A : Type} (m : M A) (w : World) : list db_call :=
  drop (length (calls (db w))) (calls (db (snd (m w)))).

Definition is_insert_plugin (c : db_call) : bool :=
  match c with Execute (InsertPlugin _) => true | _ => false end.

Definition is_insert_module (c : db_call) : bool :=
  match c with Execute (InsertModule _) => true | _ => false end.

Definition deletes_modules_of (plugin_id : Id) (c : db_call) : bool :=
  match c with Execute (DeleteModules p) => Nat.eqb p plugin_id | _ => false end.

Definition is_delete_plugin (c : db_call) : bool :=
  match c with Execute (DeletePlugin _ _) => true | _ => false end.

(** A call that can change a table or end a transaction. *)
Definition mutating (c : db_call) : bool :=
  match c with
  | Execute CountPlugins | Execute (SelectPlugin _ _) | Execute (SelectModules _) => false
  | _ => true
  end.

(** In [tr], every call of kind [later] has a call of kind [earlier]
    before it and none after it. *)
Definition precedes (earlier later : db_call → bool) (tr : list db_call) : Prop :=
  ∀ i c, tr !! i = Some c → later c = true →
    (∃ j c', j < i ∧ tr !! j = Some c' ∧ earlier c' = true)
    ∧ (∀ j c', i < j → tr !! j = Some c' → earlier c' = false).

(** Everything in the world but the script and the record of calls. *)
Definition same_state (w w' : World) : Prop :=
  committed (db w') = committed (db w)
  ∧ session (db w') = session (db w)
  ∧ plugin_seq (db w') = plugin_seq (db w)
  ∧ module_seq (db w') = module_seq (db w)
  ∧ clock w' = clock w
  ∧ files w' = files w.

(** [str(e)] of the [AttributeError] of line 552. *)
Definition no_datetime_attribute : string :=
  "type object 'datetime.datetime' has no attribute 'datetime'".

(** ** Records *)

(** The rows of [plugin] that belong to a user and a slug. *)
Definition records_of (user_id plugin_slug : string) (t : Tables) : list PluginRow :=
  List.filter (plugin_matches user_id plugin_slug) (plugin t).

(** The rows and the report expected from inserting [module_data] for
    plugin [plugin_id], the first generated identifier being [first]. *)
Fixpoint module_rows (plugin_id : Id) (now : timestamp) (first : Id)
    (module_data : list ModuleData) : list ModuleRow :=
  match module_data with
  | [] => []
  | module :: rest =>
      {| module_id_of := first;
         module_cols := module_params plugin_id now module |}
      :: module_rows plugin_id now (S first) rest
  end.

Fixpoint modules_report (first : Id) (module_data : list ModuleData)
  : list ModuleCreated :=
  match module_data with
  | [] => []
  | module :: rest =>
      {| mc_id := first; mc_name := md_name module;
         mc_display_name := md_display_name module |}
      :: modules_report (S first) rest
  end.

Definition module_inserts (plugin_id : Id) (now : timestamp)
    (module_data : list ModuleData) : list db_call :=
  List.map (λ module, Execute (InsertModule (module_params plugin_id now module)))
    module_data.

(** The calls of a deletion that goes through, and its report. *)
Definition delete_calls (plugin_id : Id) (user_id : string) : list db_call :=
  [Execute (SelectModules plugin_id); Execute (DeleteModules plugin_id);
   Execute (DeletePlugin plugin_id user_id); Commit].

Definition deleted_report (plugin_id : Id) (t : Tables) : list ModuleDeleted :=
  List.map (λ row, {| del_id := module_id_of row;
                      del_name := mp_name (module_cols row) |})
    (List.filter (module_of plugin_id) (module t)).

(** The calls of a lookup that goes through, and what it reports on
    tables [t]. *)
Definition lookup_calls (user_id plugin_slug : string) : list db_call :=
  [Execute CountPlugins; Execute (SelectPlugin user_id plugin_slug)].

Definition lookup_report (user_id plugin_slug : string) (t : Tables) : Existing :=
  match records_of user_id plugin_slug t with
  | plugin_row :: _ => Found (plugin_id_of plugin_row) (plugin_info_of plugin_row)
  | [] => NotFound None
  end.

(** ** Files *)

(** The two files the validator and the inspector look at. *)
Definition package_json_of (plugin_dir : path) : path :=
  plugin_dir ++ ["package.json"].

Definition bundle_of (plugin_dir : path) : path :=
  plugin_dir ++ ["dist"; "remoteEntry.js"].

Definition node_size (n : node) : N :=
  match n with File f => st_size f | Dir size => size end.

(** [p] is a file whose text is JSON. *)
Definition parses (w : World) (p : path) : Prop :=
  ∃ f v, fs (files w) !! p = Some (File f) ∧ json_load f = Loads v.

(** [p] is there and reading it fails before any parsing: it is a
    directory, or a file the process cannot read or decode. *)
Definition unreadable (w : World) (p : path) : Prop :=
  (∃ size, fs (files w) !! p = Some (Dir size))
  ∨ (∃ f msg, fs (files w) !! p = Some (File f) ∧ json_load f = ReadFails msg).

Definition is_directory (w : World) (p : path) : Prop :=
  ∃ size, fs (files w) !! p = Some (Dir size).

Definition is_dir_at (w : World) (p : path) : bool :=
  match fs (files w) !! p with Some (Dir _) => true | _ => false end.

Definition exists_at (w : World) (p : path) : bool :=
  bool_decide (is_Some (fs (files w) !! p)).

(** A name one of the three component patterns matches. *)
Definition component_name (s : string) : bool :=
  Py.contains "Chat" s || Py.contains "Model" s || Py.contains "History" s.

Definition has_component (w : World) (dir : path) : Prop :=
  ∃ p, strict_prefixb dir p = true ∧ is_Some (fs (files w) !! p)
       ∧ component_name (name p) = true.

(** A relative path the synchronizer must leave out: one of its
    components is in the exclusion set, or its name has an excluded
    suffix. *)
Definition excluded (p : path) : Prop :=
  (∃ part, part ∈ p ∧ part ∈ exclude_patterns)
  ∨ Py.endswith (name p) ".pyc" = true.

(** A manifest with the field [field]: a JSON object that has the key. *)
Definition has_field (field : string) (v : json) : Prop :=
  ∃ members, v = JObject members ∧ field ∈ List.map fst members.

(** A value [in] can search: a dict, a list or a str. *)
Definition searchable (v : json) : Prop :=
  match v with JNull | JBool _ | JNumber _ => False | _ => True end.

(** What [field in v] evaluates to when [v] is a dict, a list or a str. *)
Definition py_contains (field : string) (v : json) : bool :=
  match v with
  | JObject members => Py.mem field (List.map fst members)
  | JArray items =>
      existsb (λ item, match item with
                       | JString s => String.eqb s field
                       | _ => false
                       end) items
  | JString s => Py.contains field s
  | _ => false
  end.

(** The manifest is what the validator asks for: a file that loads to
    a value in which [in] finds both names. *)
Definition manifest_passes (w : World) (p : path) : Prop :=
  ∃ f j, fs (files w) !! p = Some (File f)
         ∧ json_load f = Loads j
         ∧ py_contains "name" j = true
         ∧ py_contains "version" j = true.

(** Everything in the world but the written files. *)
Definition same_but_fs (w w' : World) : Prop :=
  db w' = db w
  ∧ clock w' = clock w
  ∧ source_files (files w') = source_files (files w)
  ∧ source_scan_error (files w') = source_scan_error (files w)
  ∧ os_error (files w') = os_error (files w).

(** A computation that changes nothing but the written files. *)
Definition writes_files_only {A : Type} (m : M A) : Prop :=
  ∀ w, same_but_fs w (snd (m w)).

(** The entry of the copied-files list for the installer's own file. *)
Definition own_file : string := "lifecycle_manager.py".

(** The installer's own file, met by the loop. *)
Definition is_own (p : path) : bool :=
  String.eqb (name p) "lifecycle_manager.py"
  && path_eqb p ["lifecycle_manager.py"].


(** [p] is not a directory among the written files. *)
Definition not_dir (p : path) (w : World) : Prop :=
  ∀ size, fs (files w) !! p ≠ Some (Dir size).

(** A computation that keeps a property of the world, however it ends. *)
Definition keeps {A : Type} (I : World → Prop) (m : M A) : Prop :=
  ∀ w, I w → I (snd (m w)).


(** ** Further vocabulary *)

(** The identifier [id] is not in use: no plugin row carries it and no
    module row refers to it. *)
Definition unused_plugin_id (id : Id) (t : Tables) : Prop :=
  Forall (λ r, plugin_id_of r ≠ id) (plugin t)
  ∧ Forall (λ r, mp_plugin_id (module_cols r) ≠ id) (module t).

(** The calls of an uninstallation that goes through. *)
Definition uninstall_calls (user_id plugin_slug : string) (plugin_id : Id)
  : list db_call :=
  lookup_calls user_id plugin_slug ++ delete_calls plugin_id user_id.

(** The files and the clock are those of [w0]. *)
Definition outside_db (w0 w : World) : Prop :=
  files w = files w0 ∧ clock w = clock w0.

(** A computation that writes and removes nothing outside the paths
    [touched]. *)
Definition touches_only {A : Type} (touched : path → Prop) (m : M A) : Prop :=
  ∀ w q, ¬ touched q → fs (files (snd (m w))) !! q = fs (files w) !! q.

(** The paths on the line of [target_dir]: the directory, what is below
    it and its ancestors. *)
Definition around (target_dir q : path) : Prop :=
  q `prefix_of` target_dir ∨ target_dir `prefix_of` q.


Definition prefixb (p q : path) : bool := bool_decide (p `prefix_of` q).

(** The traversal lists a tree: every entry is below the source
    directory, no path is listed twice and nothing is listed below a
    file. *)
Definition lists_a_tree (items : list (path * node)) : bool :=
  forallb (λ entry, negb (path_eqb (fst entry) [])) items
  && bool_decide (NoDup items.*1)
  && forallb
       (λ entry,
          match snd entry with
          | File _ =>
              forallb (λ other, implb (prefixb (fst entry) (fst other))
                                  (path_eqb (fst other) (fst entry))) items
          | Dir _ => true
          end) items.

(** The target has no directory where a file of the tree goes. *)
Definition no_dir_at_files (target_dir : path) (items : list (path * node))
    (w : World) : Prop :=
  ∀ p f, (p, File f) ∈ items → not_dir (target_dir ++ p) w.

(** A file of the target lies on the way to an entry of the tree only
    where the entry is itself a file. *)
Definition no_file_on_way (target_dir : path) (items : list (path * node))
    (w : World) : Prop :=
  ∀ q n b f, (q, n) ∈ items → b `prefix_of` target_dir ++ q →
    fs (files w) !! b = Some (File f) →
    b = target_dir ++ q ∧ ∃ f', n = File f'.

(** The files of the tree the loop is to copy, in the order of the
    traversal. *)
Definition copyable (items : list (path * node)) : list path :=
  (List.filter (λ entry, match snd entry with
                         | File _ => negb (is_own (fst entry))
                                     && should_copy (fst entry)
                         | Dir _ => false
                         end) items).*1.

(** The operating system refuses nothing. *)
Definition os_allows (w : World) : Prop := ∀ q, os_error (files w) q = None.

(** [p] is not a file among the written files. *)
Definition not_file (p : path) (w : World) : Prop :=
  ∀ f, fs (files w) !! p ≠ Some (File f).

(** The state of the target in which every copy of the tree goes
    through: the operating system refuses nothing, no directory lies
    where a file goes and no file lies on the way to an entry. *)
Definition unhindered (target_dir : path) (items : list (path * node))
    (w : World) : Prop :=
  os_allows w
  ∧ no_dir_at_files target_dir items w
  ∧ no_file_on_way target_dir items w.

(** The operating system refuses nothing but the writing of files of the
    tree in their place in the target. *)
Definition refuses_files_only (target_dir : path) (items : list (path * node))
    (w : World) : Prop :=
  ∀ b msg, os_error (files w) b = Some msg →
    ∃ p f, (p, File f) ∈ items ∧ b = target_dir ++ p.

(** The operating system lets the entry [p] be written in the target. *)
Definition allowed (w : World) (target_dir p : path) : bool :=
  match os_error (files w) (target_dir ++ p) with
  | None => true
  | Some _ => false
  end.

(** The state of the target in which every copy goes through but
    those of the files the operating system refuses. *)
Definition passable (target_dir : path) (items : list (path * node))
    (w : World) : Prop :=
  refuses_files_only target_dir items w
  ∧ no_dir_at_files target_dir items w
  ∧ no_file_on_way target_dir items w.

(** The paths the copy of the entry [p] can write or remove: those on
    the way to its place in the target, and the place [copy2] takes
    inside a directory that lies there. *)
Definition written_for (target_dir p b : path) : Prop :=
  b `prefix_of` target_dir ++ p ∨ b = target_dir ++ p ++ [name p].

(** The names of a listing, as a file system has them: every path has
    a component and no component holds a slash. *)
Definition plain_names (items : list (path * node)) : Prop :=
  ∀ p n, (p, n) ∈ items →
    p ≠ [] ∧ ∀ part, part ∈ p → Py.has_char "/" part = false.

(** The operating system refuses the path [b], which holds [v]. *)
Definition refused_holding (b : path) (v : option node) (w : World) : Prop :=
  os_error (files w) b ≠ None ∧ fs (files w) !! b = v.
(** * Proof automation *)

(** Unfolds the monad's operations where they stand on concrete code. *)
Ltac mstep :=
  repeat (progress (unfold mbind, M_bind, mret, M_ret, raise; simpl)).

(** Unfolds the calls to the session. *)
Ltac db_step :=
  mstep; unfold execute, commit, rollback, announce; simpl; mstep.

(** Splits on the fate of the next call and closes the cases that end
    there. *)
Ltac script_case sc :=
  destruct sc as [|[?|] sc]; simpl;
  try (rewrite <- ?app_assoc; simpl; done).

(** * Sample worlds *)

Definition no_tables : Tables := {| plugin := []; module := [] |}.

(** A database with empty tables that refuses nothing. *)
Definition quiet_db : Db :=
  {| committed := no_tables; session := no_tables;
     plugin_seq := 1; module_seq := 1;
     script := []; calls := [] |}.

Definition no_files : Files :=
  {| source_files := []; source_scan_error := None;
     fs := ∅; os_error := λ _, None |}.

(** The module on its own: the host's base class was not found. *)
Definition fresh_world : World :=
  {| db := quiet_db; clock := 1700000000%Z; files := no_files;
     imported_base := MinimalBase |}.

(** The module inside the host application. *)
Definition host_world : World := with_base HostBase fresh_world.

(** The manager as its constructor makes it, and the same manager with
    user [u1] among its active users. *)
Definition chat_manager : Manager :=
  {| plugin_slug := "BrainDriveChat";
     version := "1.0.0";
     shared_path :=
       [".."; ".."; "backend"; "plugins"; "shared"; "BrainDriveChat"; "v1.0.0"];
     active_users := ∅;
     instance_id := "BrainDriveChat_1.0.0";
     created_at := 1700000000%Z;
     last_used := 1700000000%Z;
     plugin_data := PLUGIN_DATA;
     module_data := MODULE_DATA |}.

Definition chat_manager_u1 : Manager :=
  set_active {["u1"]} 1700000000%Z chat_manager.

(** The module on its own, on a database in which the plugin was
    installed for [u1] where the host's base class is in use. *)
Definition installed_world : World :=
  with_base MinimalBase
    (snd (_perform_user_installation chat_manager "u1" [] host_world)).

(** A world whose database refuses the next call. *)
Definition failing_world : World :=
  with_db {| committed := no_tables; session := no_tables;
             plugin_seq := 1; module_seq := 1;
             script := [Some "connection lost"]; calls := [] |} fresh_world.

(** A target directory whose [package.json] holds the JSON array
    [["name", "version"]] next to a bundle of 2048 bytes. *)
Definition user_dir : path := ["plugins"; "u1"; "BrainDriveChat"].

Definition bundle_file : node :=
  File {| st_size := 2048; json_load := DecodeFails "Expecting value" |}.

Definition array_manifest : json := JArray [JString "name"; JString "version"].

Definition array_manifest_world : World :=
  with_fs
    (<[ user_dir ++ ["package.json"] :=
          File {| st_size := 19; json_load := Loads array_manifest |} ]>
     (<[ user_dir ++ ["dist"; "remoteEntry.js"] := bundle_file ]>
      (<[ user_dir ++ ["dist"] := Dir 4096 ]>
       (<[ user_dir := Dir 4096 ]> ∅))))
    fresh_world.

(** A source tree as a traversal may list it, with development
    artifacts among the plugin's files, and an empty target. *)
Definition installer_file : file :=
  {| st_size := 30000; json_load := DecodeFails "Expecting value" |}.

Definition manifest_file : file :=
  {| st_size := 300;
     json_load := Loads (JObject [("name", JString "braindrive-chat");
                                  ("version", JString "1.0.0")]) |}.

Definition sample_source : list (path * node) :=
  [(["package.json"], File manifest_file);
   (["node_modules"], Dir 4096);
   (["node_modules"; "react.js"], bundle_file);
   (["src"], Dir 4096);
   (["src"; "BrainDriveChat.tsx"], bundle_file);
   (["lifecycle_manager.py"], File installer_file);
   (["__pycache__"], Dir 4096);
   (["__pycache__"; "lifecycle_manager.cpython-311.pyc"], bundle_file);
   (["dist"], Dir 4096);
   (["dist"; "remoteEntry.js"], bundle_file)].

Definition with_source (source : list (path * node))
    (refused : path → option string) (w : World) : World :=
  {| db := db w; clock := clock w;
     files := {| source_files := source; source_scan_error := None;
                 fs := fs (files w); os_error := refused |};
     imported_base := imported_base w |}.

Definition sample_source_world : World :=
  with_source sample_source (λ _, None) fresh_world.

(** The same, with a target in which [src/BrainDriveChat.tsx] cannot be
    written. *)
Definition read_only_src_world : World :=
  with_source sample_source
    (λ p, if bool_decide (p = user_dir ++ ["src"; "BrainDriveChat.tsx"])
          then Some "Permission denied" else None)
    fresh_world.


(** The same after a second installation for [u1] in the host: the
    installation does not look for an earlier row. *)
Definition twice_installed_world : World :=
  with_base MinimalBase
    (snd (_perform_user_installation chat_manager "u1" []
            (with_base HostBase installed_world))).

(** The world [w] with a database that follows the script [fates]. *)
Definition refusing (fates : list (option string)) (w : World) : World :=
  with_db {| committed := committed (db w); session := session (db w);
             plugin_seq := plugin_seq (db w); module_seq := module_seq (db w);
             script := fates; calls := calls (db w) |} w.

(** The plugin is installed for [u1] and the database refuses the
    deletion of the plugin row. *)
Definition locked_world : World :=
  refusing [None; None; None; None; Some "database is locked"] installed_world.

(** A target directory with the manifest of the sample tree and a
    bundle of 2048 bytes. *)
Definition object_manifest_world : World :=
  with_fs
    (<[ user_dir ++ ["package.json"] := File manifest_file ]>
     (<[ user_dir ++ ["dist"; "remoteEntry.js"] := bundle_file ]>
      (<[ user_dir ++ ["dist"] := Dir 4096 ]>
       (<[ user_dir := Dir 4096 ]> ∅))))
    fresh_world.


(** A target directory in which [package.json] is a directory, next to
    a bundle of 2048 bytes. *)
Definition manifest_directory_world : World :=
  with_fs
    (<[ user_dir ++ ["package.json"] := Dir 4096 ]>
     (<[ user_dir ++ ["dist"; "remoteEntry.js"] := bundle_file ]>
      (<[ user_dir ++ ["dist"] := Dir 4096 ]>
       (<[ user_dir := Dir 4096 ]> ∅))))
    fresh_world.

(** The same target with a [package.json] whose bytes are not text the
    process can decode. *)
Definition undecodable_manifest_world : World :=
  with_fs
    (<[ user_dir ++ ["package.json"] :=
          File {| st_size := 2;
                  json_load := ReadFails "'utf-8' codec can't decode byte 0xff" |} ]>
     (<[ user_dir ++ ["dist"; "remoteEntry.js"] := bundle_file ]>
      (<[ user_dir ++ ["dist"] := Dir 4096 ]>
       (<[ user_dir := Dir 4096 ]> ∅))))
    fresh_world.
(** * Running code in the monad *)

Section Runs.

Context {A B : Type}.

Lemma bind_returned (m : M A) (k : A → M B) w a w' :
  m w = (Returned a, w') → (m ≫= k) w = k a w'.
Proof. intros H. unfold mbind, M_bind. by rewrite H. Qed.

Lemma bind_raised (m : M A) (k : A → M B) w e w' :
  m w = (Raised e, w') → (m ≫= k) w = (Raised e, w').
Proof. intros H. unfold mbind, M_bind. by rewrite H. Qed.

Lemma try_returned (m : M A) h w a w' :
  m w = (Returned a, w') → try_except m h w = (Returned a, w').
Proof. intros H. unfold try_except. by rewrite H. Qed.

Lemma try_raised (m : M A) h w e w' :
  m w = (Raised e, w') → try_except m h w = h e w'.
Proof. intros H. unfold try_except. by rewrite H. Qed.

Lemma run_eq (m : M A) w o : fst (m w) = o → m w = (o, snd (m w)).
Proof. intros <-. by destruct (m w). Qed.

Lemma new_calls_app (m : M A) w tr :
  calls (db (snd (m w))) = calls (db w) ++ tr → new_calls m w = tr.
Proof. unfold new_calls. intros ->. by rewrite drop_app_length. Qed.

End Runs.

(** * Scripts *)

Lemma first_fault_take_S n : ∀ fates,
  first_fault (take (S n) fates) =
    match first_fault (take n fates) with
    | Some msg => Some msg
    | None => fate_at n fates
    end.
Proof.
  unfold fate_at. induction n as [|n IH]; intros [|[msg|] fates]; try done.
  apply (IH fates).
Qed.

(** * Orderings of calls *)

Lemma precedes_none earlier later tr :
  Forall (λ c, later c = false) tr → precedes earlier later tr.
Proof.
  intros Hall i c Hi Hq. rewrite Forall_lookup in Hall.
  specialize (Hall i c Hi). simpl in Hall. congruence.
Qed.

Lemma precedes_split earlier later l1 c l2 :
  earlier c = true →
  Forall (λ c', later c' = false) (l1 ++ [c]) →
  Forall (λ c', earlier c' = false) l2 →
  precedes earlier later (l1 ++ c :: l2).
Proof.
  intros Hp Hq Hafter i x Hi Hx.
  assert (length l1 < i) as Hlt.
  { destruct (decide (i < length (l1 ++ [c]))) as [Hin|Hout].
    - rewrite Forall_lookup in Hq.
      rewrite (cons_middle c l1 l2), app_assoc in Hi.
      rewrite lookup_app_l in Hi by exact Hin.
      specialize (Hq i x Hi). simpl in Hq. congruence.
    - rewrite length_app in Hout. simpl in Hout. lia. }
  split.
  - exists (length l1), c. split; [exact Hlt|]. split; [|exact Hp].
    by rewrite list_lookup_middle.
  - intros j c' Hj Hc'. rewrite Forall_lookup in Hafter.
    apply (Hafter (j - S (length l1)) c').
    rewrite (cons_middle c l1 l2), app_assoc in Hc'.
    rewrite lookup_app_r in Hc' by (rewrite length_app; simpl; lia).
    rewrite length_app in Hc'. simpl in Hc'.
    by replace (j - S (length l1)) with (j - (length l1 + 1)) by lia.
Qed.

(** * The record store *)

(** ** Insertion *)

(** With no failure in store for them, the module inserts all go
    through. *)
Lemma insert_modules_quiet mods : ∀ pid now acc w,
  first_fault (take (length mods) (script (db w))) = None →
  insert_modules pid now mods acc w =
   (Returned (acc ++ modules_report (module_seq (db w)) mods),
    with_db {| committed := committed (db w);
               session := {| plugin := plugin (session (db w));
                             module := module (session (db w))
                                       ++ module_rows pid now (module_seq (db w)) mods |};
               plugin_seq := plugin_seq (db w);
               module_seq := module_seq (db w) + length mods;
               script := drop (length mods) (script (db w));
               calls := calls (db w) ++ module_inserts pid now mods |} w).
Proof.
  induction mods as [|m mods IH];
    intros pid now acc [[cm [pl ml] ps ms sc cl] ck fl base] Hq.
  - simpl. unfold with_db; simpl.
    rewrite !app_nil_r, Nat.add_0_r. reflexivity.
  - simpl in Hq. simpl insert_modules.
    unfold mbind at 1, M_bind at 1.
    unfold execute, announce; simpl.
    destruct sc as [|[msg|] sc]; simpl in *; try discriminate; mstep.
    + rewrite IH by (simpl; by rewrite take_nil). simpl. unfold with_db; simpl.
      rewrite <- !app_assoc. simpl. rewrite drop_nil. repeat f_equal. lia.
    + rewrite IH by done. simpl. unfold with_db; simpl.
      rewrite <- !app_assoc. simpl. repeat f_equal. lia.
Qed.

(** A refused module insert ends the loop with the database's error;
    nothing has been committed by then. *)
Lemma insert_modules_fault mods : ∀ pid now acc w msg,
  first_fault (take (length mods) (script (db w))) = Some msg →
  ∃ w', insert_modules pid now mods acc w = (Raised (Exn DatabaseError msg), w')
        ∧ committed (db w') = committed (db w)
        ∧ clock w' = clock w ∧ files w' = files w
        ∧ ∃ tr, calls (db w') = calls (db w) ++ tr
                ∧ Forall (λ c, is_insert_module c = true) tr.
Proof.
  induction mods as [|m mods IH];
    intros pid now acc [[cm [pl ml] ps ms sc cl] ck fl base] msg Hq.
  - discriminate.
  - simpl in Hq. simpl insert_modules.
    unfold mbind at 1, M_bind at 1.
    unfold execute, announce; simpl.
    destruct sc as [|[msg'|] sc]; simpl in *; try discriminate; mstep.
    + injection Hq as ->. eexists; split; [reflexivity|]. simpl.
      repeat split; try done. eexists; split; [reflexivity|]. by repeat constructor.
    + edestruct IH as (w' & -> & Hc & Hk & Hf & tr & Htr & Hall); [exact Hq|].
      eexists; split; [reflexivity|]. simpl in *.
      repeat split; try done.
      eexists; split; [rewrite Htr, <- app_assoc; reflexivity|].
      by repeat constructor.
Qed.

(** What a run of [_create_database_records] returns and leaves behind
    where [datetime] is the module: by the first failure the script
    holds for its calls. *)
Lemma create_database_records_host self user_id w :
  imported_base w = HostBase →
  let d := db w in
  let now := clock w in
  let run := _create_database_records self user_id w in
  let d' := db (snd run) in
  let insert := Execute (InsertPlugin (plugin_params user_id now (plugin_data self))) in
  match first_fault (take (2 + length (module_data self)) (script d)) with
  | None =>
      fst run = Returned (Success
          {| created_plugin_id := plugin_seq d;
             created_modules := modules_report (module_seq d) (module_data self) |})
      ∧ plugin (session d') =
          plugin (session d) ++
            [{| plugin_id_of := plugin_seq d;
                plugin_cols := plugin_params user_id now (plugin_data self) |}]
      ∧ module (session d') =
          module (session d) ++
            module_rows (plugin_seq d) now (module_seq d) (module_data self)
      ∧ committed d' = session d'
      ∧ calls d' = calls d ++ insert
                   :: module_inserts (plugin_seq d) now (module_data self) ++ [Commit]
  | Some msg =>
      fst run = Returned (Failure msg)
      ∧ committed d' = committed d
      ∧ session d' = committed d
      ∧ (session d = committed d → session d' = session d)
      ∧ ∃ tr, calls d' = calls d ++ insert :: tr ++ [Rollback]
              ∧ Forall (λ c, is_insert_module c = true ∨ c = Commit) tr
  end.
Proof.
  destruct w as [[cm [pl ml] ps ms sc cl] ck fl base].
  simpl. intros ->.
  cbv zeta. unfold _create_database_records, datetime_datetime_now.
  generalize (module_data self) as mods. intros mods.
  change (2 + length mods) with (S (S (length mods))).
  destruct sc as [|[msg|] sc].
  - (* an exhausted script lets every call through *)
    simpl. unfold try_except. db_step.
    rewrite insert_modules_quiet by (simpl; by rewrite take_nil). simpl.
    rewrite drop_nil. unfold commit, announce; simpl.
    repeat split; try done. by rewrite <- !app_assoc.
  - (* the plugin insert is refused *)
    simpl. unfold try_except. db_step.
    repeat split; try done. exists []. split; [|constructor].
    simpl. by rewrite <- !app_assoc.
  - change (first_fault (take (S (S (length mods))) (None :: sc)))
      with (first_fault (take (S (length mods)) sc)).
    rewrite first_fault_take_S.
    destruct (first_fault (take (length mods) sc)) as [msg|] eqn:Hmods.
    + (* a module insert is refused *)
      unfold try_except. mstep. unfold execute, announce; simpl. mstep.
      edestruct (insert_modules_fault mods)
        as (w' & -> & Hc & Hk & Hf & tr & Htr & Hall); [exact Hmods|].
      simpl in *. unfold rollback; simpl. rewrite Hc, Htr, ?Hmods.
      repeat split; try done.
      exists tr. split; [by rewrite <- !app_assoc|].
      eapply Forall_impl; [exact Hall|]. intros c Hc'. by left.
    + unfold try_except. mstep. unfold execute, announce; simpl. mstep.
      rewrite insert_modules_quiet by exact Hmods. simpl.
      rewrite ?Hmods. unfold commit, announce, fate_at; simpl.
      destruct (drop (length mods) sc) as [|[msg|] rest] eqn:Hdrop; simpl.
      * repeat split; try done. by rewrite <- !app_assoc.
      * (* the commit is refused *)
        repeat split; try done.
        exists (module_inserts ps ck mods ++ [Commit]).
        split; [by rewrite <- !app_assoc|].
        apply Forall_app; split; [|by repeat constructor].
        unfold module_inserts. apply Forall_forall. intros c Hc.
        apply list_elem_of_fmap in Hc as (m & -> & _). by left.
      * repeat split; try done. by rewrite <- !app_assoc.
Qed.

(** The same run where [datetime] is the class: line 552 raises before
    the first statement is sent, and the handler rolls back. *)
Lemma create_database_records_minimal self user_id w :
  imported_base w = MinimalBase →
  _create_database_records self user_id w =
    (Returned (Failure no_datetime_attribute),
     with_db {| committed := committed (db w); session := committed (db w);
                plugin_seq := plugin_seq (db w); module_seq := module_seq (db w);
                script := script (db w); calls := calls (db w) ++ [Rollback] |} w).
Proof.
  intros Hbase.
  unfold _create_database_records, try_except, datetime_datetime_now.
  unfold mbind at 1, M_bind at 1. by rewrite Hbase.
Qed.

(** Both, by what the import found. *)
Lemma create_database_records_run self user_id w :
  let d := db w in
  let now := clock w in
  let run := _create_database_records self user_id w in
  let d' := db (snd run) in
  let insert := Execute (InsertPlugin (plugin_params user_id now (plugin_data self))) in
  match imported_base w with
  | MinimalBase =>
      fst run = Returned (Failure no_datetime_attribute)
      ∧ committed d' = committed d
      ∧ session d' = committed d
      ∧ plugin_seq d' = plugin_seq d
      ∧ module_seq d' = module_seq d
      ∧ calls d' = calls d ++ [Rollback]
  | HostBase =>
      match first_fault (take (2 + length (module_data self)) (script d)) with
      | None =>
          fst run = Returned (Success
              {| created_plugin_id := plugin_seq d;
                 created_modules := modules_report (module_seq d) (module_data self) |})
          ∧ plugin (session d') =
              plugin (session d) ++
                [{| plugin_id_of := plugin_seq d;
                    plugin_cols := plugin_params user_id now (plugin_data self) |}]
          ∧ module (session d') =
              module (session d) ++
                module_rows (plugin_seq d) now (module_seq d) (module_data self)
          ∧ committed d' = session d'
          ∧ calls d' = calls d ++ insert
                       :: module_inserts (plugin_seq d) now (module_data self) ++ [Commit]
      | Some msg =>
          fst run = Returned (Failure msg)
          ∧ committed d' = committed d
          ∧ session d' = committed d
          ∧ (session d = committed d → session d' = session d)
          ∧ ∃ tr, calls d' = calls d ++ insert :: tr ++ [Rollback]
                  ∧ Forall (λ c, is_insert_module c = true ∨ c = Commit) tr
      end
  end.
Proof.
  cbv zeta. destruct (imported_base w) eqn:Hbase.
  - by apply create_database_records_host.
  - by rewrite (create_database_records_minimal _ _ _ Hbase).
Qed.

(** C3: what [_create_database_records] does depends on what the import
    at the head of the module found.  Where the host's base class was
    imported, it inserts one plugin row and then one module row per
    descriptor and commits, and returns the new plugin identifier and
    the identifier, name and display name of every module created; when
    an insert or the commit is refused it rolls back and returns a
    failure carrying the database's message, the committed tables being
    as before.  Where the module fell back on its own minimal base
    class, the name [datetime] is bound to the class, line 552 raises
    [AttributeError] before any row is inserted, and the function rolls
    back and returns a failure whatever the database would have
    answered: no plugin is ever recorded. *)
Theorem create_database_records_transaction self user_id w :
  let d := db w in
  let now := clock w in
  let run := _create_database_records self user_id w in
  let d' := db (snd run) in
  let insert := Execute (InsertPlugin (plugin_params user_id now (plugin_data self))) in
  match imported_base w with
  | MinimalBase =>
      fst run = Returned (Failure no_datetime_attribute)
      ∧ committed d' = committed d
      ∧ session d' = committed d
      ∧ plugin_seq d' = plugin_seq d
      ∧ module_seq d' = module_seq d
      ∧ calls d' = calls d ++ [Rollback]
  | HostBase =>
      match first_fault (take (2 + length (module_data self)) (script d)) with
      | None =>
          fst run = Returned (Success
              {| created_plugin_id := plugin_seq d;
                 created_modules := modules_report (module_seq d) (module_data self) |})
          ∧ plugin (session d') =
              plugin (session d) ++
                [{| plugin_id_of := plugin_seq d;
                    plugin_cols := plugin_params user_id now (plugin_data self) |}]
          ∧ module (session d') =
              module (session d) ++
                module_rows (plugin_seq d) now (module_seq d) (module_data self)
          ∧ committed d' = session d'
          ∧ calls d' = calls d ++ insert
                       :: module_inserts (plugin_seq d) now (module_data self) ++ [Commit]
      | Some msg =>
          fst run = Returned (Failure msg)
          ∧ committed d' = committed d
          ∧ session d' = committed d
          ∧ (session d = committed d → session d' = session d)
          ∧ ∃ tr, calls d' = calls d ++ insert :: tr ++ [Rollback]
                  ∧ Forall (λ c, is_insert_module c = true ∨ c = Commit) tr
      end
  end.
Proof. apply create_database_records_run. Qed.

(** The module on its own, empty tables and a database that accepts
    every call: the insertion ends at line 552 and all the database
    sees is the rollback. *)
Example create_database_records_standalone :
  _create_database_records chat_manager "u1" fresh_world
  = (Returned (Failure "type object 'datetime.datetime' has no attribute 'datetime'"),
     with_db {| committed := no_tables; session := no_tables;
                plugin_seq := 1; module_seq := 1;
                script := []; calls := [Rollback] |} fresh_world).
Proof. reflexivity. Qed.

(** The same call where the host's base class was imported. *)
Example create_database_records_in_host :
  fst (_create_database_records chat_manager "u1" host_world)
  = Returned (Success
      {| created_plugin_id := 1;
         created_modules :=
           [{| mc_id := 1; mc_name := "BrainDriveChat";
               mc_display_name := "AI Chat Interface" |}] |}).
Proof. reflexivity. Qed.

(** ** Deletion *)

(** [_delete_database_records] reads the module rows, deletes them,
    deletes the plugin row and commits; a refused call makes it roll back
    and report the failure. *)
Lemma delete_database_records_transaction self user_id plugin_id w :
  let d := db w in
  let run := _delete_database_records self user_id plugin_id w in
  let d' := db (snd run) in
  clock (snd run) = clock w ∧ files (snd run) = files w ∧
  match first_fault (take 4 (script d)) with
  | None =>
      fst run = Returned (Success (deleted_report plugin_id (session d)))
      ∧ plugin (session d') =
          List.filter (λ r, negb (plugin_is plugin_id user_id r)) (plugin (session d))
      ∧ module (session d') =
          List.filter (λ r, negb (module_of plugin_id r)) (module (session d))
      ∧ committed d' = session d'
      ∧ calls d' = calls d ++ delete_calls plugin_id user_id
  | Some msg =>
      fst run = Returned (Failure msg)
      ∧ committed d' = committed d
      ∧ session d' = committed d
      ∧ calls d' = calls d
                   ++ take (S (fault_index (script d))) (delete_calls plugin_id user_id)
                   ++ [Rollback]
  end.
Proof.
  destruct w as [[cm [pl ml] ps ms sc cl] ck fl base].
  cbv zeta.
  unfold _delete_database_records, try_except, delete_calls, deleted_report.
  db_step. do 4 script_case sc.
Qed.

(** C4: in the calls [_delete_database_records] makes, whatever the
    database refuses, a deletion of plugin rows comes only after the
    deletion of the module rows of that plugin, which is not repeated
    after it; in the calls [_create_database_records] makes, an insertion
    of a module row comes only after the insertion of the plugin row,
    which is not repeated after it. *)
Theorem record_store_ordering self user_id plugin_id w :
  precedes (deletes_modules_of plugin_id) is_delete_plugin
    (new_calls (_delete_database_records self user_id plugin_id) w)
  ∧ precedes is_insert_plugin is_insert_module
      (new_calls (_create_database_records self user_id) w).
Proof.
  split.
  - pose proof (delete_database_records_transaction self user_id plugin_id w) as H.
    cbv zeta in H. destruct H as (_ & _ & H).
    destruct (first_fault (take 4 (script (db w)))) as [msg|].
    + destruct H as (_ & _ & _ & H). rewrite (new_calls_app _ _ _ H).
      destruct (fault_index (script (db w))) as [|[|k]]; simpl.
      * apply precedes_none. by repeat constructor.
      * apply (precedes_split _ _ [_] _ [_]); [simpl; apply Nat.eqb_refl | | ];
          by repeat constructor.
      * apply (precedes_split _ _ [_]);
          [simpl; apply Nat.eqb_refl | by repeat constructor | ].
        destruct k as [|k]; simpl; rewrite ?take_nil; by repeat constructor.
    + destruct H as (_ & _ & _ & _ & H). rewrite (new_calls_app _ _ _ H).
      apply (precedes_split _ _ [_]); [simpl; apply Nat.eqb_refl | | ];
        by repeat constructor.
  - pose proof (create_database_records_run self user_id w) as H.
    cbv zeta in H.
    destruct (imported_base w).
    2:{ destruct H as (_ & _ & _ & _ & _ & H). rewrite (new_calls_app _ _ _ H).
        apply precedes_none. by repeat constructor. }
    destruct (first_fault (take (2 + length (module_data self)) (script (db w))))
      as [msg|].
    + destruct H as (_ & _ & _ & _ & tr & H & Hall). rewrite (new_calls_app _ _ _ H).
      apply (precedes_split _ _ []); [done | by repeat constructor | ].
      apply Forall_app; split; [|by repeat constructor].
      eapply Forall_impl; [exact Hall|].
      intros c [Hc| ->]; [|done]. by destruct c as [[]| |].
    + destruct H as (_ & _ & _ & _ & H). rewrite (new_calls_app _ _ _ H).
      apply (precedes_split _ _ []); [done | by repeat constructor | ].
      apply Forall_app; split; [|by repeat constructor].
      unfold module_inserts. apply Forall_forall. intros c Hc.
      by apply list_elem_of_fmap in Hc as (m & -> & _).
Qed.

(** ** Lookup *)

(** [_check_existing_plugin] changes no table; it reports the first
    matching row of the session's view, and a refused query as "not found"
    with the database's message. *)
Lemma check_existing_plugin_run self user_id w :
  let slug := pd_plugin_slug (plugin_data self) in
  let run := _check_existing_plugin self user_id w in
  same_state w (snd run)
  ∧ match first_fault (take 2 (script (db w))) with
    | Some msg =>
        fst run = Returned (NotFound (Some msg))
        ∧ calls (db (snd run)) =
            calls (db w)
            ++ take (S (fault_index (script (db w)))) (lookup_calls user_id slug)
    | None =>
        fst run = Returned (lookup_report user_id slug (session (db w)))
        ∧ calls (db (snd run)) = calls (db w) ++ lookup_calls user_id slug
        ∧ script (db (snd run)) = drop 2 (script (db w))
    end.
Proof.
  destruct w as [[cm [pl ml] ps ms sc cl] ck fl base].
  cbv zeta.
  unfold _check_existing_plugin, try_except, lookup_report, records_of, same_state.
  destruct sc as [|[m1|] [|[m2|] sc]];
    db_step; rewrite <- ?app_assoc; simpl;
    try (by destruct (List.filter _ pl)); done.
Qed.

Lemma lookup_calls_harmless user_id slug k :
  Forall (λ c, mutating c = false) (take k (lookup_calls user_id slug)).
Proof. destruct k as [|[|k]]; simpl; rewrite ?take_nil; by repeat constructor. Qed.

Lemma lookup_new_calls self user_id w :
  Forall (λ c, mutating c = false) (new_calls (_check_existing_plugin self user_id) w).
Proof.
  pose proof (check_existing_plugin_run self user_id w) as Hspec.
  cbv zeta in Hspec. destruct Hspec as [_ Hspec].
  destruct (first_fault (take 2 (script (db w)))) as [msg|].
  - destruct Hspec as [_ H]. rewrite (new_calls_app _ _ _ H).
    apply lookup_calls_harmless.
  - destruct Hspec as (_ & H & _). rewrite (new_calls_app _ _ _ H).
    apply (lookup_calls_harmless _ _ 2).
Qed.

Lemma lookup_not_found self user_id w :
  (∃ msg, first_fault (take 2 (script (db w))) = Some msg)
  ∨ records_of user_id (pd_plugin_slug (plugin_data self)) (session (db w)) = [] →
  ∃ error, fst (_check_existing_plugin self user_id w) = Returned (NotFound error).
Proof.
  intros H. pose proof (check_existing_plugin_run self user_id w) as Hspec.
  cbv zeta in Hspec. destruct Hspec as [_ Hspec].
  destruct (first_fault (take 2 (script (db w)))) as [msg|].
  - destruct Hspec as [-> _]. by eexists.
  - destruct H as [[msg H]|H]; [done|].
    destruct Hspec as [-> _]. unfold lookup_report. rewrite H. by eexists.
Qed.

(** ** Removal for one user *)

(** What the uninstallation does when the lookup does not find the
    plugin: it stops there. *)
Lemma perform_user_uninstallation_not_found self user_id w error :
  fst (_check_existing_plugin self user_id w) = Returned (NotFound error) →
  _perform_user_uninstallation self user_id w =
    (Returned (Failure "Plugin not found for user"),
     snd (_check_existing_plugin self user_id w)).
Proof.
  intros H. apply run_eq in H. unfold _perform_user_uninstallation.
  apply try_returned. by rewrite (bind_returned _ _ _ _ _ H).
Qed.

(** C2: when the plugin is not installed for the user (the user is not
    among the manager's active users, or the session sees no plugin row
    for the user and the slug), [uninstall_for_user] returns a failure and
    leaves the manager as it is; the committed tables, the session's
    tables and the files are unchanged, and every call it made to the
    database is a [SELECT].  [delete_plugin] returns a failure without
    touching the world at all. *)
Theorem uninstall_when_not_installed self user_id w :
  user_id ∉ active_users self
  ∨ records_of user_id (pd_plugin_slug (plugin_data self)) (session (db w)) = [] →
  let run := uninstall_for_user self user_id w in
  (∃ msg, fst run = Returned (Failure msg, self))
  ∧ same_state w (snd run)
  ∧ Forall (λ c, mutating c = false) (new_calls (uninstall_for_user self user_id) w)
  ∧ ∀ plugins_base_dir,
      delete_plugin user_id plugins_base_dir w
      = (Returned (Failure "Plugin not installed for user"), w).
Proof.
  intros H. cbv zeta. split_and!.
  - unfold uninstall_for_user. case_bool_decide as Hin; [by eexists|].
    destruct H as [H|H]; [done|].
    destruct (lookup_not_found self user_id w (or_intror H)) as [error Herr].
    pose proof (perform_user_uninstallation_not_found _ _ _ _ Herr) as Hrun.
    rewrite (bind_returned _ _ _ _ _ Hrun). simpl. by eexists.
  - unfold uninstall_for_user. case_bool_decide as Hin; [done|].
    destruct H as [H|H]; [done|].
    destruct (lookup_not_found self user_id w (or_intror H)) as [error Herr].
    pose proof (perform_user_uninstallation_not_found _ _ _ _ Herr) as Hrun.
    rewrite (bind_returned _ _ _ _ _ Hrun). simpl.
    apply (check_existing_plugin_run self user_id w).
  - unfold new_calls, uninstall_for_user. case_bool_decide as Hin.
    { simpl. rewrite drop_all. constructor. }
    destruct H as [H|H]; [done|].
    destruct (lookup_not_found self user_id w (or_intror H)) as [error Herr].
    pose proof (perform_user_uninstallation_not_found _ _ _ _ Herr) as Hrun.
    rewrite (bind_returned _ _ _ _ _ Hrun). simpl.
    apply lookup_new_calls.
  - intros dir. unfold delete_plugin, BrainDriveChatLifecycleManager, uninstall_for_user.
    mstep. unfold datetime_now. simpl.
    destruct dir as [[|c d]|]; reflexivity.
Qed.

(** The user [u1] is active for the manager but the tables are empty. *)
Lemma uninstall_when_not_installed_witness :
  ∃ msg, fst (uninstall_for_user chat_manager_u1 "u1" fresh_world)
         = Returned (Failure msg, chat_manager_u1).
Proof.
  exact (proj1 (uninstall_when_not_installed chat_manager_u1 "u1" fresh_world
                  (or_intror eq_refl))).
Defined.

(** C10: when a query of the lookup is refused, [_check_existing_plugin]
    returns [{exists: False, error: msg}] instead of raising;
    [get_plugin_status] hands that dictionary on, so the failure reads as
    "not installed" with an error added; and the uninstallation takes the
    plugin as not found, changing no table. *)
Theorem lookup_database_error self user_id w msg :
  first_fault (take 2 (script (db w))) = Some msg →
  fst (_check_existing_plugin self user_id w) = Returned (NotFound (Some msg))
  ∧ (∀ plugins_base_dir,
       fst (get_plugin_status user_id plugins_base_dir w)
       = Returned (NotFound (Some msg)))
  ∧ fst (_perform_user_uninstallation self user_id w)
    = Returned (Failure "Plugin not found for user")
  ∧ (user_id ∈ active_users self →
     fst (uninstall_for_user self user_id w)
     = Returned (Failure "Plugin not found for user", self))
  ∧ same_state w (snd (uninstall_for_user self user_id w)).
Proof.
  intros Hfault.
  assert (∀ m, fst (_check_existing_plugin m user_id w) = Returned (NotFound (Some msg)))
    as Hlookup.
  { intros m. pose proof (check_existing_plugin_run m user_id w) as Hspec.
    cbv zeta in Hspec. rewrite Hfault in Hspec. apply Hspec. }
  pose proof (perform_user_uninstallation_not_found _ _ _ _ (Hlookup self)) as Hrun.
  split_and!.
  - apply Hlookup.
  - intros dir. unfold get_plugin_status, BrainDriveChatLifecycleManager.
    mstep. unfold datetime_now. apply Hlookup.
  - by rewrite Hrun.
  - intros Hin. unfold uninstall_for_user.
    rewrite bool_decide_eq_false_2 by (intros Hn; by apply Hn).
    by rewrite (bind_returned _ _ _ _ _ Hrun).
  - unfold uninstall_for_user. case_bool_decide; [done|].
    rewrite (bind_returned _ _ _ _ _ Hrun). simpl.
    apply (check_existing_plugin_run self user_id w).
Qed.

(** The connection is lost at the first query. *)
Lemma lookup_database_error_witness :
  first_fault (take 2 (script (db failing_world))) = Some "connection lost"
  ∧ fst (get_plugin_status "u1" None failing_world)
    = Returned (NotFound (Some "connection lost")).
Proof.
  split; [reflexivity|].
  apply (lookup_database_error chat_manager "u1" failing_world "connection lost").
  reflexivity.
Defined.

(** ** Installation for one user *)

Lemma records_of_app_new user_id slug pl ml ml' id params :
  pp_user_id params = user_id →
  pd_plugin_slug (pp_data params) = slug →
  records_of user_id slug {| plugin := pl; module := ml |} = [] →
  records_of user_id slug
    {| plugin := pl ++ [{| plugin_id_of := id; plugin_cols := params |}];
       module := ml' |}
  = [{| plugin_id_of := id; plugin_cols := params |}].
Proof.
  unfold records_of. simpl. intros Hu Hs Hnone.
  rewrite List.filter_app, Hnone. simpl.
  unfold plugin_matches. simpl. rewrite Hu, Hs, !String.eqb_refl. done.
Qed.

(** What [_perform_user_installation] makes of the result of the
    insertion. *)
Lemma perform_user_installation_run self user_id shared w :
  _perform_user_installation self user_id shared w =
    (match fst (_create_database_records self user_id w) with
     | Returned (Failure msg) => Returned (Failure msg)
     | Returned (Success created) =>
         Returned (Success
           {| inst_plugin_id := created_plugin_id created;
              inst_plugin_slug := pd_plugin_slug (plugin_data self);
              inst_plugin_name := pd_name (plugin_data self);
              inst_modules_created := created_modules created |})
     | Raised e => Returned (Failure (exn_str e))
     end, snd (_create_database_records self user_id w)).
Proof.
  unfold _perform_user_installation, try_except, mbind, M_bind.
  by destruct (_create_database_records self user_id w) as [[[msg|created]|e] w1].
Qed.

(** An installation that succeeded: the host's base class is in use,
    the database accepted every call, and the rows are there. *)
Lemma perform_user_installation_success self user_id shared w r w' :
  _perform_user_installation self user_id shared w = (Returned (Success r), w') →
  let d := db w in
  imported_base w = HostBase
  ∧ first_fault (take (2 + length (module_data self)) (script d)) = None
  ∧ r = {| inst_plugin_id := plugin_seq d;
           inst_plugin_slug := pd_plugin_slug (plugin_data self);
           inst_plugin_name := pd_name (plugin_data self);
           inst_modules_created := modules_report (module_seq d) (module_data self) |}
  ∧ plugin (session (db w')) =
      plugin (session d) ++
        [{| plugin_id_of := plugin_seq d;
            plugin_cols := plugin_params user_id (clock w) (plugin_data self) |}]
  ∧ module (session (db w')) =
      module (session d) ++
        module_rows (plugin_seq d) (clock w) (module_seq d) (module_data self)
  ∧ committed (db w') = session (db w').
Proof.
  intros Hrun. cbv zeta. rewrite perform_user_installation_run in Hrun.
  pose proof (create_database_records_run self user_id w) as Hc. cbv zeta in Hc.
  destruct (imported_base w).
  2:{ destruct Hc as (Hf & _). by rewrite Hf in Hrun. }
  destruct (first_fault _) eqn:Hquiet in Hc.
  { destruct Hc as (Hf & _). by rewrite Hf in Hrun. }
  destruct Hc as (Hf & Hp & Hm & Hcm & _). rewrite Hf in Hrun.
  by injection Hrun as <- <-.
Qed.

(** C9: for a user with no plugin row for the slug, an installation
    ([_perform_user_installation], which runs [_create_database_records])
    that returns success is followed by a lookup that finds the plugin
    under the identifier the installation returned, provided the database
    answers the two queries of the lookup.  An installation succeeds
    only where the host's base class was imported: on its own the
    module never records a plugin. *)
Theorem install_then_lookup self user_id shared_plugin_path w r w' :
  records_of user_id (pd_plugin_slug (plugin_data self)) (session (db w)) = [] →
  _perform_user_installation self user_id shared_plugin_path w
    = (Returned (Success r), w') →
  first_fault (take 2 (script (db w'))) = None →
  ∃ plugin_info,
    fst (_check_existing_plugin self user_id w')
    = Returned (Found (inst_plugin_id r) plugin_info).
Proof.
  intros Hnone Hrun Hquiet.
  apply perform_user_installation_success in Hrun as (_ & _ & -> & Hp & Hm & _).
  pose proof (check_existing_plugin_run self user_id w') as Hl.
  cbv zeta in Hl. rewrite Hquiet in Hl. destruct Hl as (_ & -> & _).
  simpl. unfold lookup_report.
  destruct (session (db w')) as [pl1 ml1]. simpl in Hp, Hm. subst pl1.
  destruct (session (db w)) as [pl ml] eqn:Hs. simpl.
  erewrite records_of_app_new; [by eexists | done | done | exact Hnone].
Qed.

(** A first installation for [u1] in the host, on empty tables, then the
    lookup. *)
Lemma install_then_lookup_witness :
  ∃ plugin_info,
    fst (_check_existing_plugin chat_manager "u1"
           (snd (_perform_user_installation chat_manager "u1" [] host_world)))
    = Returned (Found 1 plugin_info).
Proof.
  apply (install_then_lookup chat_manager "u1" [] host_world
           {| inst_plugin_id := 1;
              inst_plugin_slug := "BrainDriveChat";
              inst_plugin_name := "BrainDriveChat";
              inst_modules_created :=
                [{| mc_id := 1; mc_name := "BrainDriveChat";
                    mc_display_name := "AI Chat Interface" |}] |}).
  - reflexivity.
  - reflexivity.
  - reflexivity.
Defined.

(** ** Installation with the minimal base class *)

(** Where the guard of [install_for_user] fires: a user among the
    manager's active users is turned away before any call to the
    database. *)
Lemma install_for_user_active self user_id shared_plugin_path w :
  user_id ∈ active_users self →
  install_for_user self user_id shared_plugin_path w
  = (Returned (Failure "Plugin already installed for user", self), w).
Proof.
  intros Hin. unfold install_for_user. by rewrite bool_decide_eq_true_2.
Qed.

Lemma install_for_user_run self user_id shared w :
  user_id ∉ active_users self →
  install_for_user self user_id shared w =
    match _perform_user_installation self user_id shared w with
    | (Returned (Success r), w1) =>
        (Returned (Success r,
                   set_active ({[user_id]} ∪ active_users self) (clock w1) self), w1)
    | (Returned (Failure msg), w1) => (Returned (Failure msg, self), w1)
    | (Raised e, w1) => (Raised e, w1)
    end.
Proof.
  intros Hout. unfold install_for_user.
  rewrite bool_decide_eq_false_2 by done.
  unfold mbind at 1, M_bind at 1.
  by destruct (_perform_user_installation self user_id shared w)
    as [[[msg|r]|e] w1].
Qed.

(** The constructor reads the clock and changes nothing. *)
Lemma new_manager plugins_base_dir w :
  ∃ self, BrainDriveChatLifecycleManager plugins_base_dir w = (Returned self, w)
          ∧ active_users self = ∅
          ∧ plugin_data self = PLUGIN_DATA
          ∧ module_data self = MODULE_DATA.
Proof. eexists. split; [reflexivity|]. done. Qed.

(** What [install_plugin] runs, on the manager it builds. *)
Lemma install_plugin_run user_id plugins_base_dir w :
  ∃ self,
    active_users self = ∅
    ∧ plugin_data self = PLUGIN_DATA
    ∧ module_data self = MODULE_DATA
    ∧ install_plugin user_id plugins_base_dir w =
        match install_for_user self user_id (shared_path self) w with
        | (Returned r, w1) => (Returned (fst r), w1)
        | (Raised e, w1) => (Raised e, w1)
        end.
Proof.
  destruct (new_manager plugins_base_dir w) as (self & Hnew & Hactive & Hpd & Hmd).
  exists self. split_and!; try done.
  unfold install_plugin. rewrite (bind_returned _ _ _ _ _ Hnew).
  unfold mbind, M_bind.
  by destruct (install_for_user self user_id (shared_path self) w) as [[r|e] w1].
Qed.

(** With the minimal base class an installation ends in one of two
    ways: the guard turns the user away, or line 552 raises and the
    insertion is rolled back before it began. *)
Lemma install_for_user_minimal self user_id shared w :
  imported_base w = MinimalBase →
  ((user_id ∈ active_users self)
   ∧ install_for_user self user_id shared w
     = (Returned (Failure "Plugin already installed for user", self), w))
  ∨ ((user_id ∉ active_users self)
     ∧ install_for_user self user_id shared w
       = (Returned (Failure no_datetime_attribute, self),
          with_db {| committed := committed (db w); session := committed (db w);
                     plugin_seq := plugin_seq (db w);
                     module_seq := module_seq (db w);
                     script := script (db w);
                     calls := calls (db w) ++ [Rollback] |} w)).
Proof.
  intros Hbase. destruct (decide (user_id ∈ active_users self)) as [Hin|Hout].
  - left. split; [done|]. by apply install_for_user_active.
  - right. split; [done|].
    rewrite (install_for_user_run _ _ _ _ Hout), perform_user_installation_run.
    by rewrite (create_database_records_minimal _ _ _ Hbase).
Qed.

(** C1: where the minimal base class of this file is in use, a call to
    install never adds a plugin row, for a user who already has one as
    for any other.  [install_for_user] returns a failure: the guard's,
    for a user among the manager's active users, and otherwise the
    [AttributeError] of line 552, raised before the first INSERT.
    [install_plugin], which builds its manager anew, always returns
    the latter.  Neither sends an INSERT to the database and the
    committed tables are those of before, so the rows of the user and
    the slug are the same rows, as many as before. *)
Theorem install_again_fails self user_id shared_plugin_path plugins_base_dir w :
  imported_base w = MinimalBase →
  let slug := pd_plugin_slug (plugin_data self) in
  let run := install_for_user self user_id shared_plugin_path w in
  let run' := install_plugin user_id plugins_base_dir w in
  (fst run
   = Returned (Failure (if bool_decide (user_id ∈ active_users self)
                        then "Plugin already installed for user"
                        else no_datetime_attribute), self)
   ∧ committed (db (snd run)) = committed (db w)
   ∧ records_of user_id slug (committed (db (snd run)))
     = records_of user_id slug (committed (db w))
   ∧ Forall (λ c, is_insert_plugin c = false ∧ is_insert_module c = false)
       (new_calls (install_for_user self user_id shared_plugin_path) w))
  ∧ (fst run' = Returned (Failure no_datetime_attribute)
     ∧ committed (db (snd run')) = committed (db w)
     ∧ records_of user_id "BrainDriveChat" (committed (db (snd run')))
       = records_of user_id "BrainDriveChat" (committed (db w))
     ∧ Forall (λ c, is_insert_plugin c = false ∧ is_insert_module c = false)
         (new_calls (install_plugin user_id plugins_base_dir) w)).
Proof.
  intros Hbase. cbv zeta.
  assert (∀ m shared,
            let run := install_for_user m user_id shared w in
            fst run
            = Returned (Failure (if bool_decide (user_id ∈ active_users m)
                                 then "Plugin already installed for user"
                                 else no_datetime_attribute), m)
            ∧ committed (db (snd run)) = committed (db w)
            ∧ Forall (λ c, is_insert_plugin c = false ∧ is_insert_module c = false)
                (drop (length (calls (db w))) (calls (db (snd run))))) as Hinstall.
  { intros m shared. cbv zeta.
    destruct (install_for_user_minimal m user_id shared w Hbase)
      as [[Hin ->]|[Hout ->]]; simpl.
    - rewrite bool_decide_eq_true_2 by done.
      split_and!; [done..|]. rewrite drop_all. constructor.
    - rewrite bool_decide_eq_false_2 by done.
      split_and!; [done..|]. rewrite drop_app_length.
      by repeat constructor. }
  split.
  - destruct (Hinstall self shared_plugin_path) as (Hfail & Hcm & Hcalls).
    split_and!; try done. by rewrite Hcm.
  - destruct (install_plugin_run user_id plugins_base_dir w)
      as (m & Hactive & _ & _ & Hrun).
    destruct (Hinstall m (shared_path m)) as (Hfail & Hcm & Hcalls).
    rewrite Hactive, bool_decide_eq_false_2 in Hfail by apply not_elem_of_empty.
    unfold new_calls. rewrite Hrun.
    destruct (install_for_user m user_id (shared_path m) w) as [o w1].
    simpl in *. subst o. simpl.
    split_and!; try done. by rewrite Hcm.
Qed.

(** The plugin is installed for [u1]; [install_plugin] for [u1] fails
    and the one row stays the only one. *)
Lemma install_again_fails_witness :
  length (records_of "u1" "BrainDriveChat"
            (committed (db (snd (install_plugin "u1" None installed_world))))) = 1.
Proof.
  destruct (install_again_fails chat_manager "u1" [] None installed_world eq_refl)
    as (_ & _ & _ & Hrows & _).
  rewrite Hrows. reflexivity.
Defined.
(** * Files *)

Lemma joinpath_package_json d : joinpath d "package.json" = package_json_of d.
Proof. reflexivity. Qed.

Lemma joinpath_bundle d : joinpath d "dist/remoteEntry.js" = bundle_of d.
Proof. reflexivity. Qed.

Lemma joinpath_dist_bundle d :
  joinpath (joinpath d "dist") "remoteEntry.js" = bundle_of d.
Proof.
  unfold joinpath, bundle_of.
  change (Py.parts "dist") with ["dist"].
  change (Py.parts "remoteEntry.js") with ["remoteEntry.js"].
  by rewrite <- app_assoc.
Qed.

Lemma joinpath_assets d : joinpath d "assets" = d ++ ["assets"].
Proof. reflexivity. Qed.

Lemma joinpath_src d : joinpath d "src" = d ++ ["src"].
Proof. reflexivity. Qed.

(** What [rglob] lists. *)
Lemma rglob_elem dir infix w p :
  p ∈ (match fst (rglob dir infix w) with Returned l => l | Raised _ => [] end)
  ↔ strict_prefixb dir p = true ∧ is_Some (fs (files w) !! p)
    ∧ Py.contains infix (name p) = true.
Proof.
  unfold rglob. simpl.
  rewrite list_elem_of_In, List.filter_In, <- list_elem_of_In, list_elem_of_fmap.
  split.
  - intros [([p' n] & -> & Hin) Hp]. apply elem_of_map_to_list in Hin.
    apply andb_prop in Hp as [? ?]. simpl in *. by rewrite Hin.
  - intros (Hp & [n Hn] & Hc). split; [|by rewrite Hp, Hc].
    exists (p, n). split; [done|]. by apply elem_of_map_to_list.
Qed.

(** The three searches of the inspector find something exactly when a
    component file lies below the directory. *)
Lemma rglob_components dir w chat model history :
  fst (rglob dir "Chat" w) = Returned chat →
  fst (rglob dir "Model" w) = Returned model →
  fst (rglob dir "History" w) = Returned history →
  (match chat ++ model ++ history with [] => false | _ :: _ => true end) = true
  ↔ has_component w dir.
Proof.
  intros Hc Hm Hh.
  pose proof (λ p, rglob_elem dir "Chat" w p) as Ec. rewrite Hc in Ec.
  pose proof (λ p, rglob_elem dir "Model" w p) as Em. rewrite Hm in Em.
  pose proof (λ p, rglob_elem dir "History" w p) as Eh. rewrite Hh in Eh.
  unfold has_component, component_name. split.
  - destruct (chat ++ model ++ history) as [|p l] eqn:Hl; [done|]. intros _.
    assert (p ∈ chat ++ model ++ history) as Hin by (rewrite Hl; constructor).
    rewrite !elem_of_app in Hin. exists p.
    destruct Hin as [Hin|[Hin|Hin]];
      [apply Ec in Hin | apply Em in Hin | apply Eh in Hin];
      destruct Hin as (? & ? & ->); rewrite ?orb_true_r; done.
  - intros (p & Hp & Hn & Hname).
    assert (p ∈ chat ++ model ++ history) as Hin.
    { rewrite !elem_of_app.
      apply orb_prop in Hname as [Hname|Hname];
        [apply orb_prop in Hname as [Hname|Hname]|].
      - left. by apply Ec.
      - right; left. by apply Em.
      - right; right. by apply Eh. }
    destruct (chat ++ model ++ history); [by apply elem_of_nil in Hin | done].
Qed.

(** ** Reading *)

Lemma path_exists_run p w : path_exists p w = (Returned (exists_at w p), w).
Proof. reflexivity. Qed.

Lemma exists_and_is_dir_run p w :
  exists_and_is_dir p w = (Returned (is_dir_at w p), w).
Proof.
  unfold exists_and_is_dir, is_dir_at, path_exists, is_dir, lookup_node.
  unfold mbind, M_bind, mret, M_ret.
  destruct (fs (files w) !! p) as [[f|size]|] eqn:H; simpl; by rewrite ?H.
Qed.

Lemma is_dir_at_true w p : is_dir_at w p = true ↔ is_directory w p.
Proof.
  unfold is_dir_at, is_directory.
  destruct (fs (files w) !! p) as [[f|size]|]; split; try done; eauto;
    by intros [? ?].
Qed.

Lemma exists_at_true w p : exists_at w p = true ↔ is_Some (fs (files w) !! p).
Proof. unfold exists_at. apply bool_decide_eq_true. Qed.

Lemma stat_size_run p w n :
  fs (files w) !! p = Some n → stat_size p w = (Returned (node_size n), w).
Proof.
  intros H. unfold stat_size, lookup_node. mstep. rewrite H. by destruct n.
Qed.

(** What [load_json] does, by what lies at the path. *)
Lemma load_json_run p w :
  load_json p w =
    (match fs (files w) !! p with
     | Some (File f) =>
         match json_load f with
         | Loads v => Returned v
         | DecodeFails msg => Raised (Exn JSONDecodeError msg)
         | ReadFails msg => Raised (Exn OSError msg)
         end
     | Some (Dir _) => Raised (Exn OSError "Is a directory")
     | None => Raised (Exn FileNotFoundError "No such file or directory")
     end, w).
Proof.
  unfold load_json, lookup_node. mstep.
  destruct (fs (files w) !! p) as [[f|size]|]; [|done..].
  by destruct (json_load f).
Qed.

(** ** Health inspector *)

Lemma check_bundle_run p w :
  check_bundle p w =
    (Returned (match fs (files w) !! p with
               | Some n => (true, node_size n)
               | None => (false, 0%N)
               end), w).
Proof.
  unfold check_bundle.
  rewrite (bind_returned _ _ _ _ _ (path_exists_run p w)). unfold exists_at.
  destruct (fs (files w) !! p) as [n|] eqn:H; simpl; [|done].
  by rewrite (bind_returned _ _ _ _ _ (stat_size_run p w n H)).
Qed.

Lemma check_package_json_run p w :
  check_package_json p w =
    (match fs (files w) !! p with
     | Some (File f) =>
         match json_load f with
         | Loads _ => Returned true
         | DecodeFails _ => Returned false
         | ReadFails msg => Raised (Exn OSError msg)
         end
     | Some (Dir _) => Raised (Exn OSError "Is a directory")
     | None => Returned false
     end, w).
Proof.
  unfold check_package_json.
  rewrite (bind_returned _ _ _ _ _ (path_exists_run p w)). unfold exists_at.
  destruct (fs (files w) !! p) as [[f|size]|] eqn:H; simpl; [| |done].
  - unfold try_except, mbind, M_bind. rewrite load_json_run, H.
    by destruct (json_load f).
  - unfold try_except, mbind, M_bind. by rewrite load_json_run, H.
Qed.

Lemma check_components_run p w :
  ∃ found : bool,
    check_components p w = (Returned found, w)
    ∧ (found = true ↔ is_directory w p ∧ has_component w p).
Proof.
  unfold check_components.
  rewrite (bind_returned _ _ _ _ _ (exists_and_is_dir_run p w)).
  setoid_rewrite <- is_dir_at_true.
  destruct (is_dir_at w p).
  - eexists. split; [reflexivity|].
    rewrite (rglob_components p w _ _ _ eq_refl eq_refl eq_refl).
    split; [by intros ? | by intros [_ ?]].
  - exists false. split; [reflexivity|]. split; [done | by intros [? _]].
Qed.

Lemma parses_file w p f :
  fs (files w) !! p = Some (File f) →
  parses w p ↔ ∃ v, json_load f = Loads v.
Proof.
  intros H. unfold parses. rewrite H. split.
  - intros (f' & v & [= <-] & Hv). eauto.
  - intros [v Hv]. eauto.
Qed.

Lemma parses_not_file w p :
  (∀ f, fs (files w) !! p ≠ Some (File f)) → parses w p ↔ False.
Proof.
  intros H. unfold parses. split; [|done].
  intros (f & v & Hf & _). by apply (H f).
Qed.

(** The fields of the report that describe the bundle. *)
Lemma bundle_fields w bundle :
  let found := match fs (files w) !! bundle with
               | Some n => (true, node_size n)
               | None => (false, 0%N)
               end in
  (found.1 && (0 <? found.2)%N = true
   ↔ ∃ n, fs (files w) !! bundle = Some n ∧ (0 < node_size n)%N)
  ∧ (found.1 = true ↔ is_Some (fs (files w) !! bundle))
  ∧ (fs (files w) !! bundle = None → found.2 = 0%N).
Proof.
  cbv zeta. destruct (fs (files w) !! bundle) as [n|]; simpl.
  - rewrite N.ltb_lt. split; [|split].
    + split; [eauto|]. by intros (n' & [= <-] & H).
    + split; [eauto|done].
    + done.
  - split; [|split].
    + split; [done|]. by intros (n' & ? & _).
    + split; [done|]. by intros [? ?].
    + done.
Qed.

(** Closes a case of the inspector's run with what the rest of the run
    returns. *)
Ltac health_rest w h Hrun Hh Hinfo :=
  exists h; split; [|split; [exact Hh | intros _; exact Hinfo]];
  lazymatch goal with
  | |- (let (o, w') := ?m in _) = _ =>
      replace m with (@Returned Health h, w) by (symmetry; exact Hrun)
  end;
  reflexivity.

(** The inspector returns a report and leaves the world alone. *)
Lemma plugin_health_run self user_id plugin_dir w :
  ∃ h, _get_plugin_health_impl self user_id plugin_dir w = (Returned h, w)
    ∧ (healthy h = true ↔
         (∃ n, fs (files w) !! bundle_of plugin_dir = Some n ∧ (0 < node_size n)%N)
         ∧ parses w (package_json_of plugin_dir))
    ∧ (¬ unreadable w (package_json_of plugin_dir) →
       ∃ info, details h = Info info
         ∧ (bundle_exists info = true
            ↔ is_Some (fs (files w) !! bundle_of plugin_dir))
         ∧ (fs (files w) !! bundle_of plugin_dir = None → bundle_size info = 0%N)
         ∧ (package_json_valid info = true ↔ parses w (package_json_of plugin_dir))
         ∧ (assets_present info = true ↔ is_directory w (plugin_dir ++ ["assets"]))
         ∧ (chat_components_present info = true
            ↔ is_directory w (plugin_dir ++ ["src"])
              ∧ has_component w (plugin_dir ++ ["src"]))).
Proof.
  unfold _get_plugin_health_impl.
  rewrite joinpath_dist_bundle, joinpath_package_json, joinpath_assets, joinpath_src.
  set (bundle := bundle_of plugin_dir). set (pkg := package_json_of plugin_dir).
  set (assets := plugin_dir ++ ["assets"]). set (src := plugin_dir ++ ["src"]).
  destruct (check_components_run src w) as (found & Hfound & Hcomp).
  pose proof (is_dir_at_true w assets) as Hassets.
  destruct (bundle_fields w bundle) as (Hpos & Hexists & Hzero).
  unfold try_except.
  rewrite (bind_returned _ _ _ _ _ (check_bundle_run bundle w)).
  unfold mbind at 1, M_bind at 1. rewrite check_package_json_run.
  set (b := match fs (files w) !! bundle with
            | Some n => (true, node_size n)
            | None => (false, 0%N)
            end) in *.
  assert (∀ valid : bool, (valid = true ↔ parses w pkg) →
            ∃ h, (exists_and_is_dir assets ≫= λ assets_present,
                  check_components src ≫= λ chat_components_present,
                  mret {| healthy := b.1 && (0 <? b.2)%N && valid;
                          details := Info {| bundle_exists := b.1;
                                             bundle_size := b.2;
                                             package_json_valid := valid;
                                             assets_present := assets_present;
                                             chat_components_present :=
                                               chat_components_present |} |}) w
                 = (Returned h, w)
              ∧ (healthy h = true ↔
                   (∃ n, fs (files w) !! bundle = Some n ∧ (0 < node_size n)%N)
                   ∧ parses w pkg)
              ∧ ∃ info, details h = Info info
                  ∧ (bundle_exists info = true ↔ is_Some (fs (files w) !! bundle))
                  ∧ (fs (files w) !! bundle = None → bundle_size info = 0%N)
                  ∧ (package_json_valid info = true ↔ parses w pkg)
                  ∧ (assets_present info = true ↔ is_directory w assets)
                  ∧ (chat_components_present info = true
                     ↔ is_directory w src ∧ has_component w src)) as Hrest.
  { intros valid Hvalid.
    rewrite (bind_returned _ _ _ _ _ (exists_and_is_dir_run assets w)).
    rewrite (bind_returned _ _ _ _ _ Hfound).
    eexists. split; [reflexivity|]. simpl. split.
    - rewrite andb_true_iff, Hpos, Hvalid. reflexivity.
    - eexists. split; [reflexivity|]. simpl.
      split; [exact Hexists|]. split; [exact Hzero|].
      split; [exact Hvalid|]. split; [exact Hassets | exact Hcomp]. }
  destruct (fs (files w) !! pkg) as [[fp|sp]|] eqn:Hp;
    [destruct (json_load fp) as [v|msg|msg] eqn:Hl | |].
  - destruct (Hrest true) as (h & Hrun & Hh & Hinfo).
    { rewrite (parses_file w pkg fp Hp), Hl. split; [eauto|done]. }
    health_rest w h Hrun Hh Hinfo.
  - destruct (Hrest false) as (h & Hrun & Hh & Hinfo).
    { rewrite (parses_file w pkg fp Hp), Hl. split; [done|]. by intros [? ?]. }
    health_rest w h Hrun Hh Hinfo.
  - simpl. eexists. split; [reflexivity|]. simpl. split.
    + rewrite (parses_file w pkg fp Hp), Hl. split; [done|].
      by intros [_ [? ?]].
    + intros Hun. exfalso. apply Hun. right. eauto.
  - simpl. eexists. split; [reflexivity|]. simpl. split.
    + rewrite parses_not_file by (intros f; rewrite Hp; done). split; [done|tauto].
    + intros Hun. exfalso. apply Hun. left. eauto.
  - destruct (Hrest false) as (h & Hrun & Hh & Hinfo).
    { rewrite parses_not_file by (intros f; rewrite Hp; done). split; done. }
    health_rest w h Hrun Hh Hinfo.
Qed.

(** Where reading [package.json] fails the exception is not a
    [JSONDecodeError]: it reaches the outer handler and the report holds
    its message in place of the five fields. *)
Lemma plugin_health_unreadable self user_id plugin_dir w :
  unreadable w (package_json_of plugin_dir) →
  ∃ msg, _get_plugin_health_impl self user_id plugin_dir w
         = (Returned {| healthy := false; details := HealthError msg |}, w).
Proof.
  intros Hun. unfold _get_plugin_health_impl.
  rewrite joinpath_dist_bundle, joinpath_package_json.
  unfold try_except.
  rewrite (bind_returned _ _ _ _ _ (check_bundle_run _ w)).
  unfold mbind at 1, M_bind at 1. rewrite check_package_json_run.
  destruct Hun as [[size ->]|(f & msg & -> & ->)]; simpl; by eexists.
Qed.

(** The five fields are not always there.  Where [package.json] is a
    directory, or a file whose bytes cannot be decoded, it does not
    parse, and the report has no field [package_json_valid] to be
    false, nor any of the other four (C6 before its amendment). *)
Lemma plugin_health_no_fields :
  (let w := manifest_directory_world in
   let run := _get_plugin_health_impl chat_manager "u1" user_dir w in
   ¬ parses w (package_json_of user_dir)
   ∧ ¬ ∃ h info, fst run = Returned h ∧ details h = Info info)
  ∧ (let w := undecodable_manifest_world in
     let run := _get_plugin_health_impl chat_manager "u1" user_dir w in
     ¬ parses w (package_json_of user_dir)
     ∧ ¬ ∃ h info, fst run = Returned h ∧ details h = Info info).
Proof.
  cbv zeta. split; split.
  - intros (f & v & Hf & _). vm_compute in Hf. discriminate Hf.
  - intros (h & info & Hrun & Hinfo).
    destruct (plugin_health_unreadable chat_manager "u1" user_dir
                manifest_directory_world) as (msg & Hr).
    { left. exists 4096%N. vm_compute. reflexivity. }
    rewrite Hr in Hrun. simpl in Hrun. injection Hrun as <-. discriminate Hinfo.
  - intros (f & v & Hf & Hv). vm_compute in Hf. injection Hf as <-.
    discriminate Hv.
  - intros (h & info & Hrun & Hinfo).
    destruct (plugin_health_unreadable chat_manager "u1" user_dir
                undecodable_manifest_world) as (msg & Hr).
    { right. eexists _, _. split; [vm_compute; reflexivity | reflexivity]. }
    rewrite Hr in Hrun. simpl in Hrun. injection Hrun as <-. discriminate Hinfo.
Qed.

(** C6, amended: [_get_plugin_health_impl] leaves the world as it found
    it and always returns a report.  The report is healthy exactly when
    the bundle exists with a size above zero and [package.json] parses
    as JSON.  When [package.json] is there and reading it fails (it is
    a directory, or a file that cannot be read or decoded), the report
    is unhealthy and its details hold an error message only.
    Otherwise the details hold the five fields, and what is missing is
    reported as a false field: the bundle (with size 0), a
    [package.json] that is absent or is not JSON, an [assets]
    directory, component files below [src]. *)
Theorem plugin_health_report self user_id plugin_dir w :
  let run := _get_plugin_health_impl self user_id plugin_dir w in
  snd run = w
  ∧ ∃ h, fst run = Returned h
    ∧ (healthy h = true ↔
         (∃ n, fs (files w) !! bundle_of plugin_dir = Some n ∧ (0 < node_size n)%N)
         ∧ parses w (package_json_of plugin_dir))
    ∧ (unreadable w (package_json_of plugin_dir) →
       healthy h = false ∧ ∃ msg, details h = HealthError msg)
    ∧ (¬ unreadable w (package_json_of plugin_dir) →
       ∃ info, details h = Info info
         ∧ (bundle_exists info = true
            ↔ is_Some (fs (files w) !! bundle_of plugin_dir))
         ∧ (fs (files w) !! bundle_of plugin_dir = None → bundle_size info = 0%N)
         ∧ (package_json_valid info = true ↔ parses w (package_json_of plugin_dir))
         ∧ (assets_present info = true ↔ is_directory w (plugin_dir ++ ["assets"]))
         ∧ (chat_components_present info = true
            ↔ is_directory w (plugin_dir ++ ["src"])
              ∧ has_component w (plugin_dir ++ ["src"]))).
Proof.
  cbv zeta.
  destruct (plugin_health_run self user_id plugin_dir w) as (h & Hrun & Hiff & Hinfo).
  rewrite Hrun. split; [reflexivity|]. exists h. split_and!; try done.
  intros Hun.
  destruct (plugin_health_unreadable self user_id plugin_dir w Hun) as (msg & Hr).
  rewrite Hr in Hrun. injection Hrun as <-. simpl. eauto.
Qed.
(** ** Installation validator *)

Lemma py_in_run field v w :
  py_in field v w =
    (match v with
     | JNull => Raised (Exn TypeError "argument of type 'NoneType' is not iterable")
     | JBool _ => Raised (Exn TypeError "argument of type 'bool' is not iterable")
     | JNumber _ => Raised (Exn TypeError "argument of type 'int' is not iterable")
     | _ => Returned (py_contains field v)
     end, w).
Proof. by destruct v. Qed.

Lemma find_missing_run plugin_dir w :
  find_missing plugin_dir ["package.json"; "dist/remoteEntry.js"] [] w =
    (Returned
       ((if exists_at w (package_json_of plugin_dir) then [] else ["package.json"])
        ++ (if exists_at w (bundle_of plugin_dir) then []
            else ["dist/remoteEntry.js"])), w).
Proof.
  unfold find_missing.
  rewrite (bind_returned _ _ _ _ _ (path_exists_run _ w)).
  rewrite (bind_returned _ _ _ _ _ (path_exists_run _ w)).
  rewrite joinpath_package_json, joinpath_bundle.
  by destruct (exists_at w (package_json_of plugin_dir)),
              (exists_at w (bundle_of plugin_dir)).
Qed.

Lemma py_in_searchable field v w :
  searchable v → py_in field v w = (Returned (py_contains field v), w).
Proof. by destruct v. Qed.

Lemma py_in_raises field v w :
  ¬ searchable v → ∃ msg, py_in field v w = (Raised (Exn TypeError msg), w).
Proof.
  destruct v; simpl; intros H; try (by destruct H); eexists; reflexivity.
Qed.

(** The field check on a value that is a dict, a list or a str. *)
Lemma check_fields_run v w :
  searchable v →
  ∃ r, check_fields ["name"; "version"] v w = (Returned r, w)
       ∧ (r = None ↔ py_contains "name" v = true ∧ py_contains "version" v = true)
       ∧ ∀ x, r = Some x → valid x = false ∧ is_Some (error x).
Proof.
  intros Hv. unfold check_fields.
  rewrite (bind_returned _ _ _ _ _ (py_in_searchable "name" v w Hv)).
  destruct (py_contains "name" v) eqn:Hn.
  - rewrite (bind_returned _ _ _ _ _ (py_in_searchable "version" v w Hv)).
    destruct (py_contains "version" v) eqn:Hver.
    + exists None. split; [reflexivity|]. split; [done|]. by intros x.
    + eexists. split; [reflexivity|]. split.
      * split; [done|]. by intros [_ ?].
      * intros x [= <-]. simpl. eauto.
  - eexists. split; [reflexivity|]. split.
    + split; [done|]. by intros [? _].
    + intros x [= <-]. simpl. eauto.
Qed.

Lemma py_contains_searchable field v : py_contains field v = true → searchable v.
Proof. by destruct v. Qed.

Lemma validate_package_json_run p w :
  ∃ o, validate_package_json p w = (o, w)
       ∧ (o = Returned None ↔ manifest_passes w p)
       ∧ ∀ x, o = Returned (Some x) → valid x = false ∧ is_Some (error x).
Proof.
  unfold validate_package_json, try_except, manifest_passes.
  unfold mbind at 1, M_bind at 1. rewrite load_json_run.
  destruct (fs (files w) !! p) as [[f|size]|] eqn:Hp.
  - destruct (json_load f) as [j|msg|msg] eqn:Hl.
    + destruct j eqn:Hj;
        try (destruct (check_fields_run j w) as (r & Hr & Hnone & Hsome);
             [by subst j|]; subst j; rewrite Hr; eexists; split; [reflexivity|];
             split;
             [ split;
               [ intros [= ->]; exists f; eexists; split; [reflexivity|];
                 split; [exact Hl|]; by apply Hnone
               | intros (f' & j' & [= <-] & Hl' & Hn & Hver);
                 rewrite Hl in Hl'; injection Hl' as <-;
                 f_equal; by apply Hnone ]
             | intros x [= ->]; by apply Hsome ]);
        (simpl; eexists; split; [reflexivity|]; split;
         [ split; [done|];
           intros (f' & j' & [= <-] & Hl' & Hn & _);
           rewrite Hl in Hl'; by injection Hl' as <-
         | by intros x ]).
    + simpl. eexists. split; [reflexivity|]. split.
      * split; [done|]. intros (f' & j' & [= <-] & Hl' & _). congruence.
      * intros x [= <-]. simpl. eauto.
    + simpl. eexists. split; [reflexivity|]. split; [|by intros x].
      split; [done|]. intros (f' & j' & [= <-] & Hl' & _). congruence.
  - simpl. eexists. split; [reflexivity|]. split; [|by intros x].
    split; [done|]. by intros (f' & j' & ? & _).
  - simpl. eexists. split; [reflexivity|]. split.
    + split; [done|]. by intros (f' & j' & ? & _).
    + intros x [= <-]. simpl. eauto.
Qed.

(** The validator returns a verdict and leaves the world alone; the
    verdict is "valid" exactly when both files are there, [package.json]
    loads to a value in which Python's [in] finds ["name"] and
    ["version"], and the size of the bundle is not zero. *)
Lemma validate_installation_run self user_id plugin_dir w :
  ∃ v, _validate_installation_impl self user_id plugin_dir w = (Returned v, w)
    ∧ (valid v = true ↔
         manifest_passes w (package_json_of plugin_dir)
         ∧ ∃ n, fs (files w) !! bundle_of plugin_dir = Some n
                ∧ node_size n ≠ 0%N)
    ∧ (valid v = false → is_Some (error v)).
Proof.
  unfold _validate_installation_impl, try_except.
  rewrite (bind_returned _ _ _ _ _ (find_missing_run plugin_dir w)).
  rewrite joinpath_dist_bundle, joinpath_package_json.
  set (pkg := package_json_of plugin_dir). set (bundle := bundle_of plugin_dir).
  destruct (validate_package_json_run pkg w) as (o & Ho & Hnone & Hsome).
  unfold exists_at.
  destruct (fs (files w) !! pkg) as [pk|] eqn:Hp.
  2:{ (* package.json is missing *)
      rewrite bool_decide_eq_false_2 by (by intros [? ?]).
      destruct (bool_decide _); simpl; eexists; (split; [reflexivity|]); simpl;
        (split; [|eauto]); (split; [done|]);
        intros [(f & j & Hf & _) _]; rewrite Hp in Hf; done. }
  rewrite bool_decide_eq_true_2 by eauto.
  destruct (fs (files w) !! bundle) as [bn|] eqn:Hb.
  2:{ (* the bundle is missing *)
      rewrite bool_decide_eq_false_2 by (by intros [? ?]).
      simpl. eexists. split; [reflexivity|]. simpl. split; [|eauto].
      split; [done|]. by intros [_ (n & ? & _)]. }
  rewrite bool_decide_eq_true_2 by eauto. simpl.
  unfold mbind at 1, M_bind at 1. rewrite Ho.
  destruct o as [[x|]|e].
  - (* the manifest block returned a verdict *)
    destruct (Hsome x eq_refl) as [Hx Herr]. simpl.
    eexists. split; [reflexivity|]. rewrite Hx. split; [|done].
    split; [done|]. intros [Hm _]. apply Hnone in Hm. done.
  - (* the manifest passes: the bundle decides *)
    rewrite (bind_returned _ _ _ _ _ (stat_size_run bundle w bn Hb)).
    destruct (node_size bn =? 0)%N eqn:Hz.
    + apply N.eqb_eq in Hz. eexists. split; [reflexivity|]. simpl.
      split; [|eauto]. split; [done|].
      intros [_ (n & [= <-] & Hn)]. done.
    + apply N.eqb_neq in Hz. eexists. split; [reflexivity|]. simpl.
      split; [|done]. split; [|done]. intros _.
      split; [by apply Hnone | eauto].
  - (* an exception the block does not catch *)
    simpl. eexists. split; [reflexivity|]. simpl. split; [|eauto].
    split; [done|]. intros [Hm _]. apply Hnone in Hm. done.
Qed.

(** C5: the target directory holds a bundle of 2048 bytes and a
    [package.json] whose text is the JSON array [["name", "version"]],
    a manifest with no field at all; the validator returns
    [{'valid': True}]. *)
Theorem validator_accepts_array_manifest :
  fst (_validate_installation_impl chat_manager "u1" user_dir array_manifest_world)
  = Returned {| valid := true; error := None |}
  ∧ ¬ has_field "name" array_manifest
  ∧ ¬ has_field "version" array_manifest.
Proof.
  split; [vm_compute; reflexivity|].
  split; by intros (members & ? & _).
Qed.

(** ** File synchronizer *)

Lemma bind_inv {A B : Type} (m : M A) (k : A → M B) w b w' :
  (m ≫= k) w = (Returned b, w') →
  ∃ a w1, m w = (Returned a, w1) ∧ k a w1 = (Returned b, w').
Proof.
  unfold mbind, M_bind. destruct (m w) as [[a|e] w1]; [eauto|done].
Qed.

Lemma same_but_fs_refl w : same_but_fs w w.
Proof. by repeat split. Qed.

Lemma same_but_fs_trans w1 w2 w3 :
  same_but_fs w1 w2 → same_but_fs w2 w3 → same_but_fs w1 w3.
Proof.
  intros (? & ? & ? & ? & ?) (? & ? & ? & ? & ?).
  repeat split; congruence.
Qed.

Section WritesFilesOnly.

Context {A B : Type}.

Lemma wfo_ret (a : A) : writes_files_only (mret a : M A).
Proof. intros w. apply same_but_fs_refl. Qed.

Lemma wfo_raise (e : exn) : writes_files_only (raise e : M A).
Proof. intros w. apply same_but_fs_refl. Qed.

Lemma wfo_bind (m : M A) (k : A → M B) :
  writes_files_only m → (∀ a, writes_files_only (k a)) →
  writes_files_only (m ≫= k).
Proof.
  intros Hm Hk w. unfold mbind, M_bind.
  specialize (Hm w). destruct (m w) as [[a|e] w1]; [|exact Hm].
  eapply same_but_fs_trans; [exact Hm | apply Hk].
Qed.

Lemma wfo_try (m : M A) (h : exn → M A) :
  writes_files_only m → (∀ e, writes_files_only (h e)) →
  writes_files_only (try_except m h).
Proof.
  intros Hm Hh w. unfold try_except.
  specialize (Hm w). destruct (m w) as [[a|e] w1]; [exact Hm|].
  eapply same_but_fs_trans; [exact Hm | apply Hh].
Qed.

End WritesFilesOnly.

Lemma wfo_lookup_node p : writes_files_only (lookup_node p).
Proof. intros w. apply same_but_fs_refl. Qed.

Lemma wfo_os_check p : writes_files_only (os_check p).
Proof.
  intros w. unfold os_check. destruct (os_error (files w) p);
    apply same_but_fs_refl.
Qed.

Lemma wfo_write_node p n : writes_files_only (write_node p n).
Proof. intros w. by repeat split. Qed.

Lemma wfo_remove_node p : writes_files_only (remove_node p).
Proof. intros w. by repeat split. Qed.

Lemma wfo_path_exists p : writes_files_only (path_exists p).
Proof. intros w. apply same_but_fs_refl. Qed.

Create HintDb wfo.
#[local] Hint Resolve wfo_ret wfo_raise wfo_lookup_node wfo_os_check wfo_write_node
  wfo_remove_node wfo_path_exists : wfo.

Ltac wfo :=
  repeat first
    [ apply wfo_bind; [|intros ?]
    | apply wfo_try; [|intros ?]
    | progress auto with wfo
    | match goal with
      | |- writes_files_only (match ?x with _ => _ end) => destruct x
      | |- writes_files_only (if ?x then _ else _) => destruct x
      end ].

Lemma wfo_mkdir_from rest : ∀ base, writes_files_only (mkdir_from base rest).
Proof.
  induction rest as [|c rest IH]; intros base; simpl; wfo.
Qed.

Lemma wfo_mkdir_parents p : writes_files_only (mkdir_parents p).
Proof. apply wfo_mkdir_from. Qed.

Lemma wfo_unlink p : writes_files_only (unlink p).
Proof. unfold unlink. wfo. Qed.

Lemma wfo_unlink_on_update update p : writes_files_only (unlink_on_update update p).
Proof. unfold unlink_on_update. pose proof (wfo_unlink p). wfo. Qed.

Lemma wfo_copy2 src_name f dst : writes_files_only (copy2 src_name f dst).
Proof. unfold copy2. wfo. Qed.

#[local] Hint Resolve wfo_mkdir_parents wfo_unlink_on_update wfo_copy2 : wfo.

Lemma wfo_copy_item target_dir update p item copied :
  writes_files_only (copy_item target_dir update p item copied).
Proof. unfold copy_item. wfo. Qed.

#[local] Hint Resolve wfo_copy_item : wfo.

Lemma wfo_copy_items target_dir update items :
  ∀ copied, writes_files_only (copy_items target_dir update items copied).
Proof.
  induction items as [|[p item] items IH]; intros copied; simpl; wfo.
Qed.

(** *** The loop over the items *)

(** One item: whatever happens inside the [try] block, the loop body
    returns, and the list of copied files is as before or longer by the
    item's path. *)
Lemma copy_item_run target_dir update p item copied w :
  ∃ copied' w',
    copy_item target_dir update p item copied w = (Returned copied', w')
    ∧ (copied' = copied
       ∨ ∃ f, item = File f ∧ copied' = copied ++ [path_str p]).
Proof.
  unfold copy_item, try_except.
  match goal with |- context [let (o, w') := ?body w in _] =>
    destruct (body w) as [[c|e] w1] eqn:Hbody
  end.
  - exists c, w1. split; [reflexivity|].
    destruct item as [f|size].
    + apply bind_inv in Hbody as (? & ? & _ & Hbody).
      apply bind_inv in Hbody as (? & ? & _ & Hbody).
      apply bind_inv in Hbody as (? & ? & _ & Hbody).
      injection Hbody as <- _. right. eauto.
    + apply bind_inv in Hbody as (? & ? & _ & Hbody).
      injection Hbody as <- _. by left.
  - exists copied, w1. split; [reflexivity|]. by left.
Qed.

Lemma is_own_true p : is_own p = true ↔ p = ["lifecycle_manager.py"].
Proof.
  unfold is_own, path_eqb. rewrite andb_true_iff, bool_decide_eq_true.
  split; [by intros [_ ?] | by intros ->].
Qed.

(** The loop always reaches its end, and what it adds to the list are
    paths of files of the source tree that pass [should_copy] and are not
    the installer's own file. *)
Lemma copy_items_run target_dir update items : ∀ copied w,
  ∃ added w',
    copy_items target_dir update items copied w = (Returned (copied ++ added), w')
    ∧ Forall (λ entry, ∃ p f, entry = path_str p
                              ∧ (p, File f) ∈ items
                              ∧ should_copy p = true
                              ∧ p ≠ ["lifecycle_manager.py"]) added.
Proof.
  induction items as [|[p item] items IH]; intros copied w.
  - exists [], w. split; [by rewrite app_nil_r | constructor].
  - simpl. fold (is_own p).
    assert (∀ added w',
              copy_items target_dir update items copied w
              = (Returned (copied ++ added), w') →
              Forall (λ entry, ∃ p0 f, entry = path_str p0
                                       ∧ (p0, File f) ∈ items
                                       ∧ should_copy p0 = true
                                       ∧ p0 ≠ ["lifecycle_manager.py"]) added →
              Forall (λ entry, ∃ p0 f, entry = path_str p0
                                       ∧ (p0, File f) ∈ (p, item) :: items
                                       ∧ should_copy p0 = true
                                       ∧ p0 ≠ ["lifecycle_manager.py"]) added)
      as Hweaken.
    { intros added w' _ Hall. eapply Forall_impl; [exact Hall|].
      intros entry (p0 & f & ? & ? & ? & ?). exists p0, f.
      split; [done|]. split; [by right|]. done. }
    destruct (is_own p) eqn:Hown.
    { destruct (IH copied w) as (added & w' & Hrun & Hall).
      exists added, w'. split; [exact Hrun|]. by eapply Hweaken. }
    destruct (should_copy p) eqn:Hcopy; simpl.
    2:{ destruct (IH copied w) as (added & w' & Hrun & Hall).
        exists added, w'. split; [exact Hrun|]. by eapply Hweaken. }
    destruct (copy_item_run target_dir update p item copied w)
      as (copied' & w1 & Hitem & Hcopied).
    rewrite (bind_returned _ _ _ _ _ Hitem).
    destruct (IH copied' w1) as (added & w' & Hrun & Hall).
    assert (Forall (λ entry, ∃ p0 f, entry = path_str p0
                                     ∧ (p0, File f) ∈ (p, item) :: items
                                     ∧ should_copy p0 = true
                                     ∧ p0 ≠ ["lifecycle_manager.py"]) added)
      as Hall'.
    { eapply Forall_impl; [exact Hall|].
      intros entry (p0 & f & ? & ? & ? & ?). exists p0, f.
      split; [done|]. split; [by right|]. done. }
    destruct Hcopied as [->|(f & -> & ->)].
    + exists added, w'. by split.
    + exists (path_str p :: added), w'. split.
      * by rewrite Hrun, <- app_assoc.
      * constructor; [|exact Hall'].
        exists p, f. split; [done|]. split; [by left|]. split; [done|].
        intros ->. by rewrite (proj2 (is_own_true _) eq_refl) in Hown.
Qed.

(** Going through a list of items is going through its first part and
    then, from where that ended, through the rest. *)
Lemma copy_items_app target_dir update before after : ∀ copied w,
  copy_items target_dir update (before ++ after) copied w =
    match copy_items target_dir update before copied w with
    | (Returned copied1, w1) => copy_items target_dir update after copied1 w1
    | (Raised e, w1) => (Raised e, w1)
    end.
Proof.
  induction before as [|[p item] before IH]; intros copied w; [done|].
  simpl. destruct (_ && _); [apply IH|].
  destruct (negb (should_copy p)); [apply IH|].
  destruct (copy_item_run target_dir update p item copied w)
    as (copied' & w1 & Hitem & _).
  rewrite !(bind_returned _ _ _ _ _ Hitem). apply IH.
Qed.

(** *** What is left out *)

Lemma mem_true x l : Py.mem x l = true ↔ x ∈ l.
Proof.
  unfold Py.mem. rewrite existsb_exists, list_elem_of_In. split.
  - intros (y & Hy & Heq). apply String.eqb_eq in Heq. by subst.
  - intros H. exists x. split; [done|]. apply String.eqb_refl.
Qed.

(** Only the pattern [*.pyc] holds a star. *)
Lemma suffix_patterns nm :
  existsb (λ pattern,
             Py.has_char "*" pattern
             && Py.endswith nm (Py.remove_char "*" pattern))
    exclude_patterns
  = Py.endswith nm ".pyc".
Proof.
  unfold exclude_patterns. simpl existsb.
  change (Py.has_char "*" "node_modules") with false.
  change (Py.has_char "*" "package-lock.json") with false.
  change (Py.has_char "*" ".git") with false.
  change (Py.has_char "*" ".gitignore") with false.
  change (Py.has_char "*" "__pycache__") with false.
  change (Py.has_char "*" "*.pyc") with true.
  change (Py.has_char "*" ".DS_Store") with false.
  change (Py.has_char "*" "Thumbs.db") with false.
  change (Py.remove_char "*" "*.pyc") with ".pyc".
  simpl. by rewrite orb_false_r.
Qed.

(** [should_copy] turns away exactly the excluded paths. *)
Lemma should_copy_excluded p : should_copy p = false ↔ excluded p.
Proof.
  unfold should_copy, excluded. rewrite suffix_patterns.
  destruct (existsb _ p) eqn:Hparts.
  - split; [|done]. intros _. left.
    apply existsb_exists in Hparts as (part & Hin & Hmem).
    exists part. split; [by apply list_elem_of_In | by apply mem_true].
  - destruct (Py.endswith (name p) ".pyc") eqn:Hname.
    + split; [by right | done].
    + split; [done|]. intros [(part & Hin & Hmem)|?]; [|done].
      assert (existsb (λ part, Py.mem part exclude_patterns) p = true) as Habs.
      { apply existsb_exists. exists part.
        split; [by apply list_elem_of_In | by apply mem_true]. }
      congruence.
Qed.

Lemma has_char_append c a b :
  Py.has_char c (a +:+ b) = Py.has_char c a || Py.has_char c b.
Proof.
  induction a as [|d a IH]; simpl; [done|]. by rewrite IH, orb_assoc.
Qed.

(** A path of two components or more is written with a slash. *)
Lemma join_slash x y rest :
  Py.has_char "/" (Py.join "/" (x :: y :: rest)) = true.
Proof.
  unfold Py.join. change (String.concat "/" (x :: y :: rest))
    with (x +:+ "/" +:+ String.concat "/" (y :: rest)).
  rewrite !has_char_append. simpl. by rewrite orb_true_r.
Qed.

(** Only the path [lifecycle_manager.py] is written
    ["lifecycle_manager.py"]. *)
Lemma path_str_own p : path_str p = own_file → p = [own_file].
Proof.
  unfold path_str, own_file. destruct p as [|x [|y rest]].
  - done.
  - simpl. by intros ->.
  - intros H. pose proof (join_slash x y rest) as Hs. rewrite H in Hs. done.
Qed.

(** *** What the target holds *)

Section Keeps.

Context {A B : Type} (I : World → Prop).

Lemma keeps_ret (a : A) : keeps I (mret a : M A).
Proof. by intros w. Qed.

Lemma keeps_raise (e : exn) : keeps I (raise e : M A).
Proof. by intros w. Qed.

Lemma keeps_bind (m : M A) (k : A → M B) :
  keeps I m → (∀ a, keeps I (k a)) → keeps I (m ≫= k).
Proof.
  intros Hm Hk w Hw. unfold mbind, M_bind.
  specialize (Hm w Hw). destruct (m w) as [[a|e] w1]; [|exact Hm].
  by apply Hk.
Qed.

Lemma keeps_try (m : M A) (h : exn → M A) :
  keeps I m → (∀ e, keeps I (h e)) → keeps I (try_except m h).
Proof.
  intros Hm Hh w Hw. unfold try_except.
  specialize (Hm w Hw). destruct (m w) as [[a|e] w1]; [exact Hm|].
  by apply Hh.
Qed.

End Keeps.

Lemma keeps_run {A : Type} (I : World → Prop) (m : M A) w o w' :
  keeps I m → I w → m w = (o, w') → I w'.
Proof. intros Hm Hw Hrun. specialize (Hm w Hw). by rewrite Hrun in Hm. Qed.

Lemma keeps_lookup_node I p : keeps I (lookup_node p).
Proof. by intros w. Qed.

Lemma keeps_path_exists I p : keeps I (path_exists p).
Proof. by intros w. Qed.

Lemma keeps_os_check I p : keeps I (os_check p).
Proof. intros w Hw. unfold os_check. by destruct (os_error (files w) p). Qed.

Lemma not_dir_write_file P q f : keeps (not_dir P) (write_node q (File f)).
Proof.
  intros w Hw size. simpl.
  destruct (decide (q = P)) as [->|Hne].
  - by rewrite lookup_insert_eq.
  - rewrite lookup_insert_ne by done. apply Hw.
Qed.

Lemma not_dir_write_other P q n : q ≠ P → keeps (not_dir P) (write_node q n).
Proof.
  intros Hne w Hw size. simpl. rewrite lookup_insert_ne by done. apply Hw.
Qed.

Lemma not_dir_remove P q : keeps (not_dir P) (remove_node q).
Proof.
  intros w Hw size. simpl.
  destruct (decide (q = P)) as [->|Hne].
  - by rewrite lookup_delete_eq.
  - rewrite lookup_delete_ne by done. apply Hw.
Qed.

(** [mkdir] makes no directory of a path it does not go through. *)
Lemma not_dir_mkdir_from P rest : ∀ base,
  ¬ (base `prefix_of` P ∧ P `prefix_of` base ++ rest) →
  keeps (not_dir P) (mkdir_from base rest).
Proof.
  assert (∀ (base : path) (n : option node), base ≠ P →
            keeps (not_dir P)
              (match n with
               | Some (Dir _) => mret tt
               | Some (File _) => raise (Exn OSError "File exists")
               | None => os_check base;; write_node base (Dir 0)
               end)) as Hstep.
  { intros base [[f|size]|] Hne; [apply keeps_raise | apply keeps_ret |].
    apply keeps_bind; [apply keeps_os_check|]. intros _.
    by apply not_dir_write_other. }
  induction rest as [|c rest IH]; intros base Hout; simpl.
  - apply keeps_bind; [apply keeps_lookup_node|]. intros n.
    apply keeps_bind; [|intros []; apply keeps_ret].
    apply Hstep. intros ->. apply Hout. split; [done|]. by rewrite app_nil_r.
  - apply keeps_bind; [apply keeps_lookup_node|]. intros n.
    apply keeps_bind.
    + apply Hstep. intros ->. apply Hout. split; [done|]. by apply prefix_app_r.
    + intros []. apply IH. intros [H1 H2]. apply Hout. split.
      * etrans; [|exact H1]. by apply prefix_app_r.
      * by rewrite <- app_assoc in H2.
Qed.

Lemma not_dir_mkdir_parents P p :
  ¬ P `prefix_of` p → keeps (not_dir P) (mkdir_parents p).
Proof.
  intros H. apply not_dir_mkdir_from. by intros [_ ?].
Qed.

Lemma not_dir_unlink_on_update P update p :
  keeps (not_dir P) (unlink_on_update update p).
Proof.
  unfold unlink_on_update. destruct update; [|apply keeps_ret].
  apply keeps_bind; [apply keeps_path_exists|]. intros [|]; [|apply keeps_ret].
  unfold unlink. apply keeps_bind; [apply keeps_lookup_node|].
  intros [[f|size]|]; [|apply keeps_raise..].
  apply keeps_bind; [apply keeps_os_check|]. intros _. apply not_dir_remove.
Qed.

Lemma not_dir_copy2 P src_name f dst : keeps (not_dir P) (copy2 src_name f dst).
Proof.
  unfold copy2. apply keeps_bind; [apply keeps_lookup_node|]. intros n.
  apply keeps_bind; [apply keeps_lookup_node|].
  intros [[f'|size]|]; [|apply keeps_raise|];
    (apply keeps_bind; [apply keeps_os_check|]; intros _; apply not_dir_write_file).
Qed.

Lemma removelast_prefix {A : Type} (l : list A) : removelast l `prefix_of` l.
Proof.
  destruct l as [|x l]; [done|].
  exists [List.last (x :: l) x]. by apply app_removelast_last.
Qed.

(** An item that is neither the installer's file nor below it leaves the
    target's [lifecycle_manager.py] what it was, if not a directory. *)
Lemma not_dir_copy_item target_dir update p item copied :
  ¬ [own_file] `prefix_of` p →
  keeps (not_dir (target_dir ++ [own_file]))
    (copy_item target_dir update p item copied).
Proof.
  intros Hp. unfold copy_item.
  assert (¬ target_dir ++ [own_file] `prefix_of` target_dir ++ p) as Hout.
  { intros H. by apply prefix_app_inv in H. }
  apply keeps_try; [|intros e; apply keeps_ret].
  destruct item as [f|size].
  - apply keeps_bind.
    { apply not_dir_mkdir_parents. intros H. apply Hout.
      etrans; [exact H | apply removelast_prefix]. }
    intros _. apply keeps_bind; [apply not_dir_unlink_on_update|].
    intros _. apply keeps_bind; [apply not_dir_copy2|].
    intros _. apply keeps_ret.
  - apply keeps_bind; [by apply not_dir_mkdir_parents|].
    intros _. apply keeps_ret.
Qed.

Lemma not_dir_copy_items target_dir update items :
  (∀ c rest n, (own_file :: c :: rest, n) ∉ items) →
  ∀ copied,
    keeps (not_dir (target_dir ++ [own_file]))
      (copy_items target_dir update items copied).
Proof.
  induction items as [|[p item] items IH]; intros Hbelow copied; simpl.
  { apply keeps_ret. }
  assert (∀ copied, keeps (not_dir (target_dir ++ [own_file]))
                      (copy_items target_dir update items copied)) as IH'.
  { apply IH. intros c rest n Hin. apply (Hbelow c rest n). by right. }
  fold (is_own p). destruct (is_own p) eqn:Hown; [apply IH'|].
  destruct (negb (should_copy p)); [apply IH'|].
  apply keeps_bind; [|intros ?; apply IH'].
  apply not_dir_copy_item. intros [tl ->].
  destruct tl as [|c rest].
  - change ([own_file] ++ []) with ["lifecycle_manager.py"] in Hown.
    by rewrite (proj2 (is_own_true _) eq_refl) in Hown.
  - apply (Hbelow c rest item). by left.
Qed.

(** The block after the loop puts the installer's file at
    [lifecycle_manager.py] of the target when no directory is in the way. *)
Lemma copy_lifecycle_manager_target target_dir update copied w f listed w' :
  lifecycle_manager_source w = Some (File f) →
  not_dir (target_dir ++ [own_file]) w →
  copy_lifecycle_manager target_dir update copied w = (Returned listed, w') →
  fs (files w') !! (target_dir ++ [own_file]) = Some (File f).
Proof.
  intros Hsrc Hnd Hrun. unfold copy_lifecycle_manager in Hrun.
  unfold mbind at 1, M_bind at 1, get_world in Hrun. rewrite Hsrc in Hrun.
  apply bind_inv in Hrun as ([] & w1 & Hmk & Hrun).
  apply bind_inv in Hrun as ([] & w2 & Hun & Hrun).
  apply bind_inv in Hrun as ([] & w3 & Hcp & Hrun).
  injection Hrun as _ <-.
  unfold own_file in *.
  assert (not_dir (target_dir ++ ["lifecycle_manager.py"]) w2) as Hnd2.
  { eapply keeps_run; [apply not_dir_unlink_on_update | | exact Hun].
    eapply keeps_run; [| exact Hnd | exact Hmk].
    apply not_dir_mkdir_parents. unfold parent.
    rewrite removelast_last. apply prefix_snoc_not. }
  unfold copy2 in Hcp. unfold path in *.
  apply bind_inv in Hcp as (n & w4 & Hn & Hcp). injection Hn as <- <-.
  destruct (fs (files w2) !! (target_dir ++ ["lifecycle_manager.py"]))
    as [[f'|size]|] eqn:Hat; [| by destruct (Hnd2 size) |];
    apply bind_inv in Hcp as (n' & w5 & Hn' & Hcp);
    unfold lookup_node in Hn'; cbn beta iota in Hn'; unfold path in *;
    rewrite Hat in Hn', Hcp; cbn beta iota in Hn', Hcp; rewrite Hat in Hn';
    injection Hn' as <- <-; cbn beta iota in Hcp;
    apply bind_inv in Hcp as ([] & w6 & Hos & Hcp);
    unfold os_check in Hos; destruct (os_error _ _); [done| |done|];
    injection Hos as <-; injection Hcp as <-; simpl; apply lookup_insert_eq.
Qed.

(** *** The synchronizer as a whole *)

Lemma copy_lifecycle_manager_listed target_dir update copied w listed w' :
  copy_lifecycle_manager target_dir update copied w = (Returned listed, w') →
  match lifecycle_manager_source w with
  | Some _ => listed = copied ++ [own_file]
  | None => listed = copied ∧ w' = w
  end.
Proof.
  unfold copy_lifecycle_manager.
  unfold mbind at 1, M_bind at 1, get_world.
  destruct (lifecycle_manager_source w) as [source|].
  - intros Hrun.
    apply bind_inv in Hrun as ([] & w1 & _ & Hrun).
    apply bind_inv in Hrun as ([] & w2 & _ & Hrun).
    apply bind_inv in Hrun as ([] & w3 & _ & Hrun).
    by injection Hrun as <- _.
  - by intros [= <- <-].
Qed.

(** The run of [_copy_plugin_files_impl]: the loop, then the end of the
    traversal, then the installer's own file; only an exception of the
    last two makes the result a failure. *)
Lemma copy_plugin_files_run self user_id target_dir update w :
  ∃ added w1,
    copy_items target_dir update (source_files (files w)) [] w = (Returned added, w1)
    ∧ same_but_fs w w1
    ∧ Forall (λ entry, ∃ p f, entry = path_str p
                              ∧ (p, File f) ∈ source_files (files w)
                              ∧ should_copy p = true
                              ∧ p ≠ ["lifecycle_manager.py"]) added
    ∧ _copy_plugin_files_impl self user_id target_dir update w =
        match source_scan_error (files w) with
        | Some msg => (Returned (Failure msg), w1)
        | None =>
            match copy_lifecycle_manager target_dir update added w1 with
            | (Returned listed, w2) => (Returned (Success listed), w2)
            | (Raised e, w2) => (Returned (Failure (exn_str e)), w2)
            end
        end.
Proof.
  destruct (copy_items_run target_dir update (source_files (files w)) [] w)
    as (added & w1 & Hloop & Hadded).
  simpl in Hloop. exists added, w1.
  pose proof (wfo_copy_items target_dir update (source_files (files w)) [] w)
    as Hsame.
  rewrite Hloop in Hsame. simpl in Hsame.
  split; [exact Hloop|]. split; [exact Hsame|]. split; [exact Hadded|].
  unfold _copy_plugin_files_impl, try_except.
  unfold mbind at 1, M_bind at 1, get_world.
  rewrite (bind_returned _ _ _ _ _ Hloop).
  unfold end_of_scan, mbind at 1, M_bind at 1, mbind at 1, M_bind at 1, get_world.
  destruct Hsame as (_ & _ & _ & -> & _).
  destruct (source_scan_error (files w)) as [msg|]; [reflexivity|].
  simpl. unfold mbind, M_bind.
  by destruct (copy_lifecycle_manager target_dir update added w1) as [[listed|e] w2].
Qed.

Lemma own_file_copied : ¬ excluded [own_file].
Proof. intros H. by apply should_copy_excluded in H. Qed.
(** * Further properties of the record store *)

Lemma first_fault_app a : ∀ fates b,
  first_fault (take (a + b) fates) = None
  ↔ first_fault (take a fates) = None
    ∧ first_fault (take b (drop a fates)) = None.
Proof.
  induction a as [|a IH]; intros fates b; simpl.
  - by split; [|intros [_ ?]].
  - destruct fates as [|[msg|] fates]; simpl.
    + rewrite !take_nil. by destruct b.
    + by split; [|intros [? _]].
    + apply IH.
Qed.

(** ** Session calls leave the files and the clock alone *)

Lemma keeps_execute w0 q : keeps (outside_db w0) (execute q).
Proof.
  intros [d ck fl base] H. unfold execute, announce. simpl.
  destruct (script d) as [|[msg|] sc]; simpl; try done;
    by destruct (run_query q _).
Qed.

Lemma keeps_commit w0 : keeps (outside_db w0) commit.
Proof.
  intros [d ck fl base] H. unfold commit, announce. simpl.
  by destruct (script d) as [|[msg|] sc].
Qed.

Lemma keeps_rollback w0 : keeps (outside_db w0) rollback.
Proof. by intros [d ck fl base] H. Qed.

Lemma keeps_datetime_now I : keeps I datetime_now.
Proof. by intros w. Qed.

Lemma keeps_datetime_datetime_now I : keeps I datetime_datetime_now.
Proof. intros w H. unfold datetime_datetime_now. by destruct (imported_base w). Qed.

Lemma keeps_fetchone_0 I rs : keeps I (fetchone_0 rs).
Proof. destruct rs; by intros w. Qed.

Lemma keeps_insert_modules w0 pid now mods :
  ∀ acc, keeps (outside_db w0) (insert_modules pid now mods acc).
Proof.
  induction mods as [|m mods IH]; intros acc; simpl; [by intros w|].
  apply keeps_bind; [apply keeps_execute|]. intros rs.
  apply keeps_bind; [apply keeps_fetchone_0|]. intros id. apply IH.
Qed.

Lemma keeps_create w0 self user_id :
  keeps (outside_db w0) (_create_database_records self user_id).
Proof.
  unfold _create_database_records. apply keeps_try.
  - apply keeps_bind; [apply keeps_datetime_datetime_now|]. intros now.
    apply keeps_bind; [apply keeps_execute|]. intros rs.
    apply keeps_bind; [apply keeps_fetchone_0|]. intros id.
    apply keeps_bind; [apply keeps_insert_modules|]. intros created.
    apply keeps_bind; [apply keeps_commit|]. intros _. by intros w.
  - intros e. apply keeps_bind; [apply keeps_rollback|]. intros _. by intros w.
Qed.

Lemma keeps_delete w0 self user_id plugin_id :
  keeps (outside_db w0) (_delete_database_records self user_id plugin_id).
Proof.
  unfold _delete_database_records. apply keeps_try.
  - apply keeps_bind; [apply keeps_execute|]. intros rs.
    apply keeps_bind; [apply keeps_execute|]. intros _.
    apply keeps_bind; [apply keeps_execute|]. intros _.
    apply keeps_bind; [apply keeps_commit|]. intros _. by intros w.
  - intros e. apply keeps_bind; [apply keeps_rollback|]. intros _. by intros w.
Qed.

Lemma keeps_lookup w0 self user_id :
  keeps (outside_db w0) (_check_existing_plugin self user_id).
Proof.
  unfold _check_existing_plugin. apply keeps_try; [|by intros e w].
  apply keeps_bind; [apply keeps_execute|]. intros _.
  apply keeps_bind; [apply keeps_execute|]. intros rs.
  destruct (fetchone rs); by intros w.
Qed.

Lemma keeps_perform_installation w0 self user_id shared :
  keeps (outside_db w0) (_perform_user_installation self user_id shared).
Proof.
  unfold _perform_user_installation. apply keeps_try; [|by intros e w].
  apply keeps_bind; [apply keeps_create|]. intros [msg|created]; by intros w.
Qed.

Lemma keeps_perform_uninstallation w0 self user_id :
  keeps (outside_db w0) (_perform_user_uninstallation self user_id).
Proof.
  unfold _perform_user_uninstallation. apply keeps_try; [|by intros e w].
  apply keeps_bind; [apply keeps_lookup|]. intros [id info|err]; [|by intros w].
  apply keeps_bind; [apply keeps_delete|]. intros [msg|deleted]; by intros w.
Qed.

Lemma keeps_install w0 self user_id shared :
  keeps (outside_db w0) (install_for_user self user_id shared).
Proof.
  unfold install_for_user. case_bool_decide; [by intros w|].
  apply keeps_bind; [apply keeps_perform_installation|]. intros r.
  destruct (success r); [|by intros w].
  apply keeps_bind; [apply keeps_datetime_now|]. by intros now w.
Qed.

Lemma keeps_uninstall w0 self user_id :
  keeps (outside_db w0) (uninstall_for_user self user_id).
Proof.
  unfold uninstall_for_user. case_bool_decide; [by intros w|].
  apply keeps_bind; [apply keeps_perform_uninstallation|]. intros r.
  destruct (success r); [|by intros w].
  apply keeps_bind; [apply keeps_datetime_now|]. by intros now w.
Qed.

(** X1: neither installation nor removal for a user writes a file or
    touches the source tree: whatever the database answers, the files of
    the world are the same after [install_for_user] and after
    [uninstall_for_user]. *)
Theorem lifecycle_leaves_files_alone self user_id shared_plugin_path w :
  files (snd (install_for_user self user_id shared_plugin_path w)) = files w
  ∧ files (snd (uninstall_for_user self user_id w)) = files w.
Proof.
  split.
  - by apply (keeps_install w self user_id shared_plugin_path w).
  - by apply (keeps_uninstall w self user_id w).
Qed.
(** ** Installation and removal, step by step *)

Lemma uninstall_for_user_run self user_id w :
  user_id ∈ active_users self →
  uninstall_for_user self user_id w =
    match _perform_user_uninstallation self user_id w with
    | (Returned (Success r), w1) =>
        (Returned (Success r,
                   set_active (active_users self ∖ {[user_id]}) (clock w1) self), w1)
    | (Returned (Failure msg), w1) => (Returned (Failure msg, self), w1)
    | (Raised e, w1) => (Raised e, w1)
    end.
Proof.
  intros Hin. unfold uninstall_for_user.
  rewrite bool_decide_eq_false_2 by (intros Hn; by apply Hn).
  unfold mbind at 1, M_bind at 1.
  by destruct (_perform_user_uninstallation self user_id w)
    as [[[msg|r]|e] w1].
Qed.

(** Removal when the lookup finds the plugin: the deletion decides. *)
Lemma perform_user_uninstallation_found self user_id w plugin_id info :
  fst (_check_existing_plugin self user_id w) = Returned (Found plugin_id info) →
  _perform_user_uninstallation self user_id w =
    (match fst (_delete_database_records self user_id plugin_id
                  (snd (_check_existing_plugin self user_id w))) with
     | Returned (Failure msg) => Returned (Failure msg)
     | Returned (Success deleted) =>
         Returned (Success {| uninst_plugin_id := plugin_id;
                              uninst_deleted_modules := deleted |})
     | Raised e => Returned (Failure (exn_str e))
     end,
     snd (_delete_database_records self user_id plugin_id
            (snd (_check_existing_plugin self user_id w)))).
Proof.
  intros H. apply run_eq in H. unfold _perform_user_uninstallation, try_except.
  rewrite (bind_returned _ _ _ _ _ H). unfold mbind, M_bind.
  by destruct (_delete_database_records self user_id plugin_id _)
    as [[[msg|deleted]|e] w1].
Qed.

(** X2: an installation that fails leaves no trace: when
    [install_for_user] returns a failure, the committed tables are those
    of before and the manager is unchanged (the user is not recorded as
    active). *)
Theorem failed_install_leaves_no_trace self user_id shared_plugin_path w msg self' w' :
  install_for_user self user_id shared_plugin_path w
    = (Returned (Failure msg, self'), w') →
  committed (db w') = committed (db w) ∧ self' = self.
Proof.
  intros Hrun. destruct (decide (user_id ∈ active_users self)) as [Hin|Hout].
  - rewrite (install_for_user_active _ _ _ _ Hin) in Hrun. by injection Hrun as _ <- <-.
  - rewrite (install_for_user_run _ _ _ _ Hout), perform_user_installation_run in Hrun.
    pose proof (create_database_records_run self user_id w) as Hc. cbv zeta in Hc.
    destruct (imported_base w).
    + destruct (first_fault _) in Hc.
      * destruct Hc as (Hf & Hcm & _). rewrite Hf in Hrun.
        by injection Hrun as _ <- <-.
      * destruct Hc as (Hf & _). rewrite Hf in Hrun. done.
    + destruct Hc as (Hf & Hcm & _). rewrite Hf in Hrun.
      by injection Hrun as _ <- <-.
Qed.

(** X3: a removal that fails deletes nothing for good: when
    [uninstall_for_user] returns a failure, the committed tables are those
    of before and the manager is unchanged (the user stays active). *)
Theorem failed_uninstall_leaves_no_trace self user_id w msg self' w' :
  uninstall_for_user self user_id w = (Returned (Failure msg, self'), w') →
  committed (db w') = committed (db w) ∧ self' = self.
Proof.
  intros Hrun. destruct (decide (user_id ∈ active_users self)) as [Hin|Hout].
  2:{ unfold uninstall_for_user in Hrun.
      rewrite bool_decide_eq_true_2 in Hrun by done. by injection Hrun as _ <- <-. }
  rewrite (uninstall_for_user_run _ _ _ Hin) in Hrun.
  pose proof (check_existing_plugin_run self user_id w) as Hl. cbv zeta in Hl.
  destruct Hl as [(Hcm & _) Hl].
  destruct (fst (_check_existing_plugin self user_id w)) as [[id info|err]|e] eqn:Hlook.
  - rewrite (perform_user_uninstallation_found _ _ _ _ _ Hlook) in Hrun.
    pose proof (delete_database_records_transaction self user_id id
                  (snd (_check_existing_plugin self user_id w))) as Hd.
    cbv zeta in Hd. destruct Hd as (_ & _ & Hd).
    destruct (first_fault _) in Hd.
    + destruct Hd as (Hf & Hcm' & _). rewrite Hf in Hrun.
      injection Hrun as _ <- <-. split; [|done]. by rewrite Hcm'.
    + destruct Hd as (Hf & _). rewrite Hf in Hrun. done.
  - rewrite (perform_user_uninstallation_not_found _ _ _ _ Hlook) in Hrun.
    by injection Hrun as _ <- <-.
  - exfalso. destruct (first_fault _) in Hl; by destruct Hl as [? _].
Qed.
(** The module on its own: line 552 raises and nothing is recorded. *)
Lemma failed_install_leaves_no_trace_witness :
  committed (db (snd (install_for_user chat_manager "u1" [] fresh_world)))
  = no_tables.
Proof.
  apply (failed_install_leaves_no_trace chat_manager "u1" [] fresh_world
           no_datetime_attribute chat_manager
           (snd (install_for_user chat_manager "u1" [] fresh_world))).
  vm_compute. reflexivity.
Defined.

(** The deletion of the plugin row is refused after the modules have
    been deleted in the session: the committed tables still hold the
    module. *)
Lemma failed_uninstall_leaves_no_trace_witness :
  length (module (committed (db (snd (uninstall_for_user chat_manager_u1 "u1"
                                        locked_world))))) = 1.
Proof.
  pose proof (failed_uninstall_leaves_no_trace chat_manager_u1 "u1" locked_world
                "database is locked" chat_manager_u1
                (snd (uninstall_for_user chat_manager_u1 "u1" locked_world)))
    as Hkept.
  destruct Hkept as [Hkept _]; [vm_compute; reflexivity|].
  rewrite Hkept. vm_compute. reflexivity.
Defined.
(** ** A removal that goes through *)

Lemma perform_user_uninstallation_first self user_id w plugin_row rest :
  records_of user_id (pd_plugin_slug (plugin_data self)) (session (db w))
    = plugin_row :: rest →
  first_fault (take 6 (script (db w))) = None →
  let plugin_id := plugin_id_of plugin_row in
  ∃ w',
    _perform_user_uninstallation self user_id w =
      (Returned
         (Success {| uninst_plugin_id := plugin_id;
                     uninst_deleted_modules :=
                       deleted_report plugin_id (session (db w)) |}), w')
    ∧ clock w' = clock w
    ∧ plugin (session (db w')) =
        List.filter (λ r, negb (plugin_is plugin_id user_id r)) (plugin (session (db w)))
    ∧ module (session (db w')) =
        List.filter (λ r, negb (module_of plugin_id r)) (module (session (db w)))
    ∧ committed (db w') = session (db w')
    ∧ calls (db w') =
        calls (db w)
        ++ uninstall_calls user_id (pd_plugin_slug (plugin_data self)) plugin_id.
Proof.
  intros Hrows Hquiet. cbv zeta.
  apply (first_fault_app 2 _ 4) in Hquiet as [Hq2 Hq4].
  pose proof (check_existing_plugin_run self user_id w) as Hl. cbv zeta in Hl.
  rewrite Hq2 in Hl. destruct Hl as (Hsame & Hfound & Hcalls & Hscript).
  unfold lookup_report in Hfound. rewrite Hrows in Hfound.
  destruct Hsame as (_ & Hses & _ & _ & Hclock & _).
  rewrite (perform_user_uninstallation_found _ _ _ _ _ Hfound).
  pose proof (delete_database_records_transaction self user_id
                (plugin_id_of plugin_row)
                (snd (_check_existing_plugin self user_id w))) as Hd.
  cbv zeta in Hd. rewrite Hscript, Hq4 in Hd.
  destruct Hd as (Hclock' & _ & Hres & Hp & Hm & Hcm & Hcalls').
  rewrite Hres, Hses. rewrite Hses in Hp, Hm.
  eexists. split; [reflexivity|]. split_and!; try done.
  - by rewrite Hclock', Hclock.
  - rewrite Hcalls', Hcalls. unfold uninstall_calls. by rewrite <- app_assoc.
Qed.

Lemma uninstall_for_user_found self user_id w plugin_row rest :
  user_id ∈ active_users self →
  records_of user_id (pd_plugin_slug (plugin_data self)) (session (db w))
    = plugin_row :: rest →
  first_fault (take 6 (script (db w))) = None →
  let plugin_id := plugin_id_of plugin_row in
  ∃ w',
    uninstall_for_user self user_id w =
      (Returned
         (Success {| uninst_plugin_id := plugin_id;
                     uninst_deleted_modules :=
                       deleted_report plugin_id (session (db w)) |},
          set_active (active_users self ∖ {[user_id]}) (clock w) self), w')
    ∧ plugin (session (db w')) =
        List.filter (λ r, negb (plugin_is plugin_id user_id r)) (plugin (session (db w)))
    ∧ module (session (db w')) =
        List.filter (λ r, negb (module_of plugin_id r)) (module (session (db w)))
    ∧ committed (db w') = session (db w')
    ∧ calls (db w') =
        calls (db w)
        ++ uninstall_calls user_id (pd_plugin_slug (plugin_data self)) plugin_id.
Proof.
  intros Hin Hrows Hquiet. cbv zeta.
  destruct (perform_user_uninstallation_first _ _ _ _ _ Hrows Hquiet)
    as (w' & Hrun & Hclock & Hrest).
  exists w'. split; [|exact Hrest].
  rewrite (uninstall_for_user_run _ _ _ Hin), Hrun. by rewrite Hclock.
Qed.

Lemma filter_plugin_matches_is user_id slug plugin_id pl :
  List.filter (plugin_matches user_id slug)
    (List.filter (λ r, negb (plugin_is plugin_id user_id r)) pl)
  = List.filter (λ r, negb (Nat.eqb (plugin_id_of r) plugin_id))
      (List.filter (plugin_matches user_id slug) pl).
Proof.
  induction pl as [|r pl IH]; [done|]. simpl.
  unfold plugin_is at 1, plugin_matches at 2.
  destruct (String.eqb (pp_user_id (plugin_cols r)) user_id) eqn:Hu; simpl.
  - destruct (Nat.eqb (plugin_id_of r) plugin_id) eqn:Hid; simpl.
    + destruct (String.eqb _ slug); simpl; [by rewrite Hid|done].
    + unfold plugin_matches at 1. rewrite Hu. simpl.
      destruct (String.eqb _ slug); simpl; [by rewrite Hid, IH|done].
  - rewrite andb_false_r. simpl. unfold plugin_matches at 1. by rewrite Hu.
Qed.

(** X4: a removal that goes through removes the plugin found by the
    lookup and nothing else.  For an active user with at least one plugin
    row for the slug and a database that accepts the six calls,
    [uninstall_for_user] succeeds with the identifier of the first such
    row and the modules of that plugin; the committed tables are the old
    ones without the rows of that identifier; the calls are the two of
    the lookup and then the four of the deletion; and the user is no
    longer active.  Rows of the user with another identifier stay, so a
    duplicate installation survives the removal. *)
Theorem uninstall_removes_found_plugin self user_id w plugin_row rest :
  user_id ∈ active_users self →
  records_of user_id (pd_plugin_slug (plugin_data self)) (session (db w))
    = plugin_row :: rest →
  first_fault (take 6 (script (db w))) = None →
  let plugin_id := plugin_id_of plugin_row in
  let run := uninstall_for_user self user_id w in
  let after := committed (db (snd run)) in
  fst run =
    Returned
      (Success {| uninst_plugin_id := plugin_id;
                  uninst_deleted_modules :=
                    deleted_report plugin_id (session (db w)) |},
       set_active (active_users self ∖ {[user_id]}) (clock w) self)
  ∧ plugin after =
      List.filter (λ r, negb (plugin_is plugin_id user_id r)) (plugin (session (db w)))
  ∧ module after =
      List.filter (λ r, negb (module_of plugin_id r)) (module (session (db w)))
  ∧ new_calls (uninstall_for_user self user_id) w =
      uninstall_calls user_id (pd_plugin_slug (plugin_data self)) plugin_id
  ∧ records_of user_id (pd_plugin_slug (plugin_data self)) after =
      List.filter (λ r, negb (Nat.eqb (plugin_id_of r) plugin_id)) rest.
Proof.
  intros Hin Hrows Hquiet. cbv zeta.
  destruct (uninstall_for_user_found _ _ _ _ _ Hin Hrows Hquiet)
    as (w' & Hrun & Hp & Hm & Hcm & Hcalls).
  pose proof (new_calls_app (uninstall_for_user self user_id) w) as Hnew.
  rewrite Hrun in *. simpl. rewrite Hcm.
  split_and!; try done.
  - by apply Hnew.
  - unfold records_of in *. rewrite Hp, filter_plugin_matches_is, Hrows.
    simpl. by rewrite Nat.eqb_refl.
Qed.

(** Two rows for [u1], as two installations in the host leave them: the
    removal takes the first and the second is still found. *)
Lemma uninstall_removes_found_plugin_witness :
  length (records_of "u1" "BrainDriveChat"
            (committed (db (snd (uninstall_for_user chat_manager_u1 "u1"
                                   twice_installed_world))))) = 1.
Proof.
  destruct (uninstall_removes_found_plugin chat_manager_u1 "u1" twice_installed_world
              {| plugin_id_of := 1;
                 plugin_cols := plugin_params "u1" 1700000000%Z PLUGIN_DATA |}
              [{| plugin_id_of := 2;
                  plugin_cols := plugin_params "u1" 1700000000%Z PLUGIN_DATA |}])
    as (_ & _ & _ & _ & Hleft).
  - vm_compute. reflexivity.
  - reflexivity.
  - reflexivity.
  - exact (f_equal length Hleft).
Defined.
(** ** Installation, then removal *)

Lemma filter_fresh_plugin plugin_id user_id pl params :
  Forall (λ r, plugin_id_of r ≠ plugin_id) pl →
  pp_user_id params = user_id →
  List.filter (λ r, negb (plugin_is plugin_id user_id r))
    (pl ++ [{| plugin_id_of := plugin_id; plugin_cols := params |}]) = pl.
Proof.
  intros Hfresh Hu. rewrite List.filter_app. simpl.
  unfold plugin_is at 2. simpl. rewrite Nat.eqb_refl, Hu, String.eqb_refl. simpl.
  rewrite app_nil_r.
  induction Hfresh as [|row pl Hrow _ IH]; [done|]. simpl.
  unfold plugin_is at 1.
  rewrite (proj2 (Nat.eqb_neq _ _) Hrow). simpl. by rewrite IH.
Qed.

Lemma filter_module_rows plugin_id now mods : ∀ first,
  List.filter (module_of plugin_id) (module_rows plugin_id now first mods)
  = module_rows plugin_id now first mods.
Proof.
  induction mods as [|m mods IH]; intros first; [done|]. simpl.
  unfold module_of at 1. simpl. by rewrite Nat.eqb_refl, IH.
Qed.

Lemma filter_other_modules plugin_id ml :
  Forall (λ r, mp_plugin_id (module_cols r) ≠ plugin_id) ml →
  List.filter (λ r, negb (module_of plugin_id r)) ml = ml
  ∧ List.filter (module_of plugin_id) ml = [].
Proof.
  induction 1 as [|row ml Hrow _ [IH1 IH2]]; [done|]. simpl.
  assert (module_of plugin_id row = false) as ->
    by (by apply Nat.eqb_neq).
  simpl. by rewrite IH1, IH2.
Qed.

Lemma filter_fresh_modules plugin_id now first mods ml :
  Forall (λ r, mp_plugin_id (module_cols r) ≠ plugin_id) ml →
  List.filter (λ r, negb (module_of plugin_id r))
    (ml ++ module_rows plugin_id now first mods) = ml
  ∧ List.filter (module_of plugin_id) (ml ++ module_rows plugin_id now first mods)
    = module_rows plugin_id now first mods.
Proof.
  intros Hfresh. rewrite !List.filter_app, filter_module_rows.
  assert (List.filter (λ r, negb (module_of plugin_id r))
            (module_rows plugin_id now first mods) = []) as ->.
  { revert first. induction mods as [|m mods IH]; intros first; [done|]. simpl.
    unfold module_of at 1. simpl. rewrite Nat.eqb_refl. simpl. apply IH. }
  destruct (filter_other_modules _ _ Hfresh) as [-> ->].
  by rewrite app_nil_r.
Qed.

Lemma deleted_of_created plugin_id now mods : ∀ first,
  List.map (λ row, {| del_id := module_id_of row;
                      del_name := mp_name (module_cols row) |})
    (module_rows plugin_id now first mods)
  = List.map (λ m, {| del_id := mc_id m; del_name := mc_name m |})
      (modules_report first mods).
Proof.
  induction mods as [|m mods IH]; intros first; [done|]. simpl. by rewrite IH.
Qed.

(** X6: installation followed by removal is a round trip.  For a user
    with no plugin row for the slug, on tables where the identifier the
    database generates for the plugin is not in use: when
    [_perform_user_installation] succeeds (which it does only where the
    host's base class was imported) and the database accepts the six
    calls of the removal, [_perform_user_uninstallation] in the world
    the installation left succeeds, reports the identifier the
    installation returned and the modules it created, and the committed
    tables are again those the installation started from. *)
Theorem install_then_uninstall self user_id shared_plugin_path w r w' :
  records_of user_id (pd_plugin_slug (plugin_data self)) (session (db w)) = [] →
  unused_plugin_id (plugin_seq (db w)) (session (db w)) →
  _perform_user_installation self user_id shared_plugin_path w
    = (Returned (Success r), w') →
  first_fault (take 6 (script (db w'))) = None →
  let run := _perform_user_uninstallation self user_id w' in
  fst run =
    Returned
      (Success
         {| uninst_plugin_id := inst_plugin_id r;
            uninst_deleted_modules :=
              List.map (λ m, {| del_id := mc_id m; del_name := mc_name m |})
                (inst_modules_created r) |})
  ∧ committed (db (snd run)) = session (db w)
  ∧ session (db (snd run)) = session (db w)
  ∧ records_of user_id (pd_plugin_slug (plugin_data self))
      (committed (db (snd run))) = [].
Proof.
  intros Hnone [Hfresh_p Hfresh_m] Hrun Hquiet. cbv zeta.
  apply perform_user_installation_success in Hrun
    as (_ & _ & -> & Hp & Hm & Hcm). cbv zeta in *.
  set (new := {| plugin_id_of := plugin_seq (db w);
                 plugin_cols := plugin_params user_id (clock w) (plugin_data self) |})
    in *.
  assert (records_of user_id (pd_plugin_slug (plugin_data self)) (session (db w'))
          = [new]) as Hrows.
  { destruct (session (db w')) as [pl1 ml1]. simpl in Hp, Hm. subst pl1.
    destruct (session (db w)) as [pl ml]. simpl.
    subst new. eapply records_of_app_new; [done | done | exact Hnone]. }
  destruct (perform_user_uninstallation_first self user_id w' new [] Hrows Hquiet)
    as (w2 & Hun & _ & Hp2 & Hm2 & Hcm2 & _).
  simpl in Hun. rewrite Hun. simpl.
  destruct (filter_fresh_modules (plugin_seq (db w)) (clock w) (module_seq (db w))
              (module_data self) (module (session (db w))) Hfresh_m)
    as [Hml Hdel].
  assert (session (db w2) = session (db w)) as Hback.
  { destruct (session (db w2)) as [pl2 ml2]. simpl in Hp2, Hm2.
    destruct (session (db w)) as [pl ml] eqn:Hs. simpl in *.
    rewrite Hp in Hp2. rewrite Hm in Hm2.
    subst new. rewrite filter_fresh_plugin in Hp2 by done.
    rewrite Hml in Hm2. by subst. }
  split_and!.
  - unfold deleted_report. by rewrite Hm, Hdel, deleted_of_created.
  - by rewrite Hcm2.
  - done.
  - by rewrite Hcm2, Hback.
Qed.

(** One user on empty tables in the host: installation, then removal. *)
Lemma install_then_uninstall_witness :
  committed (db (snd (_perform_user_uninstallation chat_manager "u1"
                        (snd (_perform_user_installation chat_manager "u1" []
                                host_world)))))
  = no_tables.
Proof.
  apply (install_then_uninstall chat_manager "u1" [] host_world
           {| inst_plugin_id := 1;
              inst_plugin_slug := "BrainDriveChat";
              inst_plugin_name := "BrainDriveChat";
              inst_modules_created :=
                [{| mc_id := 1; mc_name := "BrainDriveChat";
                    mc_display_name := "AI Chat Interface" |}] |}).
  - reflexivity.
  - split; simpl; constructor.
  - reflexivity.
  - reflexivity.
Defined.

(** ** Results, not exceptions *)

Lemma perform_user_installation_returns self user_id shared w :
  ∃ r, fst (_perform_user_installation self user_id shared w) = Returned r.
Proof.
  rewrite perform_user_installation_run. simpl.
  destruct (fst (_create_database_records self user_id w)) as [[msg|created]|e];
    by eexists.
Qed.

Lemma perform_user_uninstallation_returns self user_id w :
  ∃ r, fst (_perform_user_uninstallation self user_id w) = Returned r.
Proof.
  unfold _perform_user_uninstallation, try_except.
  match goal with |- context [let (_, _) := ?run in _] =>
    destruct run as [[r|e] w1] end; by eexists.
Qed.

Lemma install_for_user_returns self user_id shared w :
  ∃ r, fst (install_for_user self user_id shared w) = Returned r.
Proof.
  destruct (decide (user_id ∈ active_users self)) as [Hin|Hout].
  - rewrite (install_for_user_active _ _ _ _ Hin). by eexists.
  - rewrite (install_for_user_run _ _ _ _ Hout).
    destruct (perform_user_installation_returns self user_id shared w) as [r Hr].
    destruct (_perform_user_installation self user_id shared w) as [o w1].
    simpl in Hr. subst o. destruct r; by eexists.
Qed.

Lemma uninstall_for_user_returns self user_id w :
  ∃ r, fst (uninstall_for_user self user_id w) = Returned r.
Proof.
  destruct (decide (user_id ∈ active_users self)) as [Hin|Hout].
  - rewrite (uninstall_for_user_run _ _ _ Hin).
    destruct (perform_user_uninstallation_returns self user_id w) as [r Hr].
    destruct (_perform_user_uninstallation self user_id w) as [o w1].
    simpl in Hr. subst o. destruct r; by eexists.
  - unfold uninstall_for_user. rewrite bool_decide_eq_true_2 by done. by eexists.
Qed.

(** What the compatibility functions run, on the manager they build. *)
Lemma delete_plugin_run user_id plugins_base_dir w :
  ∃ self,
    active_users self = ∅
    ∧ delete_plugin user_id plugins_base_dir w =
        match uninstall_for_user self user_id w with
        | (Returned r, w1) => (Returned (fst r), w1)
        | (Raised e, w1) => (Raised e, w1)
        end.
Proof.
  destruct (new_manager plugins_base_dir w) as (self & Hnew & Hactive & _).
  exists self. split; [done|].
  unfold delete_plugin. rewrite (bind_returned _ _ _ _ _ Hnew).
  unfold mbind, M_bind.
  by destruct (uninstall_for_user self user_id w) as [[r|e] w1].
Qed.

Lemma get_plugin_status_run user_id plugins_base_dir w :
  ∃ self,
    plugin_data self = PLUGIN_DATA
    ∧ get_plugin_status user_id plugins_base_dir w
      = _check_existing_plugin self user_id w.
Proof.
  destruct (new_manager plugins_base_dir w) as (self & Hnew & _ & Hpd & _).
  exists self. split; [done|].
  unfold get_plugin_status. by rewrite (bind_returned _ _ _ _ _ Hnew).
Qed.

Lemma check_existing_plugin_returns self user_id w :
  ∃ r, fst (_check_existing_plugin self user_id w) = Returned r.
Proof.
  pose proof (check_existing_plugin_run self user_id w) as [_ Hl]. cbv zeta in Hl.
  destruct (first_fault _) in Hl; destruct Hl as [-> _]; by eexists.
Qed.

(** X7: no entry point of the record store lets an exception out: whatever
    the manager, the user, the tables and the calls the database
    refuses, [install_for_user], [uninstall_for_user], [install_plugin],
    [delete_plugin] and [get_plugin_status] return a result dictionary.
    A refused call surfaces as [success: False] (or [exists: False])
    with the message, never as a raised exception. *)
Theorem lifecycle_returns_results self user_id shared_plugin_path plugins_base_dir w :
  (∃ r, fst (install_for_user self user_id shared_plugin_path w) = Returned r)
  ∧ (∃ r, fst (uninstall_for_user self user_id w) = Returned r)
  ∧ (∃ r, fst (install_plugin user_id plugins_base_dir w) = Returned r)
  ∧ (∃ r, fst (delete_plugin user_id plugins_base_dir w) = Returned r)
  ∧ (∃ r, fst (get_plugin_status user_id plugins_base_dir w) = Returned r).
Proof.
  split_and!.
  - apply install_for_user_returns.
  - apply uninstall_for_user_returns.
  - destruct (install_plugin_run user_id plugins_base_dir w) as (m & _ & _ & _ & ->).
    destruct (install_for_user_returns m user_id (shared_path m) w) as [r Hr].
    destruct (install_for_user m user_id (shared_path m) w) as [o w1].
    simpl in Hr. subst o. by eexists.
  - destruct (delete_plugin_run user_id plugins_base_dir w) as (m & _ & ->).
    destruct (uninstall_for_user_returns m user_id w) as [r Hr].
    destruct (uninstall_for_user m user_id w) as [o w1].
    simpl in Hr. subst o. by eexists.
  - destruct (get_plugin_status_run user_id plugins_base_dir w) as (m & _ & ->).
    apply check_existing_plugin_returns.
Qed.

(** ** The deletion and the lookup on their own *)

(** X10: [_delete_database_records] is one transaction, decided by the
    first of its four calls (the SELECT of the modules, the two DELETEs,
    the commit) that the database refuses.  With none refused it
    returns the modules of the plugin as the session saw them, and the
    committed tables are the session's without the modules of the plugin
    and without the plugin row of that identifier and user.  With one
    refused it rolls back and returns a failure with the message: the
    committed tables are unchanged and the session is back on them.
    Either way the clock and the files are untouched. *)
Theorem delete_database_records_all_or_nothing self user_id plugin_id w :
  let d := db w in
  let run := _delete_database_records self user_id plugin_id w in
  let d' := db (snd run) in
  clock (snd run) = clock w ∧ files (snd run) = files w ∧
  match first_fault (take 4 (script d)) with
  | None =>
      fst run = Returned (Success (deleted_report plugin_id (session d)))
      ∧ plugin (committed d') =
          List.filter (λ r, negb (plugin_is plugin_id user_id r)) (plugin (session d))
      ∧ module (committed d') =
          List.filter (λ r, negb (module_of plugin_id r)) (module (session d))
      ∧ session d' = committed d'
  | Some msg =>
      fst run = Returned (Failure msg)
      ∧ committed d' = committed d
      ∧ session d' = committed d
      ∧ List.last (calls d') Commit = Rollback
  end.
Proof.
  cbv zeta.
  pose proof (delete_database_records_transaction self user_id plugin_id w) as H.
  cbv zeta in H. destruct H as (Hclock & Hfiles & H).
  split; [done|]. split; [done|].
  destruct (first_fault _).
  - destruct H as (Hr & Hcm & Hs & Hcalls). split_and!; try done.
    rewrite Hcalls, app_assoc. apply last_last.
  - destruct H as (Hr & Hp & Hm & Hcm & _). rewrite Hcm. by split_and!.
Qed.

(** X11: the lookup only reads.  Whatever the database answers,
    [_check_existing_plugin] leaves both the committed and the session's
    tables, the identifier sequences, the clock and the files as they
    were, and its calls are SELECTs.  When its two queries are answered
    it reports the first row of the user and the slug in the order of
    the table, with that row's columns, and [exists: False] without an
    error when there is none. *)
Theorem lookup_reads_first_row self user_id w :
  let slug := pd_plugin_slug (plugin_data self) in
  let run := _check_existing_plugin self user_id w in
  same_state w (snd run)
  ∧ Forall (λ c, mutating c = false) (new_calls (_check_existing_plugin self user_id) w)
  ∧ (first_fault (take 2 (script (db w))) = None →
     fst run =
       Returned
         (match records_of user_id slug (session (db w)) with
          | plugin_row :: _ =>
              Found (plugin_id_of plugin_row) (plugin_info_of plugin_row)
          | [] => NotFound None
          end)
     ∧ ∀ plugin_id info,
         fst run = Returned (Found plugin_id info) →
         ∃ plugin_row,
           plugin_row ∈ plugin (session (db w))
           ∧ plugin_id_of plugin_row = plugin_id
           ∧ pp_user_id (plugin_cols plugin_row) = user_id
           ∧ pd_plugin_slug (pp_data (plugin_cols plugin_row)) = slug
           ∧ info_plugin_slug info = slug).
Proof.
  cbv zeta.
  pose proof (check_existing_plugin_run self user_id w) as H. cbv zeta in H.
  destruct H as [Hsame H].
  split; [done|]. split; [apply lookup_new_calls|].
  intros Hquiet. rewrite Hquiet in H. destruct H as (Hr & _).
  split; [exact Hr|].
  intros plugin_id info Hfound. rewrite Hr in Hfound. unfold lookup_report in Hfound.
  destruct (records_of _ _ _) as [|plugin_row rest] eqn:Hrows; [done|].
  injection Hfound as <- <-.
  assert (plugin_row ∈ records_of user_id (pd_plugin_slug (plugin_data self))
                         (session (db w))) as Hin
    by (rewrite Hrows; left).
  unfold records_of in Hin. apply list_elem_of_In, List.filter_In in Hin as [Hin Hmatch].
  apply list_elem_of_In in Hin.
  unfold plugin_matches in Hmatch. apply andb_true_iff in Hmatch as [Hu Hs].
  apply String.eqb_eq in Hu, Hs.
  exists plugin_row. by split_and!.
Qed.

(** ** The outcome of an installation *)

Lemma modules_report_names mods : ∀ first,
  List.map mc_name (modules_report first mods) = List.map md_name mods
  ∧ List.map mc_id (modules_report first mods) = seq first (length mods).
Proof.
  induction mods as [|m mods IH]; intros first; [done|]. simpl.
  destruct (IH (S first)) as [-> ->]. done.
Qed.

(** X21: what decides an installation.  Where the module runs on its
    own minimal base class, [_perform_user_installation] fails with the
    [AttributeError] of line 552 whatever the database would answer: its
    one call is the rollback and the committed tables are unchanged.
    Where the host's base class was imported, the database decides.
    When it accepts the insertion of the plugin, of every module and
    the commit, the installation succeeds: it reports the generated
    plugin identifier, the slug and the name of the plugin data and one
    created module per module descriptor, in their order, under
    consecutive generated identifiers.  When it refuses one of these
    calls, the result is a failure with the message of the first
    refusal. *)
Theorem perform_user_installation_outcome self user_id shared_plugin_path w :
  let d := db w in
  let run := _perform_user_installation self user_id shared_plugin_path w in
  match imported_base w with
  | MinimalBase =>
      fst run = Returned (Failure no_datetime_attribute)
      ∧ committed (db (snd run)) = committed d
      ∧ new_calls (_perform_user_installation self user_id shared_plugin_path) w
        = [Rollback]
  | HostBase =>
      match first_fault (take (2 + length (module_data self)) (script d)) with
      | None =>
          ∃ r,
            fst run = Returned (Success r)
            ∧ inst_plugin_id r = plugin_seq d
            ∧ inst_plugin_slug r = pd_plugin_slug (plugin_data self)
            ∧ inst_plugin_name r = pd_name (plugin_data self)
            ∧ List.map mc_name (inst_modules_created r)
              = List.map md_name (module_data self)
            ∧ List.map mc_id (inst_modules_created r)
              = seq (module_seq d) (length (module_data self))
      | Some msg => fst run = Returned (Failure msg)
      end
  end.
Proof.
  cbv zeta. unfold new_calls. rewrite perform_user_installation_run.
  pose proof (create_database_records_run self user_id w) as Hc. cbv zeta in Hc.
  destruct (imported_base w).
  - destruct (first_fault _).
    + by destruct Hc as (-> & _).
    + destruct Hc as (-> & _). simpl.
      eexists. split; [reflexivity|]. simpl.
      destruct (modules_report_names (module_data self) (module_seq (db w)))
        as [-> ->].
      done.
  - destruct Hc as (-> & Hcm & _ & _ & _ & Hcalls). simpl.
    split_and!; try done. by rewrite Hcalls, drop_app_length.
Qed.
(** * Further properties of the validator *)

Lemma check_fields_exact v w :
  searchable v →
  check_fields ["name"; "version"] v w =
    (Returned
       (if py_contains "name" v then
          if py_contains "version" v then None
          else Some (invalid "BrainDriveChat: package.json missing required field: version")
        else Some (invalid "BrainDriveChat: package.json missing required field: name")),
     w).
Proof.
  intros Hv. unfold check_fields.
  rewrite (bind_returned _ _ _ _ _ (py_in_searchable "name" v w Hv)).
  destruct (py_contains "name" v); [|reflexivity].
  rewrite (bind_returned _ _ _ _ _ (py_in_searchable "version" v w Hv)).
  by destruct (py_contains "version" v).
Qed.

Lemma validate_package_json_loads p w f v :
  fs (files w) !! p = Some (File f) →
  json_load f = Loads v →
  searchable v →
  validate_package_json p w = check_fields ["name"; "version"] v w.
Proof.
  intros Hp Hl Hv. unfold validate_package_json, try_except.
  unfold mbind at 1, M_bind at 1. rewrite load_json_run.
  unfold path in *. rewrite Hp, Hl.
  by rewrite (check_fields_exact v w Hv).
Qed.

Lemma validate_package_json_decode p w f msg :
  fs (files w) !! p = Some (File f) →
  json_load f = DecodeFails msg →
  validate_package_json p w =
    (Returned (Some (invalid
       ("BrainDriveChat: Invalid or missing package.json: " +:+ msg))), w).
Proof.
  intros Hp Hl. unfold validate_package_json, try_except.
  unfold mbind at 1, M_bind at 1. rewrite load_json_run.
  unfold path in *. by rewrite Hp, Hl.
Qed.

(** The validator once both files are there. *)
Lemma validate_installation_present self user_id plugin_dir w pk bn :
  fs (files w) !! package_json_of plugin_dir = Some pk →
  fs (files w) !! bundle_of plugin_dir = Some bn →
  _validate_installation_impl self user_id plugin_dir w =
    match validate_package_json (package_json_of plugin_dir) w with
    | (Returned (Some v), w1) => (Returned v, w1)
    | (Returned None, w1) =>
        (Returned
           (if (node_size bn =? 0)%N
            then invalid "BrainDriveChat: Bundle file (remoteEntry.js) is empty"
            else {| valid := true; error := None |}), w1)
    | (Raised e, w1) => (Returned (invalid (exn_str e)), w1)
    end.
Proof.
  intros Hp Hb. unfold _validate_installation_impl, try_except.
  rewrite (bind_returned _ _ _ _ _ (find_missing_run plugin_dir w)).
  rewrite joinpath_dist_bundle, joinpath_package_json.
  unfold exists_at. unfold path in *. rewrite Hp, Hb.
  rewrite !bool_decide_eq_true_2 by eauto. simpl.
  unfold mbind at 1, M_bind at 1.
  destruct (validate_package_json_run (package_json_of plugin_dir) w)
    as (o & Ho & _).
  unfold path in *. rewrite Ho.
  destruct o as [[x|]|e]; try reflexivity.
  rewrite (bind_returned _ _ _ _ _ (stat_size_run _ w bn Hb)).
  by destruct (node_size bn =? 0)%N.
Qed.

(** X12: the validator's error tells what is wrong, in a fixed order of
    checks.  Missing files come first and are listed in the order
    [package.json], [dist/remoteEntry.js]; then a [package.json] that is
    not JSON, with the parser's message; then, for a manifest that is a
    JSON object, the first of the fields [name], [version] it lacks;
    and only then an empty bundle. *)
Theorem validator_error_messages self user_id plugin_dir w :
  let pkg := package_json_of plugin_dir in
  let bundle := bundle_of plugin_dir in
  let verdict := fst (_validate_installation_impl self user_id plugin_dir w) in
  (fs (files w) !! pkg = None ∨ fs (files w) !! bundle = None →
   verdict =
     Returned (invalid
       ("BrainDriveChat: Missing required files: "
        +:+ Py.join ", "
              ((if exists_at w pkg then [] else ["package.json"])
               ++ (if exists_at w bundle then [] else ["dist/remoteEntry.js"])))))
  ∧ (∀ f msg,
       fs (files w) !! pkg = Some (File f) → is_Some (fs (files w) !! bundle) →
       json_load f = DecodeFails msg →
       verdict =
         Returned (invalid
           ("BrainDriveChat: Invalid or missing package.json: " +:+ msg)))
  ∧ (∀ f members,
       fs (files w) !! pkg = Some (File f) → is_Some (fs (files w) !! bundle) →
       json_load f = Loads (JObject members) →
       ("name" ∉ List.map fst members →
        verdict =
          Returned (invalid
            "BrainDriveChat: package.json missing required field: name"))
       ∧ ("name" ∈ List.map fst members → "version" ∉ List.map fst members →
          verdict =
            Returned (invalid
              "BrainDriveChat: package.json missing required field: version")))
  ∧ (∀ n,
       manifest_passes w pkg → fs (files w) !! bundle = Some n →
       node_size n = 0%N →
       verdict =
         Returned (invalid "BrainDriveChat: Bundle file (remoteEntry.js) is empty")).
Proof.
  cbv zeta. split_and!.
  - intros Hmissing.
    unfold _validate_installation_impl, try_except.
    rewrite (bind_returned _ _ _ _ _ (find_missing_run plugin_dir w)).
    assert (exists_at w (package_json_of plugin_dir) = false
            ∨ exists_at w (bundle_of plugin_dir) = false) as Hex.
    { unfold exists_at. destruct Hmissing as [H|H]; [left|right];
        apply bool_decide_eq_false_2; unfold path in *; rewrite H; by intros [? ?]. }
    destruct (exists_at w (package_json_of plugin_dir)),
             (exists_at w (bundle_of plugin_dir));
      try reflexivity.
    by destruct Hex.
  - intros f msg Hp [bn Hb] Hl.
    rewrite (validate_installation_present _ _ _ _ _ _ Hp Hb).
    by rewrite (validate_package_json_decode _ _ _ _ Hp Hl).
  - intros f members Hp [bn Hb] Hl.
    rewrite (validate_installation_present _ _ _ _ _ _ Hp Hb).
    rewrite (validate_package_json_loads _ w f (JObject members) Hp Hl I).
    rewrite (check_fields_exact (JObject members) w I). simpl py_contains.
    split.
    + intros Hname.
      destruct (Py.mem "name" (List.map fst members)) eqn:Hm; [|done].
      by apply mem_true in Hm.
    + intros Hname Hversion. apply mem_true in Hname. rewrite Hname.
      destruct (Py.mem "version" (List.map fst members)) eqn:Hm; [|done].
      by apply mem_true in Hm.
  - intros n (f & j & Hp & Hl & Hname & Hversion) Hb Hsize.
    rewrite (validate_installation_present _ _ _ _ _ _ Hp Hb).
    rewrite (validate_package_json_loads _ _ _ _ Hp Hl
               (py_contains_searchable _ _ Hname)).
    rewrite (check_fields_exact _ w (py_contains_searchable _ _ Hname)).
    rewrite Hname, Hversion, Hsize. reflexivity.
Qed.

(** X13: on a manifest that is a JSON object the validator does what its
    contract says: with [package.json] a file that loads to an object,
    the verdict is "valid" exactly when the object has the keys [name]
    and [version] and the bundle is there with a size that is not zero;
    an invalid verdict comes with an error text, a valid one with none,
    and the files are left as they were. *)
Theorem validator_on_object_manifest self user_id plugin_dir w f members :
  fs (files w) !! package_json_of plugin_dir = Some (File f) →
  json_load f = Loads (JObject members) →
  ∃ v,
    _validate_installation_impl self user_id plugin_dir w = (Returned v, w)
    ∧ (valid v = true ↔
         has_field "name" (JObject members)
         ∧ has_field "version" (JObject members)
         ∧ ∃ n, fs (files w) !! bundle_of plugin_dir = Some n ∧ node_size n ≠ 0%N)
    ∧ (valid v = true → error v = None)
    ∧ (valid v = false → is_Some (error v)).
Proof.
  intros Hp Hl.
  assert (∀ field, has_field field (JObject members)
                   ↔ py_contains field (JObject members) = true) as Hfield.
  { intros field. simpl. rewrite mem_true. split.
    - by intros (members' & [= <-] & ?).
    - intros ?. by exists members. }
  destruct (validate_installation_run self user_id plugin_dir w)
    as (v & Hrun & Hvalid & Herror).
  exists v. split; [exact Hrun|]. split_and!.
  - rewrite Hvalid, !Hfield. split.
    + intros [(f' & j & Hp' & Hl' & Hname & Hversion) Hbundle].
      unfold path in *. rewrite Hp in Hp'. injection Hp' as <-.
      rewrite Hl in Hl'. injection Hl' as <-. done.
    + intros (Hname & Hversion & Hbundle). split; [|done].
      by exists f, (JObject members).
  - intros Hv. pose proof Hv as Hv'.
    apply Hvalid in Hv' as [_ (n & Hb & Hsize)].
    pose proof (validate_installation_present self user_id _ _ _ _ Hp Hb) as Hrun'.
    rewrite Hrun in Hrun'.
    rewrite (validate_package_json_loads _ w f (JObject members) Hp Hl I) in Hrun'.
    rewrite (check_fields_exact (JObject members) w I) in Hrun'.
    destruct (py_contains "name" _); [destruct (py_contains "version" _)|];
      injection Hrun' as ->; try done.
    by destruct (node_size n =? 0)%N.
  - exact Herror.
Qed.

(** The manifest of the sample tree, installed next to a bundle. *)
Lemma validator_on_object_manifest_witness :
  ∃ v, _validate_installation_impl chat_manager "u1" user_dir object_manifest_world
       = (Returned v, object_manifest_world)
       ∧ (valid v = true ↔
            has_field "name" (JObject [("name", JString "braindrive-chat");
                                       ("version", JString "1.0.0")])
            ∧ has_field "version" (JObject [("name", JString "braindrive-chat");
                                          ("version", JString "1.0.0")])
            ∧ ∃ n, fs (files object_manifest_world) !! bundle_of user_dir = Some n
                   ∧ node_size n ≠ 0%N).
Proof.
  destruct (validator_on_object_manifest chat_manager "u1" user_dir
              object_manifest_world manifest_file
              [("name", JString "braindrive-chat"); ("version", JString "1.0.0")])
    as (v & Hrun & Hvalid & _).
  - vm_compute. reflexivity.
  - reflexivity.
  - by exists v.
Defined.

(** X14: the validator returns a verdict and never raises, whatever the
    directory holds: an unreadable [package.json], a manifest that is a
    number, a bundle that is a directory all end in a verdict.  It
    leaves the world as it found it.  The verdict is [valid: True]
    exactly when [package.json] is a file that loads to a value in which
    Python's [in] finds [name] and [version], and the bundle is there
    with a size that is not zero; every other verdict carries an error
    text. *)
Theorem validator_verdict self user_id plugin_dir w :
  let run := _validate_installation_impl self user_id plugin_dir w in
  snd run = w
  ∧ ∃ v, fst run = Returned v
    ∧ (valid v = true ↔
         manifest_passes w (package_json_of plugin_dir)
         ∧ ∃ n, fs (files w) !! bundle_of plugin_dir = Some n
                ∧ node_size n ≠ 0%N)
    ∧ (valid v = false → is_Some (error v)).
Proof.
  cbv zeta.
  destruct (validate_installation_run self user_id plugin_dir w) as (v & -> & H).
  split; [reflexivity|]. by exists v.
Qed.
(** * The validator and the inspector together *)

(** X15: what the validator accepts, the inspector finds healthy: on the
    same directory and files, a verdict [valid: True] of
    [_validate_installation_impl] comes with a report [healthy: True] of
    [_get_plugin_health_impl].  The converse fails: the inspector asks
    for a [package.json] that parses, not for its fields. *)
Theorem valid_installation_is_healthy self user_id plugin_dir w v h :
  fst (_validate_installation_impl self user_id plugin_dir w) = Returned v →
  fst (_get_plugin_health_impl self user_id plugin_dir w) = Returned h →
  valid v = true →
  healthy h = true.
Proof.
  intros Hv Hh Hvalid.
  destruct (validate_installation_run self user_id plugin_dir w)
    as (v' & Hrun & Hiff & _).
  rewrite Hrun in Hv. injection Hv as ->.
  destruct (plugin_health_run self user_id plugin_dir w) as (h' & Hrun' & Hiff' & _).
  rewrite Hrun' in Hh. injection Hh as ->.
  apply Hiff'. apply Hiff in Hvalid as [(f & j & Hp & Hl & _) (n & Hb & Hsize)].
  split.
  - exists n. split; [done|]. by apply N.neq_0_lt_0.
  - by exists f, j.
Qed.

(** The manifest of the sample tree next to a bundle: valid, and
    healthy. *)
Lemma valid_installation_is_healthy_witness :
  ∃ h, fst (_get_plugin_health_impl chat_manager "u1" user_dir object_manifest_world)
       = Returned h
       ∧ healthy h = true.
Proof.
  eexists. split; [vm_compute; reflexivity|].
  apply (valid_installation_is_healthy chat_manager "u1" user_dir
           object_manifest_world {| valid := true; error := None |}).
  - vm_compute. reflexivity.
  - vm_compute. reflexivity.
  - reflexivity.
Defined.
(** * Further properties of the synchronizer *)

(** ** The filter *)

(** X16: what [should_copy] leaves out.  A relative path is left out
    exactly when one of its components is one of the eight strings of
    the exclusion set (the seven names and [*.pyc] itself, compared as
    it is written) or its last component ends in [.pyc].  The first
    kind of exclusion is inherited by everything below the path.  The
    second is not: a path none of whose components is one of the eight
    strings is judged by the suffix of its last component alone, so
    what lies below a directory whose name ends in [.pyc] is copied. *)
Theorem should_copy_filter :
  (∀ p, should_copy p = false ↔ excluded p)
  ∧ (∀ p q part,
       p `prefix_of` q → part ∈ p → part ∈ exclude_patterns →
       should_copy q = false)
  ∧ (∀ p c,
       (∀ part, part ∈ p ++ [c] → part ∉ exclude_patterns) →
       should_copy (p ++ [c]) = negb (Py.endswith c ".pyc")).
Proof.
  split_and!.
  - apply should_copy_excluded.
  - intros p q part [rest ->] Hin Hpat. apply should_copy_excluded. left.
    exists part. split; [|done]. apply elem_of_app. by left.
  - intros p c Hparts.
    assert (name (p ++ [c]) = c) as Hname by apply last_last.
    destruct (should_copy (p ++ [c])) eqn:Hcopy.
    + destruct (Py.endswith c ".pyc") eqn:Hsuffix; [|done].
      assert (excluded (p ++ [c])) as Hex by (right; by rewrite Hname).
      apply should_copy_excluded in Hex. congruence.
    + apply should_copy_excluded in Hcopy as [(part & Hin & Hpat)|Hsuffix].
      * by destruct (Hparts part Hin).
      * rewrite Hname in Hsuffix. by rewrite Hsuffix.
Qed.

(** ** Where the synchronizer writes *)

Section TouchesOnly.

Context {A B : Type} (touched : path → Prop).

Lemma touches_ret (a : A) : touches_only touched (mret a : M A).
Proof. by intros w q _. Qed.

Lemma touches_raise (e : exn) : touches_only touched (raise e : M A).
Proof. by intros w q _. Qed.

Lemma touches_bind (m : M A) (k : A → M B) :
  touches_only touched m → (∀ a, touches_only touched (k a)) →
  touches_only touched (m ≫= k).
Proof.
  intros Hm Hk w q Hq. unfold mbind, M_bind.
  specialize (Hm w q Hq). destruct (m w) as [[a|e] w1]; [|exact Hm].
  simpl in Hm. rewrite <- Hm. by apply Hk.
Qed.

Lemma touches_try (m : M A) (h : exn → M A) :
  touches_only touched m → (∀ e, touches_only touched (h e)) →
  touches_only touched (try_except m h).
Proof.
  intros Hm Hh w q Hq. unfold try_except.
  specialize (Hm w q Hq). destruct (m w) as [[a|e] w1]; [exact Hm|].
  simpl in Hm. rewrite <- Hm. by apply Hh.
Qed.

End TouchesOnly.

Lemma touches_lookup_node touched p : touches_only touched (lookup_node p).
Proof. by intros w q _. Qed.

Lemma touches_get_world touched : touches_only touched get_world.
Proof. by intros w q _. Qed.

Lemma touches_path_exists touched p : touches_only touched (path_exists p).
Proof. by intros w q _. Qed.

Lemma touches_os_check touched p : touches_only touched (os_check p).
Proof. intros w q _. unfold os_check. by destruct (os_error (files w) p). Qed.

Lemma touches_write_node (touched : path → Prop) p n :
  touched p → touches_only touched (write_node p n).
Proof.
  intros Hp w q Hq. simpl. apply lookup_insert_ne. by intros ->.
Qed.

Lemma touches_remove_node (touched : path → Prop) p :
  touched p → touches_only touched (remove_node p).
Proof.
  intros Hp w q Hq. simpl. apply lookup_delete_ne. by intros ->.
Qed.

(** [mkdir] writes on its way down only. *)
Lemma touches_mkdir_from (touched : path → Prop) rest : ∀ base,
  (∀ b, base `prefix_of` b → b `prefix_of` base ++ rest → touched b) →
  touches_only touched (mkdir_from base rest).
Proof.
  assert (∀ (base : path) (n : option node), touched base →
            touches_only touched
              (match n with
               | Some (Dir _) => mret tt
               | Some (File _) => raise (Exn OSError "File exists")
               | None => os_check base;; write_node base (Dir 0)
               end)) as Hstep.
  { intros base [[f|size]|] Hb; [apply touches_raise | apply touches_ret |].
    apply touches_bind; [apply touches_os_check|]. intros _.
    by apply touches_write_node. }
  induction rest as [|c rest IH]; intros base Hway; simpl.
  - apply touches_bind; [apply touches_lookup_node|]. intros n.
    apply touches_bind; [|intros []; apply touches_ret].
    apply Hstep. apply Hway; [done|]. by rewrite app_nil_r.
  - apply touches_bind; [apply touches_lookup_node|]. intros n.
    apply touches_bind.
    + apply Hstep. apply Hway; [done|]. by apply prefix_app_r.
    + intros []. apply IH. intros b H1 H2. apply Hway.
      * etrans; [|exact H1]. by apply prefix_app_r.
      * by rewrite <- app_assoc in H2.
Qed.

Lemma touches_mkdir_parents (touched : path → Prop) p :
  (∀ b, b `prefix_of` p → touched b) → touches_only touched (mkdir_parents p).
Proof.
  intros Hway. apply touches_mkdir_from. intros b _ Hb. by apply Hway.
Qed.

Lemma touches_unlink_on_update (touched : path → Prop) update p :
  touched p → touches_only touched (unlink_on_update update p).
Proof.
  intros Hp. unfold unlink_on_update. destruct update; [|apply touches_ret].
  apply touches_bind; [apply touches_path_exists|]. intros [|]; [|apply touches_ret].
  unfold unlink. apply touches_bind; [apply touches_lookup_node|].
  intros [[f|size]|]; [|apply touches_raise..].
  apply touches_bind; [apply touches_os_check|]. intros _.
  by apply touches_remove_node.
Qed.

Lemma touches_copy2 (touched : path → Prop) src_name f dst :
  touched dst → touched (dst ++ [src_name]) →
  touches_only touched (copy2 src_name f dst).
Proof.
  intros Hdst Hin. unfold copy2.
  apply touches_bind; [apply touches_lookup_node|]. intros n.
  apply touches_bind; [apply touches_lookup_node|].
  intros [[f'|size]|]; [|apply touches_raise|];
    (apply touches_bind; [apply touches_os_check|]; intros _;
     apply touches_write_node; by destruct n as [[?|?]|]).
Qed.

Lemma around_below target_dir p : around target_dir (target_dir ++ p).
Proof. right. by apply prefix_app_r. Qed.

Lemma around_above target_dir p b :
  b `prefix_of` target_dir ++ p → around target_dir b.
Proof.
  intros Hb. unfold around.
  destruct (prefix_weak_total b target_dir (target_dir ++ p)); auto.
  by apply prefix_app_r.
Qed.

Lemma touches_copy_item target_dir update p item copied :
  touches_only (around target_dir) (copy_item target_dir update p item copied).
Proof.
  unfold copy_item.
  apply touches_try; [|intros e; apply touches_ret].
  destruct item as [f|size].
  - apply touches_bind.
    { apply touches_mkdir_parents. intros b Hb.
      apply (around_above _ p). etrans; [exact Hb | apply removelast_prefix]. }
    intros _. apply touches_bind.
    { apply touches_unlink_on_update, around_below. }
    intros _. apply touches_bind; [|intros _; apply touches_ret].
    apply touches_copy2; [apply around_below|].
    rewrite <- app_assoc. apply around_below.
  - apply touches_bind; [|intros _; apply touches_ret].
    apply touches_mkdir_parents. intros b Hb. by apply (around_above _ p).
Qed.

Lemma touches_copy_items target_dir update items : ∀ copied,
  touches_only (around target_dir) (copy_items target_dir update items copied).
Proof.
  induction items as [|[p item] items IH]; intros copied; simpl.
  { apply touches_ret. }
  destruct (_ && _); [apply IH|].
  destruct (negb (should_copy p)); [apply IH|].
  apply touches_bind; [apply touches_copy_item | intros ?; apply IH].
Qed.

Lemma touches_copy_lifecycle_manager target_dir update copied :
  touches_only (around target_dir)
    (copy_lifecycle_manager target_dir update copied).
Proof.
  unfold copy_lifecycle_manager.
  apply touches_bind; [apply touches_get_world|]. intros w.
  destruct (lifecycle_manager_source w) as [source|]; [|apply touches_ret].
  apply touches_bind.
  { apply touches_mkdir_parents. intros b Hb.
    apply (around_above _ ["lifecycle_manager.py"]).
    etrans; [exact Hb | apply removelast_prefix]. }
  intros _. apply touches_bind.
  { apply touches_unlink_on_update, around_below. }
  intros _. apply touches_bind; [|intros _; apply touches_ret].
  destruct source as [f|size]; [|apply touches_raise].
  apply touches_copy2; [apply around_below|].
  rewrite <- app_assoc. apply around_below.
Qed.

Lemma touches_copy_plugin_files self user_id target_dir update :
  touches_only (around target_dir)
    (_copy_plugin_files_impl self user_id target_dir update).
Proof.
  unfold _copy_plugin_files_impl.
  apply touches_try; [|intros e; apply touches_ret].
  apply touches_bind; [apply touches_get_world|]. intros w.
  apply touches_bind; [apply touches_copy_items|]. intros copied.
  apply touches_bind.
  { unfold end_of_scan. apply touches_bind; [apply touches_get_world|].
    intros w'. destruct (source_scan_error _); [apply touches_raise|apply touches_ret]. }
  intros _. apply touches_bind; [apply touches_copy_lifecycle_manager|].
  intros ?. apply touches_ret.
Qed.

Lemma wfo_get_world : writes_files_only get_world.
Proof. intros w. apply same_but_fs_refl. Qed.

Lemma wfo_copy_plugin_files self user_id target_dir update :
  writes_files_only (_copy_plugin_files_impl self user_id target_dir update).
Proof.
  pose proof wfo_get_world. pose proof wfo_copy_items.
  unfold _copy_plugin_files_impl, end_of_scan, copy_lifecycle_manager. wfo.
Qed.

(** X17: the synchronizer keeps to the target directory.  Whatever the
    source tree holds and whatever the operating system refuses,
    [_copy_plugin_files_impl] returns a result dictionary; it leaves the
    database, the clock and the source tree as they were; and every path
    that is neither the target directory, nor below it, nor one of its
    ancestors holds after the run what it held before. *)
Theorem synchronizer_stays_in_target self user_id target_dir update w :
  let run := _copy_plugin_files_impl self user_id target_dir update w in
  (∃ r, fst run = Returned r)
  ∧ same_but_fs w (snd run)
  ∧ ∀ q, ¬ target_dir `prefix_of` q → ¬ q `prefix_of` target_dir →
         fs (files (snd run)) !! q = fs (files w) !! q.
Proof.
  cbv zeta. split_and!.
  - destruct (copy_plugin_files_run self user_id target_dir update w)
      as (added & w1 & _ & _ & _ & ->).
    destruct (source_scan_error (files w)); [by eexists|].
    destruct (copy_lifecycle_manager target_dir update added w1) as [[listed|e] w2];
      by eexists.
  - apply wfo_copy_plugin_files.
  - intros q Hbelow Habove. apply touches_copy_plugin_files.
    by intros [?|?].
Qed.
(** ** What the synchronizer leaves in place *)

Lemma keeps_get_world I : keeps I get_world.
Proof. by intros w. Qed.

Lemma keeps_end_of_scan I : keeps I end_of_scan.
Proof.
  intros w Hw. unfold end_of_scan, mbind, M_bind, get_world.
  by destruct (source_scan_error (files w)).
Qed.

(** Reading the node at a path and going on from what was read. *)
Lemma keeps_bind_lookup {A : Type} (I : World → Prop) p (k : option node → M A) :
  (∀ w, I w → I (snd (k (fs (files w) !! p) w))) → keeps I (lookup_node p ≫= k).
Proof. intros H w Hw. unfold mbind, M_bind, lookup_node. by apply H. Qed.

Lemma keeps_bind_at {A B : Type} (I : World → Prop) (m : M A) (k : A → M B) w :
  I (snd (m w)) → (∀ a, keeps I (k a)) → I (snd ((m ≫= k) w)).
Proof.
  intros Hm Hk. unfold mbind, M_bind.
  destruct (m w) as [[a|e] w1]; [by apply Hk | exact Hm].
Qed.

(** A directory stays: [mkdir] writes where nothing is, [unlink]
    removes files only and [copy2] does not write onto a directory. *)
Lemma dir_kept_mkdir_from b rest : ∀ base,
  keeps (λ w, is_directory w b) (mkdir_from base rest).
Proof.
  assert (∀ (base : path) w,
            is_directory w b →
            is_directory
              (snd ((match fs (files w) !! base with
                     | Some (Dir _) => mret tt
                     | Some (File _) => raise (Exn OSError "File exists")
                     | None => os_check base;; write_node base (Dir 0)
                     end) w)) b) as Hstep.
  { intros base w [size Hb]. unfold is_directory.
    destruct (fs (files w) !! base) as [[f|size']|] eqn:Hbase; simpl;
      [by exists size..|].
    unfold mbind, M_bind, os_check.
    destruct (os_error (files w) base); simpl; [by exists size|].
    exists size. rewrite lookup_insert_ne; [done|]. intros ->.
    unfold path in *. congruence. }
  induction rest as [|c rest IH]; intros base; simpl;
    apply keeps_bind_lookup; intros w Hw;
    (apply keeps_bind_at; [by apply Hstep|]); intros [].
  - apply keeps_ret.
  - apply IH.
Qed.

Lemma dir_kept_unlink b p : keeps (λ w, is_directory w b) (unlink p).
Proof.
  unfold unlink. apply keeps_bind_lookup. intros w [size Hb]. unfold is_directory.
  destruct (fs (files w) !! p) as [[f|size']|] eqn:Hp; simpl; [|by exists size..].
  unfold mbind, M_bind, os_check.
  destruct (os_error (files w) p); simpl; [by exists size|].
  exists size. rewrite lookup_delete_ne; [done|]. intros ->.
  unfold path in *. congruence.
Qed.

Lemma dir_kept_unlink_on_update b update p :
  keeps (λ w, is_directory w b) (unlink_on_update update p).
Proof.
  unfold unlink_on_update. destruct update; [|apply keeps_ret].
  apply keeps_bind; [apply keeps_path_exists|].
  intros [|]; [apply dir_kept_unlink | apply keeps_ret].
Qed.

Lemma dir_kept_copy2 b src_name f dst :
  keeps (λ w, is_directory w b) (copy2 src_name f dst).
Proof.
  intros w [size Hb]. unfold is_directory, copy2, lookup_node.
  unfold mbind at 1, M_bind at 1.
  set (dst' := match fs (files w) !! dst with
               | Some (Dir _) => dst ++ [src_name]
               | _ => dst
               end).
  unfold mbind at 1, M_bind at 1.
  destruct (fs (files w) !! dst') as [[f'|size']|] eqn:Hdst; simpl;
    try (by exists size);
    (unfold mbind, M_bind, os_check;
     destruct (os_error (files w) dst'); simpl; [by exists size|];
     exists size; rewrite lookup_insert_ne; [done|]; intros ->;
     unfold path in *; congruence).
Qed.

(** Without [update] nothing is removed: what is there stays there. *)
Lemma present_kept_mkdir_from q rest : ∀ base,
  keeps (λ w, is_Some (fs (files w) !! q)) (mkdir_from base rest).
Proof.
  assert (∀ (base : path) (n : option node),
            keeps (λ w, is_Some (fs (files w) !! q))
              (match n with
               | Some (Dir _) => mret tt
               | Some (File _) => raise (Exn OSError "File exists")
               | None => os_check base;; write_node base (Dir 0)
               end)) as Hstep.
  { intros base [[f|size]|]; [apply keeps_raise | apply keeps_ret |].
    apply keeps_bind; [apply keeps_os_check|]. intros _ w Hw. simpl.
    apply lookup_insert_is_Some'. by right. }
  induction rest as [|c rest IH]; intros base; simpl.
  - apply keeps_bind; [apply keeps_lookup_node|]. intros n.
    apply keeps_bind; [apply Hstep | intros []; apply keeps_ret].
  - apply keeps_bind; [apply keeps_lookup_node|]. intros n.
    apply keeps_bind; [apply Hstep | intros []; apply IH].
Qed.

Lemma present_kept_copy2 q src_name f dst :
  keeps (λ w, is_Some (fs (files w) !! q)) (copy2 src_name f dst).
Proof.
  unfold copy2. apply keeps_bind; [apply keeps_lookup_node|]. intros n.
  apply keeps_bind; [apply keeps_lookup_node|].
  intros [[f'|size]|]; [|apply keeps_raise|];
    (apply keeps_bind; [apply keeps_os_check|]; intros _ w Hw; simpl;
     apply lookup_insert_is_Some'; by right).
Qed.

(** A property the three file operations keep is kept by the copy of
    an item, by the loop and by the whole run. *)
Section KeptByTheRun.

Context (I : World → Prop) (update : bool).
Hypothesis Hmkdir : ∀ p, keeps I (mkdir_parents p).
Hypothesis Hunlink : ∀ p, keeps I (unlink_on_update update p).
Hypothesis Hcopy2 : ∀ src_name f dst, keeps I (copy2 src_name f dst).

Lemma keeps_copy_item target_dir p item copied :
  keeps I (copy_item target_dir update p item copied).
Proof.
  unfold copy_item. apply keeps_try; [|intros e; apply keeps_ret].
  destruct item as [f|size].
  - apply keeps_bind; [apply Hmkdir|]. intros _.
    apply keeps_bind; [apply Hunlink|]. intros _.
    apply keeps_bind; [apply Hcopy2|]. intros _. apply keeps_ret.
  - apply keeps_bind; [apply Hmkdir|]. intros _. apply keeps_ret.
Qed.

Lemma keeps_copy_items target_dir items :
  ∀ copied, keeps I (copy_items target_dir update items copied).
Proof.
  induction items as [|[p item] items IH]; intros copied; simpl.
  { apply keeps_ret. }
  destruct (_ && _); [apply IH|].
  destruct (negb (should_copy p)); [apply IH|].
  apply keeps_bind; [apply keeps_copy_item | intros ?; apply IH].
Qed.

Lemma keeps_copy_plugin_files self user_id target_dir :
  keeps I (_copy_plugin_files_impl self user_id target_dir update).
Proof.
  unfold _copy_plugin_files_impl.
  apply keeps_try; [|intros e; apply keeps_ret].
  apply keeps_bind; [apply keeps_get_world|]. intros w.
  apply keeps_bind; [apply keeps_copy_items|]. intros copied.
  apply keeps_bind; [apply keeps_end_of_scan|]. intros _.
  apply keeps_bind; [|intros ?; apply keeps_ret].
  unfold copy_lifecycle_manager.
  apply keeps_bind; [apply keeps_get_world|]. intros w'.
  destruct (lifecycle_manager_source w') as [source|]; [|apply keeps_ret].
  apply keeps_bind; [apply Hmkdir|]. intros _.
  apply keeps_bind; [apply Hunlink|]. intros _.
  apply keeps_bind; [|intros _; apply keeps_ret].
  destruct source as [f|size]; [apply Hcopy2 | apply keeps_raise].
Qed.

End KeptByTheRun.

(** X18: the synchronizer removes no directory and, without [update],
    removes nothing.  Whatever the source tree and whatever the
    operating system refuses: a path that was a directory before the run
    is a directory after it, with or without [update] (a file of the
    source is never written over a directory, a directory is never
    unlinked); and after a run without [update] every path that held
    something still holds something. *)
Theorem synchronizer_keeps_what_is_there self user_id target_dir w :
  (∀ update b,
     is_directory w b →
     is_directory (snd (_copy_plugin_files_impl self user_id target_dir update w)) b)
  ∧ (∀ q,
       is_Some (fs (files w) !! q) →
       is_Some (fs (files (snd (_copy_plugin_files_impl self user_id target_dir
                                  false w))) !! q)).
Proof.
  split.
  - intros update b Hb.
    apply (keeps_copy_plugin_files (λ w, is_directory w b) update); [| | |exact Hb].
    + intros p. apply dir_kept_mkdir_from.
    + intros p. apply dir_kept_unlink_on_update.
    + intros src_name f dst. apply dir_kept_copy2.
  - intros q Hq.
    apply (keeps_copy_plugin_files (λ w, is_Some (fs (files w) !! q)) false);
      [| | |exact Hq].
    + intros p. apply present_kept_mkdir_from.
    + intros p. apply keeps_ret.
    + intros src_name f dst. apply present_kept_copy2.
Qed.
(** ** What is listed is in the target *)

Lemma lists_a_tree_spec items :
  lists_a_tree items = true →
  (∀ p n, (p, n) ∈ items → p ≠ [])
  ∧ NoDup items.*1
  ∧ (∀ p f q n, (p, File f) ∈ items → (q, n) ∈ items → p `prefix_of` q → q = p).
Proof.
  unfold lists_a_tree. rewrite !andb_true_iff, bool_decide_eq_true.
  rewrite !forallb_forall. intros [[Hne Hnd] Hleaf]. split_and!.
  - intros p n Hin ->. apply list_elem_of_In, Hne in Hin.
    unfold path_eqb in Hin. apply negb_true_iff, bool_decide_eq_false in Hin.
    by apply Hin.
  - exact Hnd.
  - intros p f q n Hp Hq Hpre.
    apply list_elem_of_In, Hleaf in Hp. simpl in Hp.
    rewrite forallb_forall in Hp. apply list_elem_of_In, Hp in Hq. simpl in Hq.
    unfold prefixb, path_eqb in Hq.
    rewrite (bool_decide_eq_true_2 _ Hpre) in Hq. simpl in Hq.
    by apply bool_decide_eq_true in Hq.
Qed.

Lemma not_prefix_removelast {A : Type} (l : list A) :
  l ≠ [] → ¬ l `prefix_of` removelast l.
Proof.
  intros Hne Hpre. apply prefix_length in Hpre.
  destruct l as [|x l]; [done|].
  rewrite (app_removelast_last x) in Hpre at 1 by done.
  rewrite length_app in Hpre. simpl in Hpre. lia.
Qed.

Lemma app_snoc_ne {A : Type} (l : list A) x : l ++ [x] ≠ l.
Proof. intros H. apply (f_equal length) in H. rewrite length_app in H. simpl in H. lia. Qed.

Lemma same_node (items : list (path * node)) p n n' :
  NoDup items.*1 → (p, n) ∈ items → (p, n') ∈ items → n = n'.
Proof.
  induction items as [|[q m] items IH]; simpl; intros Hnd Hn Hn'.
  { by apply elem_of_nil in Hn. }
  apply NoDup_cons in Hnd as [Hq Hnd].
  apply elem_of_cons in Hn as [Hn|Hn]; apply elem_of_cons in Hn' as [Hn'|Hn'].
  - congruence.
  - injection Hn as -> ->. exfalso. apply Hq. apply list_elem_of_fmap.
    by exists (q, n').
  - injection Hn' as -> ->. exfalso. apply Hq. apply list_elem_of_fmap.
    by exists (q, n).
  - by apply IH.
Qed.

(** The three steps that put a file at [dst]. *)
Lemma place_file_done {A : Type} update src_name f dst (x y : A) w w' :
  (mkdir_parents (parent dst);; unlink_on_update update dst;;
   copy2 src_name f dst;; mret x) w = (Returned y, w') →
  dst ≠ [] →
  not_dir dst w →
  fs (files w') !! dst = Some (File f).
Proof.
  intros Hrun Hne Hnd.
  apply bind_inv in Hrun as ([] & w1 & Hmk & Hrun).
  apply bind_inv in Hrun as ([] & w2 & Hun & Hrun).
  apply bind_inv in Hrun as ([] & w3 & Hcp & Hrun).
  injection Hrun as _ <-.
  assert (not_dir dst w2) as Hnd2.
  { eapply keeps_run; [apply not_dir_unlink_on_update | | exact Hun].
    eapply keeps_run; [| exact Hnd | exact Hmk].
    apply not_dir_mkdir_parents. by apply not_prefix_removelast. }
  unfold copy2, lookup_node in Hcp.
  unfold mbind at 1, M_bind at 1 in Hcp.
  destruct (fs (files w2) !! dst) as [[f'|size]|] eqn:Hdst;
    [| by destruct (Hnd2 size) |];
    unfold mbind at 1, M_bind at 1 in Hcp; unfold path in *; rewrite Hdst in Hcp;
    unfold mbind, M_bind, os_check in Hcp;
    destruct (os_error (files w2) dst); try done;
    simpl in Hcp; injection Hcp as <-; simpl; apply lookup_insert_eq.
Qed.

Section Tree.

Context (target_dir : path) (update : bool) (tree : list (path * node)).
Hypothesis Hbelow : ∀ p n, (p, n) ∈ tree → p ≠ [].
Hypothesis Hnodup : NoDup tree.*1.
Hypothesis Hleaf :
  ∀ p f q n, (p, File f) ∈ tree → (q, n) ∈ tree → p `prefix_of` q → q = p.

(** Copying an item of the tree makes no directory where a file of the
    tree goes. *)
Lemma no_dir_at_files_copy_item p item copied :
  (p, item) ∈ tree →
  keeps (no_dir_at_files target_dir tree)
    (copy_item target_dir update p item copied).
Proof.
  intros Hin w Hw p0 f0 Hin0.
  assert (keeps (not_dir (target_dir ++ p0))
            (copy_item target_dir update p item copied)) as Hkeeps.
  { unfold copy_item. apply keeps_try; [|intros e; apply keeps_ret].
    destruct item as [f|size].
    - apply keeps_bind.
      { apply not_dir_mkdir_parents. intros Hpre.
        assert (p0 `prefix_of` p) as Hp.
        { eapply prefix_app_inv. etrans; [exact Hpre | apply removelast_prefix]. }
        apply (Hleaf _ _ _ _ Hin0 Hin) in Hp. subst p.
        revert Hpre. apply not_prefix_removelast.
        intros Hnil. apply app_eq_nil in Hnil as [_ ->]. by apply (Hbelow _ _ Hin). }
      intros _. apply keeps_bind; [apply not_dir_unlink_on_update|].
      intros _. apply keeps_bind; [apply not_dir_copy2|].
      intros _. apply keeps_ret.
    - apply keeps_bind; [|intros _; apply keeps_ret].
      apply not_dir_mkdir_parents. intros Hpre.
      apply prefix_app_inv in Hpre.
      apply (Hleaf _ _ _ _ Hin0 Hin) in Hpre. subst p.
      by pose proof (same_node _ _ _ _ Hnodup Hin Hin0). }
  apply Hkeeps. by apply (Hw p0 f0).
Qed.

Lemma no_dir_at_files_copy_items items :
  (∀ entry, entry ∈ items → entry ∈ tree) →
  ∀ copied,
    keeps (no_dir_at_files target_dir tree)
      (copy_items target_dir update items copied).
Proof.
  induction items as [|[p item] items IH]; intros Hsub copied; simpl.
  { apply keeps_ret. }
  assert (∀ copied, keeps (no_dir_at_files target_dir tree)
                      (copy_items target_dir update items copied)) as IH'.
  { apply IH. intros entry Hin. apply Hsub. by right. }
  destruct (_ && _); [apply IH'|].
  destruct (negb (should_copy p)); [apply IH'|].
  apply keeps_bind; [|intros ?; apply IH'].
  apply no_dir_at_files_copy_item. apply Hsub. by left.
Qed.

(** What the copy of one item can write or remove. *)
Lemma touches_copy_item_exact p item copied :
  touches_only
    (λ b, b `prefix_of` target_dir ++ p
          ∨ ((∃ f, item = File f) ∧ b = target_dir ++ p ++ [name p]))
    (copy_item target_dir update p item copied).
Proof.
  unfold copy_item.
  apply touches_try; [|intros e; apply touches_ret].
  destruct item as [f|size].
  - apply touches_bind.
    { apply touches_mkdir_parents. intros b Hb. left.
      etrans; [exact Hb | apply removelast_prefix]. }
    intros _. apply touches_bind.
    { apply touches_unlink_on_update. by left. }
    intros _. apply touches_bind; [|intros _; apply touches_ret].
    apply touches_copy2; [by left|]. right.
    split; [by exists f | by rewrite <- app_assoc].
  - apply touches_bind; [|intros _; apply touches_ret].
    apply touches_mkdir_parents. intros b Hb. by left.
Qed.

(** A file of the tree that is in the target stays there while other
    items are copied. *)
Lemma done_kept_copy_item p0 f0 p item copied :
  (p0, File f0) ∈ tree → (p, item) ∈ tree → p ≠ p0 →
  keeps (λ w, fs (files w) !! (target_dir ++ p0) = Some (File f0))
    (copy_item target_dir update p item copied).
Proof.
  intros Hin0 Hin Hne w Hw. rewrite <- Hw.
  apply touches_copy_item_exact.
  intros [Hpre|[[f ->] Heq]].
  - apply prefix_app_inv in Hpre. by apply (Hleaf _ _ _ _ Hin0 Hin) in Hpre.
  - apply app_inv_head in Heq.
    assert (p `prefix_of` p0) as Hpre by (rewrite Heq; by apply prefix_app_r).
    apply (Hleaf _ _ _ _ Hin Hin0) in Hpre. done.
Qed.

Lemma done_kept_copy_items p0 f0 items :
  (p0, File f0) ∈ tree →
  (∀ entry, entry ∈ items → entry ∈ tree) →
  p0 ∉ items.*1 →
  ∀ copied,
    keeps (λ w, fs (files w) !! (target_dir ++ p0) = Some (File f0))
      (copy_items target_dir update items copied).
Proof.
  intros Hin0.
  induction items as [|[p item] items IH]; intros Hsub Hout copied; simpl.
  { apply keeps_ret. }
  assert (∀ copied,
            keeps (λ w, fs (files w) !! (target_dir ++ p0) = Some (File f0))
              (copy_items target_dir update items copied)) as IH'.
  { apply IH.
    - intros entry Hin. apply Hsub. by right.
    - intros Hin. apply Hout. simpl. by right. }
  destruct (_ && _); [apply IH'|].
  destruct (negb (should_copy p)); [apply IH'|].
  apply keeps_bind; [|intros ?; apply IH'].
  apply done_kept_copy_item; [done | apply Hsub; by left |].
  intros ->. apply Hout. simpl. by left.
Qed.

(** An item the loop adds to the list is in the target. *)
Lemma copy_item_listed p f copied w copied' w' :
  copy_item target_dir update p (File f) copied w = (Returned copied', w') →
  copied' ≠ copied →
  p ≠ [] →
  not_dir (target_dir ++ p) w →
  fs (files w') !! (target_dir ++ p) = Some (File f).
Proof.
  unfold copy_item, try_except. intros Hrun Hnew Hne Hnd.
  match type of Hrun with context [let (o, w') := ?body w in _] =>
    destruct (body w) as [[c|e] w1] eqn:Hbody
  end.
  - injection Hrun as <- <-.
    eapply place_file_done; [exact Hbody | | exact Hnd].
    intros Hnil. by apply app_eq_nil in Hnil as [_ ->].
  - by injection Hrun as <- <-.
Qed.

Lemma copy_items_listed items : ∀ copied w added w',
  (∀ entry, entry ∈ items → entry ∈ tree) →
  NoDup items.*1 →
  no_dir_at_files target_dir tree w →
  copy_items target_dir update items copied w = (Returned (copied ++ added), w') →
  Forall (λ entry, ∃ p f, entry = path_str p
                          ∧ (p, File f) ∈ items
                          ∧ p ≠ ["lifecycle_manager.py"]
                          ∧ fs (files w') !! (target_dir ++ p) = Some (File f))
    added.
Proof.
  induction items as [|[p item] items IH]; intros copied w added w' Hsub Hnd Hw Hrun.
  { simpl in Hrun. injection Hrun as Heq _.
    rewrite <- (app_nil_r copied) in Heq at 1. apply app_inv_head in Heq as <-.
    constructor. }
  simpl in Hnd. apply NoDup_cons in Hnd as [Hfresh Hnd].
  assert (∀ entry, entry ∈ items → entry ∈ tree) as Hsub'
    by (intros entry Hin; apply Hsub; by right).
  assert (∀ copied0 w0 added0,
            no_dir_at_files target_dir tree w0 →
            copy_items target_dir update items copied0 w0
            = (Returned (copied0 ++ added0), w') →
            Forall (λ entry, ∃ p0 f, entry = path_str p0
                                     ∧ (p0, File f) ∈ (p, item) :: items
                                     ∧ p0 ≠ ["lifecycle_manager.py"]
                                     ∧ fs (files w') !! (target_dir ++ p0)
                                       = Some (File f)) added0) as Hrest.
  { intros copied0 w0 added0 Hw0 Hrun0.
    eapply Forall_impl; [by apply (IH copied0 w0 added0 w')|].
    intros entry (p0 & f & ? & ? & ? & ?). exists p0, f. split_and!; try done.
    by right. }
  simpl in Hrun. fold (is_own p) in Hrun.
  destruct (is_own p) eqn:Hown; [by apply (Hrest copied w)|].
  destruct (negb (should_copy p)); [by apply (Hrest copied w)|].
  destruct (copy_item_run target_dir update p item copied w)
    as (copied1 & w1 & Hitem & Hcopied1).
  rewrite (bind_returned _ _ _ _ _ Hitem) in Hrun.
  assert (no_dir_at_files target_dir tree w1) as Hw1.
  { eapply keeps_run; [| exact Hw | exact Hitem].
    apply no_dir_at_files_copy_item. apply Hsub. by left. }
  destruct (copy_items_run target_dir update items copied1 w1)
    as (added1 & w2 & Hrun1 & _).
  rewrite Hrun1 in Hrun. injection Hrun as Heq <-.
  destruct Hcopied1 as [->|(f & -> & ->)].
  - apply app_inv_head in Heq as ->. by apply (Hrest copied w1).
  - rewrite <- app_assoc in Heq. apply app_inv_head in Heq as <-. simpl.
    constructor.
    + exists p, f. split_and!; try done.
      * by left.
      * intros ->. by rewrite (proj2 (is_own_true _) eq_refl) in Hown.
      * eapply (keeps_run (λ w0, fs (files w0) !! (target_dir ++ p) = Some (File f)));
          [| | exact Hrun1].
        { apply (done_kept_copy_items p f); [apply Hsub; by left | done | done]. }
        eapply copy_item_listed; [exact Hitem | apply app_snoc_ne | |].
        -- apply (Hbelow p (File f)). apply Hsub. by left.
        -- apply (Hw p f). apply Hsub. by left.
    + by apply (Hrest (copied ++ [path_str p]) w1).
Qed.

End Tree.

Lemma own_in_tree w n :
  lifecycle_manager_source w = Some n →
  (["lifecycle_manager.py"], n) ∈ source_files (files w).
Proof.
  unfold lifecycle_manager_source. intros H.
  destruct (List.find _ _) as [[p n']|] eqn:Hfind; [|done].
  injection H as ->. apply List.find_some in Hfind as [Hin Hp].
  unfold path_eqb in Hp. apply bool_decide_eq_true in Hp. simpl in Hp. subst p.
  by apply list_elem_of_In.
Qed.

(** The block after the loop copies the installer's file as the loop
    copies an item. *)
Lemma copy_lifecycle_manager_as_item target_dir update copied w f listed w' :
  lifecycle_manager_source w = Some (File f) →
  copy_lifecycle_manager target_dir update copied w = (Returned listed, w') →
  copy_item target_dir update ["lifecycle_manager.py"] (File f) copied w
  = (Returned listed, w').
Proof.
  intros Hsrc Hrun. unfold copy_lifecycle_manager in Hrun.
  unfold mbind at 1, M_bind at 1, get_world in Hrun. rewrite Hsrc in Hrun.
  unfold copy_item.
  change (name ["lifecycle_manager.py"]) with "lifecycle_manager.py".
  change (path_str ["lifecycle_manager.py"]) with "lifecycle_manager.py".
  by apply try_returned.
Qed.

Lemma copy_lifecycle_manager_dir target_dir update copied w size listed w' :
  lifecycle_manager_source w = Some (Dir size) →
  copy_lifecycle_manager target_dir update copied w ≠ (Returned listed, w').
Proof.
  intros Hsrc Hrun. unfold copy_lifecycle_manager in Hrun.
  unfold mbind at 1, M_bind at 1, get_world in Hrun. rewrite Hsrc in Hrun.
  apply bind_inv in Hrun as ([] & w1 & _ & Hrun).
  apply bind_inv in Hrun as ([] & w2 & _ & Hrun).
  by apply bind_inv in Hrun as ([] & w3 & ? & _).
Qed.

(** X19: what the synchronizer lists, it has copied.  When the traversal
    lists a tree (nothing twice, nothing below a file) and the target has
    no directory where a file of the tree goes, every entry of the list
    a successful run returns is the path of a file of the source tree,
    and the target holds that file, with the contents of the source,
    under the same relative path, whichever copies the operating system
    refused on the way. *)
Theorem listed_files_are_in_target self user_id target_dir update w copied :
  lists_a_tree (source_files (files w)) = true →
  no_dir_at_files target_dir (source_files (files w)) w →
  let run := _copy_plugin_files_impl self user_id target_dir update w in
  fst run = Returned (Success copied) →
  ∀ entry, entry ∈ copied →
    ∃ p f, entry = path_str p
           ∧ (p, File f) ∈ source_files (files w)
           ∧ fs (files (snd run)) !! (target_dir ++ p) = Some (File f).
Proof.
  intros Htree Hw run Hrun entry Hentry. apply run_eq in Hrun.
  subst run. revert Hrun.
  generalize (snd (_copy_plugin_files_impl self user_id target_dir update w)).
  intros w' Hrun.
  apply lists_a_tree_spec in Htree as (Hbelow & Hnodup & Hleaf).
  destruct (copy_plugin_files_run self user_id target_dir update w)
    as (added & w1 & Hloop & Hsame & _ & Himpl).
  rewrite Himpl in Hrun.
  destruct (source_scan_error (files w)); [done|].
  destruct (copy_lifecycle_manager target_dir update added w1)
    as [[listed|e] w2] eqn:Hlast; [|done].
  injection Hrun as <- <-.
  set (tree := source_files (files w)) in *.
  pose proof (copy_items_listed target_dir update tree Hbelow Hnodup Hleaf
                tree [] w added w1 (λ _ H, H) Hnodup Hw Hloop) as Hadded.
  rewrite Forall_forall in Hadded.
  assert (no_dir_at_files target_dir tree w1) as Hw1.
  { eapply keeps_run; [| exact Hw | exact Hloop].
    by apply no_dir_at_files_copy_items. }
  assert (source_files (files w1) = tree) as Hsrc by apply Hsame.
  pose proof (copy_lifecycle_manager_listed _ _ _ _ _ _ Hlast) as Hlisted.
  destruct (lifecycle_manager_source w1) as [[f|size]|] eqn:Hown.
  - (* the installer's file is copied last *)
    subst listed.
    pose proof (own_in_tree _ _ Hown) as Hin. rewrite Hsrc in Hin.
    pose proof (copy_lifecycle_manager_as_item _ _ _ _ _ _ _ Hown Hlast) as Hitem.
    apply elem_of_app in Hentry as [Hentry|Hentry].
    + destruct (Hadded entry Hentry) as (p & f' & -> & Hp & Hne & Hdone).
      exists p, f'. split_and!; try done.
      eapply (keeps_run (λ w0, fs (files w0) !! (target_dir ++ p) = Some (File f')));
        [| exact Hdone | exact Hitem].
      by apply (done_kept_copy_item target_dir update tree Hleaf).
    + apply list_elem_of_singleton in Hentry as ->.
      exists ["lifecycle_manager.py"], f. split_and!; try done.
      eapply copy_item_listed; [exact Hitem | apply app_snoc_ne | done |].
      by apply (Hw1 _ f).
  - by destruct (copy_lifecycle_manager_dir _ _ _ _ _ _ _ Hown Hlast).
  - destruct Hlisted as [-> ->].
    destruct (Hadded entry Hentry) as (p & f' & -> & Hp & _ & Hdone).
    by exists p, f'.
Qed.

(** The sample tree, copied into an empty target: the bundle is there. *)
Lemma listed_files_are_in_target_witness :
  ∃ p f, "dist/remoteEntry.js" = path_str p
         ∧ (p, File f) ∈ source_files (files sample_source_world)
         ∧ fs (files (snd (_copy_plugin_files_impl chat_manager "u1" user_dir false
                             sample_source_world)))
           !! (user_dir ++ p) = Some (File f).
Proof.
  apply (listed_files_are_in_target chat_manager "u1" user_dir false
           sample_source_world
           ["package.json"; "src/BrainDriveChat.tsx"; "dist/remoteEntry.js";
            "lifecycle_manager.py"]).
  - vm_compute. reflexivity.
  - intros p f _ size. simpl. by rewrite lookup_empty.
  - vm_compute. reflexivity.
  - do 2 right. left.
Defined.
(** ** A run with refusals *)

Lemma os_error_kept {A : Type} (m : M A) w :
  writes_files_only m → os_error (files (snd (m w))) = os_error (files w).
Proof. intros Hm. by destruct (Hm w) as (_ & _ & _ & _ & ->). Qed.

Lemma os_error_run {A : Type} (m : M A) w o w' :
  writes_files_only m → m w = (o, w') → os_error (files w') = os_error (files w).
Proof. intros Hm Hrun. pose proof (os_error_kept m w Hm) as H. by rewrite Hrun in H. Qed.

Lemma filter_all {A : Type} (f : A → bool) l :
  (∀ x, f x = true) → List.filter f l = l.
Proof. intros Hf. induction l as [|x l IH]; [done|]. simpl. by rewrite Hf, IH. Qed.

(** One step of [mkdir] on a path that is not a file. *)
Lemma mkdir_step_ok base w :
  os_error (files w) base = None → not_file base w →
  ∃ w1,
    (match fs (files w) !! base with
     | Some (Dir _) => mret tt
     | Some (File _) => raise (Exn OSError "File exists")
     | None => os_check base;; write_node base (Dir 0)
     end) w = (Returned tt, w1)
    ∧ is_directory w1 base
    ∧ os_error (files w1) = os_error (files w)
    ∧ ∀ b, not_file b w → not_file b w1.
Proof.
  intros Hos Hbase.
  destruct (fs (files w) !! base) as [[f|size]|] eqn:Hb.
  - by destruct (Hbase f).
  - exists w. split_and!; try done. by exists size.
  - unfold mbind, M_bind, os_check. rewrite Hos. simpl.
    eexists. split; [reflexivity|]. split_and!.
    + exists 0%N. simpl. apply lookup_insert_eq.
    + done.
    + intros b Hnf f. simpl. destruct (decide (base = b)) as [->|Hne].
      * by rewrite lookup_insert_eq.
      * rewrite lookup_insert_ne by done. apply Hnf.
Qed.

Lemma mkdir_from_ok rest : ∀ base w,
  (∀ b, base `prefix_of` b → b `prefix_of` base ++ rest →
        os_error (files w) b = None ∧ not_file b w) →
  ∃ w', mkdir_from base rest w = (Returned tt, w')
        ∧ is_directory w' (base ++ rest).
Proof.
  induction rest as [|c rest IH]; intros base w Hway.
  - destruct (Hway base) as [Hos Hnf]; [done | by rewrite app_nil_r |].
    destruct (mkdir_step_ok base w Hos Hnf) as (w1 & Hstep & Hdir & _).
    exists w1. rewrite app_nil_r. split; [|done].
    simpl. unfold mbind at 1, M_bind at 1, lookup_node.
    by rewrite (bind_returned _ _ _ _ _ Hstep).
  - destruct (Hway base) as [Hos Hnf]; [done | by apply prefix_app_r |].
    destruct (mkdir_step_ok base w Hos Hnf) as (w1 & Hstep & _ & Hos1 & Hnf1).
    destruct (IH (base ++ [c]) w1) as (w' & Hrun & Hdir).
    { intros b H1 H2. destruct (Hway b) as [Hb1 Hb2].
      - etrans; [|exact H1]. by apply prefix_app_r.
      - by rewrite <- app_assoc in H2.
      - split; [by rewrite Hos1 | by apply Hnf1]. }
    exists w'. rewrite <- app_assoc in Hdir. split; [|done].
    simpl. unfold mbind at 1, M_bind at 1, lookup_node.
    by rewrite (bind_returned _ _ _ _ _ Hstep).
Qed.

Lemma unlink_on_update_ok update dst w :
  os_error (files w) dst = None → not_dir dst w →
  ∃ w', unlink_on_update update dst w = (Returned tt, w').
Proof.
  intros Hos Hnd. unfold unlink_on_update. destruct update; [|by eexists].
  rewrite (bind_returned _ _ _ _ _ (path_exists_run dst w)).
  unfold exists_at.
  destruct (fs (files w) !! dst) as [[f|size]|] eqn:Hdst.
  - rewrite bool_decide_eq_true_2 by eauto.
    unfold unlink, lookup_node, mbind, M_bind. unfold path in *. rewrite Hdst.
    unfold os_check. rewrite Hos. by eexists.
  - by destruct (Hnd size).
  - rewrite bool_decide_eq_false_2 by (by intros [? ?]). by eexists.
Qed.

(** [copy2] onto a path that is not a directory: the file is written
    there unless the operating system refuses it. *)
Lemma copy2_run src_name f dst w :
  not_dir dst w →
  copy2 src_name f dst w =
    match os_error (files w) dst with
    | None => (Returned tt, with_fs (<[dst := File f]> (fs (files w))) w)
    | Some msg => (Raised (Exn OSError msg), w)
    end.
Proof.
  intros Hnd. unfold copy2, lookup_node.
  unfold mbind at 1, M_bind at 1.
  destruct (fs (files w) !! dst) as [[f'|size]|] eqn:Hdst;
    [| by destruct (Hnd size) |];
    unfold mbind at 1, M_bind at 1; unfold path in *; rewrite Hdst;
    unfold mbind, M_bind, os_check; by destruct (os_error (files w) dst).
Qed.

Lemma copy2_ok src_name f dst w :
  os_error (files w) dst = None → not_dir dst w →
  copy2 src_name f dst w
  = (Returned tt, with_fs (<[dst := File f]> (fs (files w))) w).
Proof. intros Hos Hnd. by rewrite copy2_run, Hos. Qed.

(** The three steps that put a file at [dst], when nothing is in the
    way. *)
Lemma place_file_ok {A : Type} update src_name f dst (x : A) w :
  (∀ b, b `prefix_of` dst → os_error (files w) b = None) →
  dst ≠ [] →
  not_dir dst w →
  (∀ b, b `prefix_of` parent dst → not_file b w) →
  ∃ w', (mkdir_parents (parent dst);; unlink_on_update update dst;;
         copy2 src_name f dst;; mret x) w = (Returned x, w').
Proof.
  intros Hos Hne Hnd Hway.
  destruct (mkdir_from_ok (parent dst) [] w) as (w1 & Hmk & _).
  { intros b _ Hb. split; [|by apply Hway].
    apply Hos. etrans; [exact Hb | apply removelast_prefix]. }
  fold (mkdir_parents (parent dst)) in Hmk.
  assert (os_error (files w1) dst = None) as Hos1.
  { rewrite (os_error_run _ _ _ _ (wfo_mkdir_parents _) Hmk). by apply Hos. }
  assert (not_dir dst w1) as Hnd1.
  { eapply keeps_run; [| exact Hnd | exact Hmk].
    apply not_dir_mkdir_parents. by apply not_prefix_removelast. }
  destruct (unlink_on_update_ok update dst w1 Hos1 Hnd1) as (w2 & Hun).
  assert (os_error (files w2) dst = None) as Hos2.
  { by rewrite (os_error_run _ _ _ _ (wfo_unlink_on_update _ _) Hun). }
  assert (not_dir dst w2) as Hnd2.
  { eapply keeps_run; [apply not_dir_unlink_on_update | exact Hnd1 | exact Hun]. }
  eexists.
  rewrite (bind_returned _ _ _ _ _ Hmk), (bind_returned _ _ _ _ _ Hun).
  rewrite (bind_returned _ _ _ _ _ (copy2_ok src_name f dst w2 Hos2 Hnd2)).
  reflexivity.
Qed.

(** A copy the operating system refuses: whatever the steps before
    the writing do, the item is not listed. *)
Lemma copy_item_refused target_dir update p f copied w msg :
  p ≠ [] →
  os_error (files w) (target_dir ++ p) = Some msg →
  not_dir (target_dir ++ p) w →
  ∃ w', copy_item target_dir update p (File f) copied w = (Returned copied, w').
Proof.
  intros Hne Hos Hnd. unfold copy_item, try_except.
  destruct (mkdir_parents (parent (target_dir ++ p)) w) as [[[]|e1] w1] eqn:Hmk.
  2:{ rewrite (bind_raised _ _ _ _ _ Hmk). by eexists. }
  rewrite (bind_returned _ _ _ _ _ Hmk).
  assert (os_error (files w1) (target_dir ++ p) = Some msg) as Hos1.
  { by rewrite (os_error_run _ _ _ _ (wfo_mkdir_parents _) Hmk). }
  assert (not_dir (target_dir ++ p) w1) as Hnd1.
  { eapply keeps_run; [| exact Hnd | exact Hmk].
    apply not_dir_mkdir_parents. apply not_prefix_removelast.
    intros Hnil. by apply app_eq_nil in Hnil as [_ ->]. }
  destruct (unlink_on_update update (target_dir ++ p) w1) as [[[]|e2] w2] eqn:Hun.
  2:{ rewrite (bind_raised _ _ _ _ _ Hun). by eexists. }
  rewrite (bind_returned _ _ _ _ _ Hun).
  assert (os_error (files w2) (target_dir ++ p) = Some msg) as Hos2.
  { by rewrite (os_error_run _ _ _ _ (wfo_unlink_on_update _ _) Hun). }
  assert (not_dir (target_dir ++ p) w2) as Hnd2.
  { eapply keeps_run; [apply not_dir_unlink_on_update | exact Hnd1 | exact Hun]. }
  assert (copy2 (name p) f (target_dir ++ p) w2 = (Raised (Exn OSError msg), w2))
    as Hcp by (by rewrite copy2_run, Hos2).
  rewrite (bind_raised _ _ _ _ _ Hcp). by eexists.
Qed.

(** No file appears where [mkdir] and [unlink] work. *)
Lemma not_file_mkdir_from b rest : ∀ base, keeps (not_file b) (mkdir_from base rest).
Proof.
  assert (∀ (base : path) (n : option node),
            keeps (not_file b)
              (match n with
               | Some (Dir _) => mret tt
               | Some (File _) => raise (Exn OSError "File exists")
               | None => os_check base;; write_node base (Dir 0)
               end)) as Hstep.
  { intros base [[f|size]|]; [apply keeps_raise | apply keeps_ret |].
    apply keeps_bind; [apply keeps_os_check|]. intros _ w Hw f. simpl.
    destruct (decide (base = b)) as [->|Hne].
    - by rewrite lookup_insert_eq.
    - rewrite lookup_insert_ne by done. apply Hw. }
  induction rest as [|c rest IH]; intros base; simpl.
  - apply keeps_bind; [apply keeps_lookup_node|]. intros n.
    apply keeps_bind; [apply Hstep | intros []; apply keeps_ret].
  - apply keeps_bind; [apply keeps_lookup_node|]. intros n.
    apply keeps_bind; [apply Hstep | intros []; apply IH].
Qed.

Lemma not_file_unlink_on_update b update p :
  keeps (not_file b) (unlink_on_update update p).
Proof.
  unfold unlink_on_update. destruct update; [|apply keeps_ret].
  apply keeps_bind; [apply keeps_path_exists|]. intros [|]; [|apply keeps_ret].
  unfold unlink. apply keeps_bind; [apply keeps_lookup_node|].
  intros [[f|size]|]; [|apply keeps_raise..].
  apply keeps_bind; [apply keeps_os_check|]. intros _ w Hw f'. simpl.
  destruct (decide (p = b)) as [->|Hne].
  - by rewrite lookup_delete_eq.
  - rewrite lookup_delete_ne by done. apply Hw.
Qed.

(** What [not_file] keeps, [no_file_on_way] keeps. *)
Lemma no_file_on_way_kept {A : Type} target_dir tree (m : M A) :
  (∀ b, keeps (not_file b) m) → keeps (no_file_on_way target_dir tree) m.
Proof.
  intros Hm w Hw q n b f Hin Hpre Hfile.
  destruct (fs (files w) !! b) as [[f0|size]|] eqn:Hb.
  - by apply (Hw q n b f0).
  - destruct (Hm b w) with f; [|done]. intros f'. unfold path in *. by rewrite Hb.
  - destruct (Hm b w) with f; [|done]. intros f'. unfold path in *. by rewrite Hb.
Qed.

(** The entry is the head of the list or in its tail. *)
Ltac head_or_tail H :=
  apply elem_of_cons in H as [H|H]; [injection H as ? ?; subst; try discriminate|].

Section Passable.

Context (target_dir : path) (update : bool) (tree : list (path * node)).
Hypothesis Hbelow : ∀ p n, (p, n) ∈ tree → p ≠ [].
Hypothesis Hnodup : NoDup tree.*1.
Hypothesis Hleaf :
  ∀ p f q n, (p, File f) ∈ tree → (q, n) ∈ tree → p `prefix_of` q → q = p.

(** On the way to an entry of the tree nothing is refused, nor is the
    making of a directory of the tree. *)
Lemma way_allowed p n b w :
  (p, n) ∈ tree → refuses_files_only target_dir tree w →
  b `prefix_of` target_dir ++ p →
  b ≠ target_dir ++ p ∨ (∃ size, n = Dir size) →
  os_error (files w) b = None.
Proof.
  intros Hin Hos Hpre Hcase.
  destruct (os_error (files w) b) as [msg|] eqn:Hb; [|done]. exfalso.
  destruct (Hos b msg Hb) as (p' & f' & Hin' & ->).
  apply prefix_app_inv in Hpre.
  pose proof (Hleaf _ _ _ _ Hin' Hin Hpre) as ->.
  destruct Hcase as [Hne|[size ->]]; [done|].
  by pose proof (same_node _ _ _ _ Hnodup Hin Hin').
Qed.

Lemma passable_copy_item p item copied :
  (p, item) ∈ tree →
  keeps (passable target_dir tree) (copy_item target_dir update p item copied).
Proof.
  intros Hin w (Hos & Hnd & Hway). split_and!.
  - intros b msg Hb. apply (Hos b msg).
    by rewrite (os_error_kept _ w (wfo_copy_item target_dir update p item copied))
      in Hb.
  - by apply (no_dir_at_files_copy_item target_dir update tree Hbelow Hnodup Hleaf).
  - revert w Hos Hnd Hway.
    unfold copy_item. intros w Hos Hnd Hway.
    destruct item as [f|size].
    + unfold try_except.
      destruct (mkdir_parents (parent (target_dir ++ p)) w) as [[[]|e1] w1] eqn:Hmk.
      2:{ rewrite (bind_raised _ _ _ _ _ Hmk). simpl.
          eapply (keeps_run (no_file_on_way target_dir tree)); [| exact Hway | exact Hmk].
          apply no_file_on_way_kept. intros b. apply not_file_mkdir_from. }
      rewrite (bind_returned _ _ _ _ _ Hmk).
      assert (no_file_on_way target_dir tree w1) as Hway1.
      { eapply (keeps_run (no_file_on_way target_dir tree)); [| exact Hway | exact Hmk].
        apply no_file_on_way_kept. intros b. apply not_file_mkdir_from. }
      assert (not_dir (target_dir ++ p) w1) as Hnd1.
      { eapply keeps_run; [| exact (Hnd p f Hin) | exact Hmk].
        apply not_dir_mkdir_parents. apply not_prefix_removelast.
        intros Hnil. apply app_eq_nil in Hnil as [_ ->]. by apply (Hbelow _ _ Hin). }
      destruct (unlink_on_update update (target_dir ++ p) w1) as [[[]|e2] w2] eqn:Hun.
      2:{ rewrite (bind_raised _ _ _ _ _ Hun). simpl.
          eapply (keeps_run (no_file_on_way target_dir tree)); [| exact Hway1 | exact Hun].
          apply no_file_on_way_kept. intros b. apply not_file_unlink_on_update. }
      rewrite (bind_returned _ _ _ _ _ Hun).
      assert (no_file_on_way target_dir tree w2) as Hway2.
      { eapply (keeps_run (no_file_on_way target_dir tree)); [| exact Hway1 | exact Hun].
        apply no_file_on_way_kept. intros b. apply not_file_unlink_on_update. }
      assert (not_dir (target_dir ++ p) w2) as Hnd2.
      { eapply keeps_run; [apply not_dir_unlink_on_update | exact Hnd1 | exact Hun]. }
      pose proof (copy2_run (name p) f _ w2 Hnd2) as Hcp.
      destruct (os_error (files w2) (target_dir ++ p)) as [msg|].
      { by rewrite (bind_raised _ _ _ _ _ Hcp). }
      rewrite (bind_returned _ _ _ _ _ Hcp).
      simpl. intros q n b f0 Hq Hpre Hfile. simpl in Hfile.
      destruct (decide (target_dir ++ p = b)) as [<-|Hne].
      * apply prefix_app_inv in Hpre.
        apply (Hleaf _ _ _ _ Hin Hq) in Hpre. subst q.
        split; [done|]. exists f. exact (same_node _ _ _ _ Hnodup Hq Hin).
      * rewrite lookup_insert_ne in Hfile by done.
        by apply (Hway2 q n b f0).
    + unfold try_except.
      assert (no_file_on_way target_dir tree
                (snd (mkdir_parents (target_dir ++ p) w))) as Hway1.
      { apply no_file_on_way_kept; [|done]. intros b. apply not_file_mkdir_from. }
      unfold mbind, M_bind.
      by destruct (mkdir_parents (target_dir ++ p) w) as [[[]|e1] w1].
Qed.

(** The copy of a file of the tree that is not refused goes through. *)
Lemma copy_item_ok p f copied w :
  (p, File f) ∈ tree → passable target_dir tree w →
  os_error (files w) (target_dir ++ p) = None →
  ∃ w', copy_item target_dir update p (File f) copied w
        = (Returned (copied ++ [path_str p]), w').
Proof.
  intros Hin (Hos & Hnd & Hway) Hfree. unfold copy_item.
  destruct (place_file_ok update (name p) f (target_dir ++ p)
              (copied ++ [path_str p]) w) as (w' & Hrun).
  - intros b Hb. destruct (decide (b = target_dir ++ p)) as [->|Hne]; [done|].
    eapply way_allowed; [exact Hin | exact Hos | exact Hb | by left].
  - intros Hnil. apply app_eq_nil in Hnil as [_ ->]. by apply (Hbelow _ _ Hin).
  - by apply (Hnd p f).
  - intros b Hb f0 Hfile.
    destruct (Hway p (File f) b f0 Hin) as [-> _]; [| done |].
    + etrans; [exact Hb | apply removelast_prefix].
    + revert Hb. apply not_prefix_removelast.
      intros Hnil. apply app_eq_nil in Hnil as [_ ->]. by apply (Hbelow _ _ Hin).
  - exists w'. by apply try_returned.
Qed.

(** The copy of a directory of the tree makes the directory. *)
Lemma copy_item_dir_ok p size copied w :
  (p, Dir size) ∈ tree → passable target_dir tree w →
  ∃ w', copy_item target_dir update p (Dir size) copied w = (Returned copied, w')
        ∧ is_directory w' (target_dir ++ p).
Proof.
  intros Hin (Hos & Hnd & Hway). unfold copy_item.
  destruct (mkdir_from_ok (target_dir ++ p) [] w) as (w' & Hmk & Hdir).
  { intros b _ Hb. split.
    - eapply way_allowed; [exact Hin | exact Hos | exact Hb | right; by eexists].
    - intros f0 Hfile.
      by destruct (Hway p (Dir size) b f0 Hin Hb Hfile) as [_ [? ?]]. }
  exists w'. simpl in Hdir. split; [|done].
  apply try_returned. fold (mkdir_parents (target_dir ++ p)) in Hmk.
  by rewrite (bind_returned _ _ _ _ _ Hmk).
Qed.

Lemma dir_kept_copy_items b items : ∀ copied,
  keeps (λ w, is_directory w b) (copy_items target_dir update items copied).
Proof.
  apply keeps_copy_items.
  - intros p. apply dir_kept_mkdir_from.
  - intros p. apply dir_kept_unlink_on_update.
  - intros src_name f dst. apply dir_kept_copy2.
Qed.

Lemma copyable_cons p item items :
  copyable ((p, item) :: items) =
    if match item with
       | File _ => negb (is_own p) && should_copy p
       | Dir _ => false
       end
    then p :: copyable items else copyable items.
Proof. unfold copyable. simpl. by destruct (match item with File _ => _ | _ => _ end). Qed.

(** The loop on a passable target: every file to copy that is not
    refused is listed, in the order of the traversal, and is in the
    target; a refused one is passed over; every directory that is not
    left out is there. *)
Lemma copy_items_passable items : ∀ copied w,
  (∀ entry, entry ∈ items → entry ∈ tree) →
  NoDup items.*1 →
  passable target_dir tree w →
  ∃ w',
    copy_items target_dir update items copied w
    = (Returned
         (copied ++ (path_str <$> List.filter (allowed w target_dir) (copyable items))),
       w')
    ∧ passable target_dir tree w'
    ∧ (∀ p f, (p, File f) ∈ items → is_own p = false → should_copy p = true →
              allowed w target_dir p = true →
              fs (files w') !! (target_dir ++ p) = Some (File f))
    ∧ (∀ p size, (p, Dir size) ∈ items → is_own p = false → should_copy p = true →
                 is_directory w' (target_dir ++ p)).
Proof.
  induction items as [|[p item] items IH]; intros copied w Hsub Hnd Hw.
  { exists w. simpl. rewrite app_nil_r. split_and!; try done.
    - intros p f Hin. by apply elem_of_nil in Hin.
    - intros p size Hin. by apply elem_of_nil in Hin. }
  simpl in Hnd. apply NoDup_cons in Hnd as [Hfresh Hnd].
  assert (∀ entry, entry ∈ items → entry ∈ tree) as Hsub'
    by (intros entry Hin; apply Hsub; by right).
  assert ((p, item) ∈ tree) as Hin by (apply Hsub; by left).
  assert (∀ w1 o, copy_item target_dir update p item copied w = (o, w1) →
            passable target_dir tree w1
            ∧ allowed w1 target_dir = allowed w target_dir) as Hnext.
  { intros w1 o Hitem. split.
    - eapply keeps_run; [by apply (passable_copy_item p item copied) | exact Hw | exact Hitem].
    - unfold allowed.
      by rewrite (os_error_run _ _ _ _ (wfo_copy_item _ _ _ _ _) Hitem). }
  simpl copy_items. fold (is_own p). rewrite copyable_cons.
  assert (∀ w1 : World,
            passable target_dir tree w1 →
            allowed w1 target_dir = allowed w target_dir →
            ∃ w',
              copy_items target_dir update items copied w1
              = (Returned
                   (copied
                    ++ (path_str <$> List.filter (allowed w target_dir) (copyable items))),
                 w')
              ∧ passable target_dir tree w'
              ∧ (∀ p0 f, (p0, File f) ∈ items →
                   is_own p0 = false → should_copy p0 = true →
                   allowed w target_dir p0 = true →
                   fs (files w') !! (target_dir ++ p0) = Some (File f))
              ∧ (∀ p0 size, (p0, Dir size) ∈ items →
                   is_own p0 = false → should_copy p0 = true →
                   is_directory w' (target_dir ++ p0))) as Hrest.
  { intros w1 Hw1 Hal.
    destruct (IH copied w1 Hsub' Hnd Hw1) as (w' & Hrun & Hw' & Hfiles & Hdirs).
    rewrite Hal in Hrun, Hfiles. by exists w'. }
  assert (is_own p = true ∨ should_copy p = false
          ∨ (∃ f, item = File f ∧ allowed w target_dir p = false) →
          ∀ w1, passable target_dir tree w1 →
            allowed w1 target_dir = allowed w target_dir →
            ∃ w',
              copy_items target_dir update items copied w1
              = (Returned
                   (copied
                    ++ (path_str <$> List.filter (allowed w target_dir) (copyable items))),
                 w')
              ∧ passable target_dir tree w'
              ∧ (∀ p0 f, (p0, File f) ∈ (p, item) :: items →
                   is_own p0 = false → should_copy p0 = true →
                   allowed w target_dir p0 = true →
                   fs (files w') !! (target_dir ++ p0) = Some (File f))
              ∧ (∀ p0 size, (p0, Dir size) ∈ (p, item) :: items →
                   is_own p0 = false → should_copy p0 = true →
                   is_directory w' (target_dir ++ p0))) as Hskip.
  { (* the entry is passed over *)
    intros Hor w1 Hw1 Hal.
    destruct (Hrest w1 Hw1 Hal) as (w' & Hrun & Hw' & Hfiles & Hdirs).
    exists w'. split_and!; try done.
    - intros p0 f Hp0 Hown0 Hcopy0 Hal0.
      apply elem_of_cons in Hp0 as [Hp0|Hp0]; [|by apply Hfiles].
      injection Hp0 as -> _.
      destruct Hor as [?|[?|(f' & _ & ?)]]; congruence.
    - intros p0 size Hp0 Hown0 Hcopy0.
      apply elem_of_cons in Hp0 as [Hp0|Hp0]; [|by apply (Hdirs _ size)].
      injection Hp0 as -> Hd.
      destruct Hor as [?|[?|(f' & ? & _)]]; congruence. }
  destruct (is_own p) eqn:Hown.
  { destruct item; simpl; apply Hskip; auto. }
  destruct (should_copy p) eqn:Hcopy.
  2:{ destruct item; simpl; apply Hskip; auto. }
  destruct item as [f|size]; simpl.
  - (* a file *)
    destruct (allowed w target_dir p) eqn:Hal; unfold allowed in Hal.
    + destruct (os_error (files w) (target_dir ++ p)) eqn:Hfree; [done|].
      destruct (copy_item_ok p f copied w Hin Hw Hfree) as (w1 & Hitem).
      destruct (Hnext _ _ Hitem) as [Hw1 Hal1].
      destruct (IH (copied ++ [path_str p]) w1 Hsub' Hnd Hw1)
        as (w' & Hrun & Hw' & Hfiles & Hdirs).
      rewrite Hal1 in Hrun, Hfiles.
      exists w'. rewrite (bind_returned _ _ _ _ _ Hitem), Hrun.
      rewrite <- app_assoc. split_and!; try done.
      * intros p0 f0 Hp0 Hown0 Hcopy0 Hal0.
        head_or_tail Hp0; [|by apply Hfiles].
        eapply (keeps_run (λ w0, fs (files w0) !! (target_dir ++ p) = Some (File f)));
          [| | exact Hrun].
        { by apply (done_kept_copy_items target_dir update tree Hleaf p f). }
        eapply (copy_item_listed target_dir update); [exact Hitem | apply app_snoc_ne | |].
        -- by apply (Hbelow p (File f)).
        -- destruct Hw as (_ & Hnodir & _). by apply (Hnodir p f).
      * intros p0 size Hp0 Hown0 Hcopy0.
        head_or_tail Hp0. by apply (Hdirs _ size).
    + destruct (os_error (files w) (target_dir ++ p)) as [msg|] eqn:Hfree; [|done].
      destruct (copy_item_refused target_dir update p f copied w msg) as (w1 & Hitem).
      { by apply (Hbelow p (File f)). }
      { exact Hfree. }
      { destruct Hw as (_ & Hnodir & _). by apply (Hnodir p f). }
      destruct (Hnext _ _ Hitem) as [Hw1 Hal1].
      rewrite (bind_returned _ _ _ _ _ Hitem).
      apply Hskip; [|done..].
      right; right. exists f. split; [done|]. unfold allowed. by rewrite ?Hfree.
  - (* a directory *)
    destruct (copy_item_dir_ok p size copied w Hin Hw) as (w1 & Hitem & Hdir).
    destruct (Hnext _ _ Hitem) as [Hw1 Hal1].
    destruct (Hrest w1 Hw1 Hal1) as (w' & Hrun & Hw' & Hfiles & Hdirs).
    exists w'. rewrite (bind_returned _ _ _ _ _ Hitem), Hrun.
    split_and!; try done.
    + intros p0 f0 Hp0 Hown0 Hcopy0 Hal0.
      head_or_tail Hp0. by apply Hfiles.
    + intros p0 size0 Hp0 Hown0 Hcopy0.
      head_or_tail Hp0; [|by apply (Hdirs _ size0)].
      eapply (keeps_run (λ w0, is_directory w0 (target_dir ++ p)));
        [apply dir_kept_copy_items | exact Hdir | exact Hrun].
Qed.

End Passable.

(** The run on a passable target: the loop copies every file it is to
    copy and the operating system lets it write, the block after it
    the installer's file. *)
Lemma copy_plugin_files_passable self user_id target_dir update w f0 :
  let tree := source_files (files w) in
  lists_a_tree tree = true →
  source_scan_error (files w) = None →
  lifecycle_manager_source w = Some (File f0) →
  passable target_dir tree w →
  allowed w target_dir [own_file] = true →
  let run := _copy_plugin_files_impl self user_id target_dir update w in
  fst run
  = Returned (Success ((path_str <$> List.filter (allowed w target_dir) (copyable tree))
                       ++ [own_file]))
  ∧ (∀ p f, (p, File f) ∈ tree → ¬ excluded p → allowed w target_dir p = true →
            fs (files (snd run)) !! (target_dir ++ p) = Some (File f))
  ∧ (∀ p size, (p, Dir size) ∈ tree → ¬ excluded p →
               is_directory (snd run) (target_dir ++ p)).
Proof.
  intros tree Htree Hscan Hown Hw Hal0 run.
  apply lists_a_tree_spec in Htree as (Hbelow & Hnodup & Hleaf).
  destruct (copy_items_passable target_dir update tree Hbelow Hnodup Hleaf tree [] w
              (λ _ H, H) Hnodup Hw) as (w1 & Hloop & Hw1 & Hfiles & Hdirs).
  simpl in Hloop.
  set (listed := path_str <$> List.filter (allowed w target_dir) (copyable tree)) in *.
  assert (same_but_fs w w1) as Hsame.
  { pose proof (wfo_copy_items target_dir update tree [] w) as H.
    by rewrite Hloop in H. }
  assert (lifecycle_manager_source w1 = Some (File f0)) as Hown1.
  { unfold lifecycle_manager_source in *. destruct Hsame as (_ & _ & -> & _). exact Hown. }
  pose proof (own_in_tree _ _ Hown) as Hin0. fold tree in Hin0.
  (* the block after the loop *)
  assert (os_error (files w1) (target_dir ++ ["lifecycle_manager.py"]) = None)
    as Hfree.
  { destruct Hsame as (_ & _ & _ & _ & ->). unfold allowed, own_file in Hal0.
    by destruct (os_error (files w) (target_dir ++ ["lifecycle_manager.py"])). }
  destruct (copy_item_ok target_dir update tree Hbelow Hnodup Hleaf
              ["lifecycle_manager.py"] f0 listed w1 Hin0 Hw1 Hfree) as (w2 & Hitem).
  change (path_str ["lifecycle_manager.py"]) with own_file in Hitem.
  assert (copy_lifecycle_manager target_dir update listed w1
          = (Returned (listed ++ [own_file]), w2)) as Hlast.
  { unfold copy_lifecycle_manager. unfold mbind at 1, M_bind at 1, get_world.
    rewrite Hown1. unfold copy_item, try_except in Hitem.
    change (name ["lifecycle_manager.py"]) with "lifecycle_manager.py" in Hitem.
    change (path_str ["lifecycle_manager.py"]) with "lifecycle_manager.py" in Hitem.
    match type of Hitem with context [let (o, w') := ?body w1 in _] =>
      destruct (body w1) as [[c|e] w3] eqn:Hbody
    end; [exact Hitem|].
    injection Hitem as Habs _. symmetry in Habs. by apply app_snoc_ne in Habs. }
  assert (run = (Returned (Success (listed ++ [own_file])), w2)) as ->.
  { subst run. unfold _copy_plugin_files_impl, try_except.
    unfold mbind at 1, M_bind at 1, get_world. fold tree.
    rewrite (bind_returned _ _ _ _ _ Hloop).
    unfold end_of_scan, mbind at 1, M_bind at 1, mbind at 1, M_bind at 1, get_world.
    destruct Hsame as (_ & _ & _ & -> & _). rewrite Hscan. simpl.
    by rewrite (bind_returned _ _ _ _ _ Hlast). }
  simpl. split; [done|]. split.
  - intros p f Hp Hex Hal.
    assert (should_copy p = true) as Hcopy.
    { destruct (should_copy p) eqn:H; [done|]. by apply should_copy_excluded in H. }
    destruct (is_own p) eqn:Hp_own.
    + apply is_own_true in Hp_own as ->.
      pose proof (same_node _ _ _ _ Hnodup Hp Hin0) as [= ->].
      eapply (copy_item_listed target_dir update); [exact Hitem | apply app_snoc_ne | done |].
      destruct Hw1 as (_ & Hnodir & _). by apply (Hnodir _ f0).
    + eapply (keeps_run (λ w0, fs (files w0) !! (target_dir ++ p) = Some (File f)));
        [| by apply Hfiles | exact Hitem].
      apply (done_kept_copy_item target_dir update tree Hleaf); try done.
      intros <-. by rewrite (proj2 (is_own_true _) eq_refl) in Hp_own.
  - intros p size Hp Hex.
    assert (should_copy p = true) as Hcopy.
    { destruct (should_copy p) eqn:H; [done|]. by apply should_copy_excluded in H. }
    destruct (is_own p) eqn:Hp_own.
    + apply is_own_true in Hp_own as ->.
      by pose proof (same_node _ _ _ _ Hnodup Hp Hin0).
    + eapply (keeps_run (λ w0, is_directory w0 (target_dir ++ p)));
        [| by apply (Hdirs p size) | exact Hitem].
      apply keeps_copy_item.
      * intros q. apply dir_kept_mkdir_from.
      * intros q. apply dir_kept_unlink_on_update.
      * intros src_name f dst. apply dir_kept_copy2.
Qed.

(** ** A run that nothing hinders *)

(** The run on an unhindered target: the loop copies every file it is
    to copy, the block after it the installer's file. *)
Lemma copy_plugin_files_unhindered self user_id target_dir update w f0 :
  let tree := source_files (files w) in
  lists_a_tree tree = true →
  source_scan_error (files w) = None →
  lifecycle_manager_source w = Some (File f0) →
  unhindered target_dir tree w →
  let run := _copy_plugin_files_impl self user_id target_dir update w in
  fst run = Returned (Success ((path_str <$> copyable tree) ++ [own_file]))
  ∧ (∀ p f, (p, File f) ∈ tree → ¬ excluded p →
            fs (files (snd run)) !! (target_dir ++ p) = Some (File f))
  ∧ (∀ p size, (p, Dir size) ∈ tree → ¬ excluded p →
               is_directory (snd run) (target_dir ++ p)).
Proof.
  intros tree Htree Hscan Hown (Hos & Hnd & Hway) run.
  assert (∀ p, allowed w target_dir p = true) as Hal
    by (intros p; unfold allowed; by rewrite Hos).
  destruct (copy_plugin_files_passable self user_id target_dir update w f0
              Htree Hscan Hown) as (Hres & Hfiles & Hdirs).
  { split_and!; try done. intros b msg Hb. by rewrite Hos in Hb. }
  { apply Hal. }
  fold tree in Hres, Hfiles, Hdirs. fold run in Hres, Hfiles, Hdirs.
  rewrite (filter_all _ _ Hal) in Hres.
  split_and!; [done | | done].
  intros p f Hp Hex. by apply Hfiles.
Qed.

(** X20: on a target where nothing is in the way the synchronizer copies
    the whole tree.  When the traversal lists a tree and ends without an
    error, the installer's file is a file of the source, the operating
    system refuses nothing, no directory of the target lies where a file
    goes and no file on the way to an entry: the run succeeds; its list
    is exactly the files of the tree that are not excluded, in the order
    of the traversal, with [lifecycle_manager.py] moved to the end;
    every file that is not excluded is in the target with its contents,
    and every directory that is not excluded is a directory there. *)
Theorem synchronizer_copies_the_tree self user_id target_dir update w f0 :
  let tree := source_files (files w) in
  lists_a_tree tree = true →
  source_scan_error (files w) = None →
  lifecycle_manager_source w = Some (File f0) →
  unhindered target_dir tree w →
  let run := _copy_plugin_files_impl self user_id target_dir update w in
  fst run = Returned (Success ((path_str <$> copyable tree) ++ [own_file]))
  ∧ (∀ p f, (p, File f) ∈ tree → ¬ excluded p →
            fs (files (snd run)) !! (target_dir ++ p) = Some (File f))
  ∧ (∀ p size, (p, Dir size) ∈ tree → ¬ excluded p →
               is_directory (snd run) (target_dir ++ p)).
Proof.
  intros tree Htree Hscan Hown Hw run.
  by apply (copy_plugin_files_unhindered self user_id target_dir update w f0).
Qed.

(** The sample tree and an empty target. *)
Lemma synchronizer_copies_the_tree_witness :
  fst (_copy_plugin_files_impl chat_manager "u1" user_dir false sample_source_world)
  = Returned (Success ["package.json"; "src/BrainDriveChat.tsx";
                       "dist/remoteEntry.js"; "lifecycle_manager.py"]).
Proof.
  apply (synchronizer_copies_the_tree chat_manager "u1" user_dir false
           sample_source_world installer_file).
  - vm_compute. reflexivity.
  - reflexivity.
  - reflexivity.
  - split_and!.
    + intros q. reflexivity.
    + intros p f _ size. simpl. by rewrite lookup_empty.
    + intros q n b f _ _ Hfile. simpl in Hfile. by rewrite lookup_empty in Hfile.
Defined.

(** ** The synchronizer, then the validator *)

Lemma not_excluded p : should_copy p = true → ¬ excluded p.
Proof. intros H Hex. apply should_copy_excluded in Hex. congruence. Qed.

(** X22: what the synchronizer has copied unhindered, the validator
    accepts.  Under the conditions in which the whole tree is copied,
    if the source tree holds a [package.json] that loads to a JSON
    object with the keys [name] and [version] and a
    [dist/remoteEntry.js] whose size is not zero, then on the world the
    synchronizer leaves, [_validate_installation_impl] returns
    [valid: True] for the target directory and [_get_plugin_health_impl]
    reports it healthy. *)
Theorem synchronized_installation_is_valid
    self user_id target_dir update w f0 manifest members bundle :
  let tree := source_files (files w) in
  lists_a_tree tree = true →
  source_scan_error (files w) = None →
  lifecycle_manager_source w = Some (File f0) →
  unhindered target_dir tree w →
  (["package.json"], File manifest) ∈ tree →
  json_load manifest = Loads (JObject members) →
  "name" ∈ List.map fst members →
  "version" ∈ List.map fst members →
  (["dist"; "remoteEntry.js"], File bundle) ∈ tree →
  st_size bundle ≠ 0%N →
  let w' := snd (_copy_plugin_files_impl self user_id target_dir update w) in
  fst (_validate_installation_impl self user_id target_dir w')
  = Returned {| valid := true; error := None |}
  ∧ ∃ h, fst (_get_plugin_health_impl self user_id target_dir w') = Returned h
         ∧ healthy h = true.
Proof.
  intros tree Htree Hscan Hown Hw Hpkg Hload Hname Hversion Hbundle Hsize w'.
  destruct (copy_plugin_files_unhindered self user_id target_dir update w f0
              Htree Hscan Hown Hw) as (_ & Hfiles & _).
  fold tree in Hfiles. fold w' in Hfiles.
  assert (should_copy ["package.json"] = true) as Hcopy_p by (vm_compute; reflexivity).
  assert (should_copy ["dist"; "remoteEntry.js"] = true) as Hcopy_b
    by (vm_compute; reflexivity).
  pose proof (Hfiles _ _ Hpkg (not_excluded _ Hcopy_p)) as Hp.
  pose proof (Hfiles _ _ Hbundle (not_excluded _ Hcopy_b)) as Hb.
  change (target_dir ++ ["package.json"]) with (package_json_of target_dir) in Hp.
  change (target_dir ++ ["dist"; "remoteEntry.js"]) with (bundle_of target_dir) in Hb.
  apply mem_true in Hname, Hversion.
  split.
  - rewrite (validate_installation_present self user_id _ w' _ _ Hp Hb).
    rewrite (validate_package_json_loads _ w' manifest (JObject members) Hp Hload I).
    rewrite (check_fields_exact (JObject members) w' I). simpl py_contains.
    rewrite Hname, Hversion. simpl.
    apply N.eqb_neq in Hsize. by rewrite Hsize.
  - destruct (plugin_health_run self user_id target_dir w') as (h & -> & Hiff & _).
    exists h. split; [done|]. apply Hiff. split.
    + exists (File bundle). split; [done|]. simpl. by apply N.neq_0_lt_0.
    + by exists manifest, (JObject members).
Qed.

(** The sample tree, copied into an empty target and validated there. *)
Lemma synchronized_installation_is_valid_witness :
  fst (_validate_installation_impl chat_manager "u1" user_dir
         (snd (_copy_plugin_files_impl chat_manager "u1" user_dir false
                 sample_source_world)))
  = Returned {| valid := true; error := None |}.
Proof.
  apply (synchronized_installation_is_valid chat_manager "u1" user_dir false
           sample_source_world installer_file manifest_file
           [("name", JString "braindrive-chat"); ("version", JString "1.0.0")]
           {| st_size := 2048; json_load := DecodeFails "Expecting value" |}).
  - vm_compute. reflexivity.
  - reflexivity.
  - reflexivity.
  - split_and!.
    + intros q. reflexivity.
    + intros p f _ size. simpl. by rewrite lookup_empty.
    + intros q n b f _ _ Hfile. simpl in Hfile. by rewrite lookup_empty in Hfile.
  - simpl. left.
  - reflexivity.
  - left.
  - right. left.
  - simpl. do 9 right. left.
  - done.
Defined.
(** * The synchronizer: what is left out and what is skipped *)

(** ** Where the run writes *)

Lemma touches_mono {A : Type} (T T' : path → Prop) (m : M A) :
  (∀ b, T b → T' b) → touches_only T m → touches_only T' m.
Proof. intros HT Hm w q Hq. apply Hm. intros Hb. by apply Hq, HT. Qed.

(** The loop writes for the entries that pass [should_copy] only. *)
Lemma touches_copy_items_exact target_dir update items : ∀ copied,
  touches_only
    (λ b, ∃ q item, (q, item) ∈ items ∧ should_copy q = true
                    ∧ written_for target_dir q b)
    (copy_items target_dir update items copied).
Proof.
  induction items as [|[p item] items IH]; intros copied; simpl.
  { apply touches_ret. }
  assert (∀ c,
            touches_only
              (λ b, ∃ q item', (q, item') ∈ (p, item) :: items
                               ∧ should_copy q = true ∧ written_for target_dir q b)
              (copy_items target_dir update items c)) as Hrest.
  { intros c. eapply touches_mono; [|apply IH].
    intros b (q & n & Hin & Hc & Hb). exists q, n. split; [by right | done]. }
  destruct (_ && _); [apply Hrest|].
  destruct (should_copy p) eqn:Hcopy; simpl; [|apply Hrest].
  apply touches_bind; [|intros ?; apply Hrest].
  eapply touches_mono; [|apply touches_copy_item_exact].
  intros b Hb. exists p, item. split; [by left|]. split; [done|].
  destruct Hb as [Hb|[_ ->]]; [by left | by right].
Qed.

Lemma touches_copy_lifecycle_manager_exact target_dir update copied :
  touches_only (written_for target_dir [own_file])
    (copy_lifecycle_manager target_dir update copied).
Proof.
  unfold copy_lifecycle_manager.
  apply touches_bind; [apply touches_get_world|]. intros w.
  destruct (lifecycle_manager_source w) as [source|]; [|apply touches_ret].
  apply touches_bind.
  { apply touches_mkdir_parents. intros b Hb. left.
    etrans; [exact Hb | apply removelast_prefix]. }
  intros _. apply touches_bind.
  { apply touches_unlink_on_update. by left. }
  intros _. apply touches_bind; [|intros _; apply touches_ret].
  destruct source as [f|size]; [|apply touches_raise].
  apply touches_copy2; [by left|]. right. by rewrite <- app_assoc.
Qed.

(** A path that no copied entry and not the installer's file is written
    for holds after the run what it held before. *)
Lemma copy_plugin_files_writes self user_id target_dir update w b :
  (∀ q item, (q, item) ∈ source_files (files w) → should_copy q = true →
             ¬ written_for target_dir q b) →
  ¬ written_for target_dir [own_file] b →
  fs (files (snd (_copy_plugin_files_impl self user_id target_dir update w))) !! b
  = fs (files w) !! b.
Proof.
  intros Hitems Hown.
  set (T := λ b', (∃ q item, (q, item) ∈ source_files (files w)
                             ∧ should_copy q = true ∧ written_for target_dir q b')
                  ∨ written_for target_dir [own_file] b').
  assert (touches_only T
            (try_except
               (copied_files ← copy_items target_dir update (source_files (files w)) [];
                end_of_scan;;
                copied_files ← copy_lifecycle_manager target_dir update copied_files;
                mret (Success copied_files))
               (λ e, mret (Failure (exn_str e))))) as Hrun.
  { apply touches_try; [|intros e; apply touches_ret].
    apply touches_bind.
    { eapply touches_mono; [|apply touches_copy_items_exact]. intros b' Hb'. by left. }
    intros copied. apply touches_bind.
    { unfold end_of_scan. apply touches_bind; [apply touches_get_world|].
      intros w'. destruct (source_scan_error _); [apply touches_raise|apply touches_ret]. }
    intros _. apply touches_bind; [|intros ?; apply touches_ret].
    eapply touches_mono; [|apply touches_copy_lifecycle_manager_exact].
    intros b' Hb'. by right. }
  apply (Hrun w b).
  intros [(q & item & Hin & Hc & Hb)|Hb]; [by apply (Hitems q item) | done].
Qed.

(** ** Excluded paths *)

Lemma name_snoc p c : name (p ++ [c]) = c.
Proof. unfold name. apply last_last. Qed.

Lemma name_elem p : p ≠ [] → name p ∈ p.
Proof.
  intros Hne. unfold name.
  rewrite (app_removelast_last "" Hne) at 2.
  apply elem_of_app. right. left.
Qed.

(** What [copy2] writes inside a directory is excluded only when the
    entry is. *)
Lemma excluded_twice q : excluded (q ++ [name q]) → excluded q.
Proof.
  intros [(part & Hin & Hpat)|Hsuffix].
  - left. exists part. split; [|done].
    apply elem_of_app in Hin as [Hin|Hin]; [done|].
    apply list_elem_of_singleton in Hin as ->.
    destruct q as [|c q]; [|by apply name_elem].
    apply mem_true in Hpat. discriminate Hpat.
  - right. by rewrite name_snoc in Hsuffix.
Qed.

Lemma own_place_copied p :
  written_for [] [own_file] p → ¬ excluded p.
Proof.
  intros Hp Hex. apply should_copy_excluded in Hex.
  destruct Hp as [[k Hk]| ->]; [|discriminate Hex].
  destruct p as [|x [|y p]]; [discriminate Hex | |discriminate Hk].
  injection Hk as <- _. discriminate Hex.
Qed.

Lemma written_for_target target_dir q p :
  written_for target_dir q (target_dir ++ p) → written_for [] q p.
Proof.
  intros [Hb|Hb]; [left | right]; simpl.
  - by apply prefix_app_inv in Hb.
  - by apply app_inv_head in Hb.
Qed.

(** The place of an excluded path in the target is neither written
    nor removed, unless the tree lists below the path something that
    is not excluded. *)
Lemma excluded_not_written self user_id target_dir update w p :
  excluded p →
  (∀ q n, (q, n) ∈ source_files (files w) → p `prefix_of` q → excluded q) →
  fs (files (snd (_copy_plugin_files_impl self user_id target_dir update w)))
    !! (target_dir ++ p)
  = fs (files w) !! (target_dir ++ p).
Proof.
  intros Hex Hbelow. apply copy_plugin_files_writes.
  - intros q item Hin Hcopy Hb.
    assert (excluded q) as Hq; [|apply should_copy_excluded in Hq; congruence].
    apply written_for_target in Hb as [Hb| ->]; simpl in *.
    + by apply (Hbelow q item).
    + by apply excluded_twice.
  - intros Hb. apply written_for_target in Hb. by apply own_place_copied in Hb.
Qed.

(** ** The entries of the list *)

Lemma slash_split a : ∀ a' r r',
  Py.has_char "/" a = false → Py.has_char "/" a' = false →
  a +:+ "/" +:+ r = a' +:+ "/" +:+ r' → a = a' ∧ r = r'.
Proof.
  induction a as [|c a IH]; intros [|c' a'] r r' Ha Ha' Heq; simpl in Ha, Ha'.
  - change (String "/" r = String "/" r') in Heq. by injection Heq as ->.
  - change (String "/" r = String c' (a' +:+ "/" +:+ r')) in Heq.
    injection Heq as <- _. discriminate Ha'.
  - change (String c (a +:+ "/" +:+ r) = String "/" r') in Heq.
    injection Heq as -> _. discriminate Ha.
  - change (String c (a +:+ "/" +:+ r) = String c' (a' +:+ "/" +:+ r')) in Heq.
    injection Heq as -> Heq.
    apply orb_false_elim in Ha as [_ Ha]. apply orb_false_elim in Ha' as [_ Ha'].
    by destruct (IH a' r r' Ha Ha' Heq) as [-> ->].
Qed.

(** Paths with plain names are written differently. *)
Lemma path_str_inj p : ∀ q,
  p ≠ [] → q ≠ [] →
  (∀ part, part ∈ p → Py.has_char "/" part = false) →
  (∀ part, part ∈ q → Py.has_char "/" part = false) →
  path_str p = path_str q → p = q.
Proof.
  induction p as [|x p IH]; intros q Hp Hq Hsp Hsq Heq; [done|].
  destruct q as [|y q]; [done|].
  assert (Py.has_char "/" x = false) as Hx by (apply Hsp; left).
  assert (Py.has_char "/" y = false) as Hy by (apply Hsq; left).
  unfold path_str, Py.join in *.
  destruct p as [|x2 p], q as [|y2 q]; simpl in Heq.
  - by subst.
  - exfalso. rewrite Heq, !has_char_append in Hx. simpl in Hx.
    by rewrite orb_true_r in Hx.
  - exfalso. rewrite <- Heq, !has_char_append in Hy. simpl in Hy.
    by rewrite orb_true_r in Hy.
  - apply slash_split in Heq as [-> Heq]; [|done..].
    f_equal. apply IH; try done.
    + intros part Hin. apply Hsp. by right.
    + intros part Hin. apply Hsq. by right.
Qed.

(** ** What the operating system refuses is not written *)

Lemma refused_checked_write b v p n :
  keeps (refused_holding b v) (os_check p;; write_node p n).
Proof.
  intros w [Hos Hfs]. unfold refused_holding, mbind, M_bind, os_check.
  destruct (os_error (files w) p) eqn:Hp; simpl; [done|].
  split; [done|]. rewrite lookup_insert_ne; [done|]. intros ->. done.
Qed.

Lemma refused_checked_remove b v p :
  keeps (refused_holding b v) (os_check p;; remove_node p).
Proof.
  intros w [Hos Hfs]. unfold refused_holding, mbind, M_bind, os_check.
  destruct (os_error (files w) p) eqn:Hp; simpl; [done|].
  split; [done|]. rewrite lookup_delete_ne; [done|]. intros ->. done.
Qed.

Lemma refused_mkdir_from b v rest : ∀ base,
  keeps (refused_holding b v) (mkdir_from base rest).
Proof.
  assert (∀ (base : path) (n : option node),
            keeps (refused_holding b v)
              (match n with
               | Some (Dir _) => mret tt
               | Some (File _) => raise (Exn OSError "File exists")
               | None => os_check base;; write_node base (Dir 0)
               end)) as Hstep.
  { intros base [[f|size]|];
      [apply keeps_raise | apply keeps_ret | apply refused_checked_write]. }
  induction rest as [|c rest IH]; intros base; simpl.
  - apply keeps_bind; [apply keeps_lookup_node|]. intros n.
    apply keeps_bind; [apply Hstep | intros []; apply keeps_ret].
  - apply keeps_bind; [apply keeps_lookup_node|]. intros n.
    apply keeps_bind; [apply Hstep | intros []; apply IH].
Qed.

Lemma refused_unlink_on_update b v update p :
  keeps (refused_holding b v) (unlink_on_update update p).
Proof.
  unfold unlink_on_update. destruct update; [|apply keeps_ret].
  apply keeps_bind; [apply keeps_path_exists|]. intros [|]; [|apply keeps_ret].
  unfold unlink. apply keeps_bind; [apply keeps_lookup_node|].
  intros [[f|size]|]; [|apply keeps_raise..].
  apply refused_checked_remove.
Qed.

Lemma refused_copy2 b v src_name f dst :
  keeps (refused_holding b v) (copy2 src_name f dst).
Proof.
  unfold copy2. apply keeps_bind; [apply keeps_lookup_node|]. intros n.
  apply keeps_bind; [apply keeps_lookup_node|].
  intros [[f'|size]|];
    [apply refused_checked_write | apply keeps_raise | apply refused_checked_write].
Qed.

(** A path the operating system refuses holds after the run what it
    held before. *)
Lemma refused_not_written self user_id target_dir update w b msg :
  os_error (files w) b = Some msg →
  fs (files (snd (_copy_plugin_files_impl self user_id target_dir update w))) !! b
  = fs (files w) !! b.
Proof.
  intros Hos.
  apply (keeps_copy_plugin_files (refused_holding b (fs (files w) !! b)) update).
  - intros p. apply refused_mkdir_from.
  - intros p. apply refused_unlink_on_update.
  - intros src_name f dst. apply refused_copy2.
  - split; [by rewrite Hos | done].
Qed.

(** ** What is left out, what is skipped *)

(** C7: the synchronizer leaves out what is excluded and copies its own
    file once.  Whatever the source tree, the order in which the
    traversal lists it and the outcome of the run: the place in the
    target of a path with a component in the exclusion set is neither
    written nor removed; nor is the place of any excluded path (so
    also of one whose name ends in [.pyc]), unless the tree lists
    below it something that is not excluded (a directory called
    [x.pyc] is made for what it holds).  When the run returns its list
    of copied files, every entry is the path of a file of the source
    tree that is not excluded; no excluded entry of a tree with plain
    names is in the list; and where the installer's file is a file of
    the source, the entry [lifecycle_manager.py] occurs exactly once
    and the target holds the file under that name, provided nothing of
    the source tree lies below that name and the target had no
    directory there. *)
Theorem synchronizer_leaves_out_excluded self user_id target_dir update w :
  let tree := source_files (files w) in
  let run := _copy_plugin_files_impl self user_id target_dir update w in
  (∀ p part, part ∈ p → part ∈ exclude_patterns →
     fs (files (snd run)) !! (target_dir ++ p) = fs (files w) !! (target_dir ++ p))
  ∧ (∀ p, excluded p →
       (∀ q n, (q, n) ∈ tree → p `prefix_of` q → excluded q) →
       fs (files (snd run)) !! (target_dir ++ p) = fs (files w) !! (target_dir ++ p))
  ∧ ∀ copied, fst run = Returned (Success copied) →
      (∀ entry, entry ∈ copied →
         ∃ p f, entry = path_str p ∧ (p, File f) ∈ tree ∧ ¬ excluded p)
      ∧ (plain_names tree →
         ∀ p n, (p, n) ∈ tree → excluded p → path_str p ∉ copied)
      ∧ ∀ f, lifecycle_manager_source w = Some (File f) →
          count_occ String.string_dec copied own_file = 1
          ∧ ((∀ c rest n, (own_file :: c :: rest, n) ∉ tree) →
             not_dir (target_dir ++ [own_file]) w →
             fs (files (snd run)) !! (target_dir ++ [own_file]) = Some (File f)).
Proof.
  cbv zeta. split; [|split].
  - intros p part Hin Hpat. apply excluded_not_written.
    + left. eauto.
    + intros q n _ [k ->]. left. exists part. split; [|done].
      apply elem_of_app. by left.
  - intros p. apply excluded_not_written.
  - intros copied Hrun.
    destruct (copy_plugin_files_run self user_id target_dir update w)
      as (added & w1 & Hloop & Hsame & Hadded & Himpl).
    rewrite Himpl in Hrun |- *.
    destruct (source_scan_error (files w)); [done|].
    destruct (copy_lifecycle_manager target_dir update added w1)
      as [[listed|e] w2] eqn:Hlast; [|done].
    simpl in Hrun. injection Hrun as ->. simpl.
    assert (lifecycle_manager_source w1 = lifecycle_manager_source w) as Hsrc1.
    { unfold lifecycle_manager_source. by destruct Hsame as (_ & _ & -> & _). }
    pose proof (copy_lifecycle_manager_listed _ _ _ _ _ _ Hlast) as Hlisted.
    rewrite Hsrc1 in Hlisted.
    rewrite Forall_forall in Hadded.
    assert (∀ entry, entry ∈ copied →
              ∃ p f, entry = path_str p ∧ (p, File f) ∈ source_files (files w)
                     ∧ ¬ excluded p) as Hentries.
    { assert (∀ entry, entry ∈ added →
                ∃ p f, entry = path_str p ∧ (p, File f) ∈ source_files (files w)
                       ∧ ¬ excluded p) as Hloop_entries.
      { intros entry Hin.
        destruct (Hadded entry Hin) as (p & f' & -> & Hp & Hcopy & _).
        exists p, f'. split_and!; try done. intros Hex.
        apply should_copy_excluded in Hex. congruence. }
      destruct (lifecycle_manager_source w) as [[f|size]|] eqn:Hsrc.
      - subst copied. intros entry Hin. apply elem_of_app in Hin as [Hin|Hin].
        + by apply Hloop_entries.
        + apply list_elem_of_singleton in Hin as ->.
          exists [own_file], f. split_and!; [done | | apply own_file_copied].
          by apply own_in_tree.
      - by destruct (copy_lifecycle_manager_dir target_dir update added w1 size
                       copied w2 Hsrc1).
      - destruct Hlisted as [-> _]. exact Hloop_entries. }
    split; [exact Hentries|]. split.
    + intros Hplain p n Hp Hex Hin.
      destruct (Hentries _ Hin) as (q & f & Heq & Hq & Hnex).
      destruct (Hplain p n Hp) as [Hp1 Hp2]. destruct (Hplain q _ Hq) as [Hq1 Hq2].
      apply path_str_inj in Heq; [by subst | done..].
    + intros f Hsrc. rewrite Hsrc in Hlisted. subst copied. split.
      * rewrite count_occ_app. simpl.
        destruct (String.string_dec own_file own_file) as [_|Hne]; [|done].
        rewrite (proj1 (count_occ_not_In String.string_dec added own_file)); [done|].
        intros Hin. apply list_elem_of_In in Hin.
        destruct (Hadded own_file Hin) as (p & f' & Hp & _ & _ & Hne).
        symmetry in Hp. by apply path_str_own in Hp.
      * intros Hbelow Hnd.
        eapply copy_lifecycle_manager_target; [by rewrite Hsrc1 | | exact Hlast].
        eapply keeps_run; [| exact Hnd | exact Hloop].
        by apply not_dir_copy_items.
Qed.

(** The sample tree is copied into an empty target: nothing is put at
    [node_modules/react.js], and the installer's file is listed once
    and is there. *)
Lemma synchronizer_leaves_out_excluded_witness :
  let run := _copy_plugin_files_impl chat_manager "u1" user_dir false
               sample_source_world in
  fs (files (snd run)) !! (user_dir ++ ["node_modules"; "react.js"]) = None
  ∧ count_occ String.string_dec
      ["package.json"; "src/BrainDriveChat.tsx"; "dist/remoteEntry.js";
       "lifecycle_manager.py"] own_file = 1
  ∧ fs (files (snd run)) !! (user_dir ++ [own_file]) = Some (File installer_file).
Proof.
  cbv zeta.
  destruct (synchronizer_leaves_out_excluded chat_manager "u1" user_dir false
              sample_source_world) as (Hpart & _ & Hlist).
  destruct (Hlist ["package.json"; "src/BrainDriveChat.tsx"; "dist/remoteEntry.js";
                   "lifecycle_manager.py"]) as (_ & _ & Hown).
  { vm_compute. reflexivity. }
  destruct (Hown installer_file eq_refl) as [Hcount Htarget].
  split_and!.
  - rewrite (Hpart ["node_modules"; "react.js"] "node_modules").
    + reflexivity.
    + left.
    + left.
  - exact Hcount.
  - apply Htarget.
    + intros c rest n Hin. simpl in Hin.
      repeat (apply elem_of_cons in Hin as [Hin|Hin]; [discriminate Hin|]).
      by apply elem_of_nil in Hin.
    + intros size. simpl. by rewrite lookup_empty.
Defined.

(** C8: a copy that fails is skipped and the others are made.  For a
    file of the source the loop body returns whatever the three steps
    of the copy do: the path is added to the list when they go through,
    and the list is left as it was when one of them raises, as it does
    when the operating system refuses the writing.  From any point of
    the traversal the loop goes on with the items that remain.  What
    the operating system refuses is not written, whatever else
    happens.  Where it refuses nothing but files of the tree, the run
    is a success: its list is the files to copy without the refused
    ones, and every other file is in the target.  The result is a
    success with the list whenever the traversal ends without an error
    and the copy of [lifecycle_manager.py] raises nothing; it is
    [{success: False, error}] only when one of those two raises. *)
Theorem copy_failures_are_skipped self user_id target_dir update w :
  let tree := source_files (files w) in
  let run := _copy_plugin_files_impl self user_id target_dir update w in
  (∀ p f copied w0,
     let steps := mkdir_parents (parent (target_dir ++ p));;
                  unlink_on_update update (target_dir ++ p);;
                  copy2 (name p) f (target_dir ++ p) in
     copy_item target_dir update p (File f) copied w0
     = (Returned (match fst (steps w0) with
                  | Returned _ => copied ++ [path_str p]
                  | Raised _ => copied
                  end), snd (steps w0)))
  ∧ (∀ p f msg copied w0,
       p ≠ [] →
       os_error (files w0) (target_dir ++ p) = Some msg →
       not_dir (target_dir ++ p) w0 →
       ∃ w1, copy_item target_dir update p (File f) copied w0 = (Returned copied, w1))
  ∧ (∀ before p item after,
       tree = before ++ (p, item) :: after →
       is_own p = false → should_copy p = true →
       ∃ copied0 w0 copied1 w1,
         copy_items target_dir update before [] w = (Returned copied0, w0)
         ∧ copy_item target_dir update p item copied0 w0 = (Returned copied1, w1)
         ∧ copy_items target_dir update tree [] w
           = copy_items target_dir update after copied1 w1)
  ∧ (∀ b msg, os_error (files w) b = Some msg →
       fs (files (snd run)) !! b = fs (files w) !! b)
  ∧ (∀ f0,
       lists_a_tree tree = true →
       source_scan_error (files w) = None →
       lifecycle_manager_source w = Some (File f0) →
       passable target_dir tree w →
       allowed w target_dir [own_file] = true →
       fst run
       = Returned (Success ((path_str <$> List.filter (allowed w target_dir)
                                            (copyable tree)) ++ [own_file]))
       ∧ ∀ p f, (p, File f) ∈ tree → ¬ excluded p → allowed w target_dir p = true →
                fs (files (snd run)) !! (target_dir ++ p) = Some (File f))
  ∧ ∃ copied w1,
      copy_items target_dir update tree [] w = (Returned copied, w1)
      ∧ run =
          match source_scan_error (files w) with
          | Some msg => (Returned (Failure msg), w1)
          | None =>
              match copy_lifecycle_manager target_dir update copied w1 with
              | (Returned listed, w2) => (Returned (Success listed), w2)
              | (Raised e, w2) => (Returned (Failure (exn_str e)), w2)
              end
          end.
Proof.
  cbv zeta. split_and!.
  - intros p f copied w0. unfold copy_item, try_except, mbind, M_bind.
    destruct (mkdir_parents (parent (target_dir ++ p)) w0) as [[[]|e1] w1]; [|done].
    destruct (unlink_on_update update (target_dir ++ p) w1) as [[[]|e2] w2]; [|done].
    by destruct (copy2 (name p) f (target_dir ++ p) w2) as [[[]|e3] w3].
  - intros p f msg copied w0. apply copy_item_refused.
  - intros before p item after Htree Hown Hcopy.
    destruct (copy_items_run target_dir update before [] w)
      as (copied0 & w0 & Hbefore & _). simpl in Hbefore.
    destruct (copy_item_run target_dir update p item copied0 w0)
      as (copied1 & w1 & Hitem & _).
    exists copied0, w0, copied1, w1. split; [exact Hbefore|]. split; [exact Hitem|].
    rewrite Htree, copy_items_app, Hbefore.
    simpl copy_items. fold (is_own p). rewrite Hown, Hcopy. simpl.
    by rewrite (bind_returned _ _ _ _ _ Hitem).
  - intros b msg. apply refused_not_written.
  - intros f0 Htree Hscan Hown Hw Hal.
    destruct (copy_plugin_files_passable self user_id target_dir update w f0
                Htree Hscan Hown Hw Hal) as (Hres & Hfiles & _).
    by split.
  - destruct (copy_plugin_files_run self user_id target_dir update w)
      as (added & w1 & Hloop & _ & _ & Himpl).
    by exists added, w1.
Qed.

(** The sample tree and a target in which [src/BrainDriveChat.tsx]
    cannot be written: the file is left out of the list and of the
    target, the bundle, which comes after it, is copied, and the
    result is a success. *)
Lemma copy_failures_are_skipped_witness :
  let run := _copy_plugin_files_impl chat_manager "u1" user_dir false
               read_only_src_world in
  fst run = Returned (Success ["package.json"; "dist/remoteEntry.js";
                               "lifecycle_manager.py"])
  ∧ fs (files (snd run)) !! (user_dir ++ ["src"; "BrainDriveChat.tsx"]) = None
  ∧ fs (files (snd run)) !! (user_dir ++ ["dist"; "remoteEntry.js"])
    = Some bundle_file.
Proof.
  cbv zeta.
  destruct (copy_failures_are_skipped chat_manager "u1" user_dir false
              read_only_src_world) as (_ & _ & _ & Hrefused & Hcopied & _).
  destruct (Hcopied installer_file) as [Hres Hfiles].
  { vm_compute. reflexivity. }
  { reflexivity. }
  { reflexivity. }
  { split_and!.
    - intros b msg Hb. simpl in Hb. case_bool_decide; [|done]. subst b.
      eexists _, _. split; [simpl; do 4 right; left | reflexivity].
    - intros p f _ size. simpl. by rewrite lookup_empty.
    - intros q n b f _ _ Hfile. simpl in Hfile. by rewrite lookup_empty in Hfile. }
  { vm_compute. reflexivity. }
  split_and!.
  - rewrite Hres. vm_compute. reflexivity.
  - rewrite (Hrefused _ "Permission denied"); [reflexivity|].
    vm_compute. reflexivity.
  - apply Hfiles.
    + simpl. do 9 right. left.
    + apply not_excluded. reflexivity.
    + vm_compute. reflexivity.
Defined.

(** A file that cannot be written is left out of the list; the files
    after it are copied all the same and the result is a success. *)
Example copy_skips_refused_file :
  fst (_copy_plugin_files_impl chat_manager "u1" user_dir false read_only_src_world)
  = Returned (Success ["package.json"; "dist/remoteEntry.js";
                       "lifecycle_manager.py"]).
Proof. vm_compute. reflexivity. Qed.
